(** * Voices from History: the generation pipeline of [geminiService.ts]

    A shallow embedding of the response-normalisation and orchestration
    code of the application (the retry wrapper, the JSON extractor, the
    scenario normaliser inside [researchLocationAndDate], the audio
    fallback of [generateDialogueAudio] and the avatar stage of
    [handleSubmit]), together with the properties the specification
    states about them.  The research request as a whole (prompt,
    grounding sources, error reporting) and the submit handler of
    [App.tsx] follow, with further properties read off the code.

    Conventions.
    - A JavaScript string is the list of its UTF-16 code units.
    - A JavaScript value reachable from [JSON.parse] is a tree; the code
      never shares an object between two places of a payload, so objects
      are modelled by value and every mutation is written as an explicit
      update of the tree.
    - The source is an ES module, hence strict-mode code: assigning a
      property to a primitive raises a [TypeError].
    - [Math.random] is an explicit stream of draws. *)

From Stdlib Require Import List NArith ZArith Lia Bool String Ascii Permutation Sorted.
From Stdlib Require DecimalString.
Import ListNotations.

(* ================================================================== *)
(** * JavaScript strings *)
(* ================================================================== *)

(** A string is its sequence of UTF-16 code units. *)
Definition jsstring := list N.

(** The ASCII literal [s] as a JavaScript string. *)
Definition lit (s : string) : jsstring :=
  map N_of_ascii (list_ascii_of_string s).

Fixpoint str_eqb (a b : jsstring) : bool :=
  match a, b with
  | [], [] => true
  | x :: a', y :: b' => N.eqb x y && str_eqb a' b'
  | _, _ => false
  end.

(** [WhiteSpace] and [LineTerminator] code points of ECMAScript, the
    characters [String.prototype.trim] removes. *)
Definition isWhiteSpace (c : N) : bool :=
  ((9 <=? c) && (c <=? 13) || (c =? 32) || (c =? 160) || (c =? 5760)
   || (8192 <=? c) && (c <=? 8202) || (c =? 8232) || (c =? 8233)
   || (c =? 8239) || (c =? 8287) || (c =? 12288) || (c =? 65279))%N.

Fixpoint trimStart (s : jsstring) : jsstring :=
  match s with
  | c :: s' => if isWhiteSpace c then trimStart s' else s
  | [] => []
  end.

Definition trimEnd (s : jsstring) : jsstring := rev (trimStart (rev s)).

(** [s.trim()] *)
Definition trim (s : jsstring) : jsstring := trimEnd (trimStart s).

Fixpoint startsWith (s p : jsstring) : bool :=
  match p, s with
  | [], _ => true
  | x :: p', y :: s' => N.eqb x y && startsWith s' p'
  | _ :: _, [] => false
  end.

(** [s.includes(p)]: [p] occurs in [s] as a contiguous substring. *)
Fixpoint includes (s p : jsstring) : bool :=
  startsWith s p ||
  match s with
  | [] => false
  | _ :: s' => includes s' p
  end.

(** [String(n)] for a natural number [n]. *)
Definition ofNat (n : nat) : jsstring :=
  lit (DecimalString.NilEmpty.string_of_uint (Nat.to_uint n)).

(** The value of a decimal digit string, most significant digit first. *)
Fixpoint digitsValue (acc : N) (s : jsstring) : option N :=
  match s with
  | [] => Some acc
  | c :: s' =>
      if ((48 <=? c) && (c <=? 57))%N
      then digitsValue (acc * 10 + (c - 48))%N s'
      else None
  end.

(** [arrayIndex s = Some n] when [s] is the canonical decimal form of an
    array index [n <= 2^32 - 2]; those property keys are enumerated
    first, in ascending numeric order, by [Object.keys]. *)
Definition arrayIndex (s : jsstring) : option N :=
  match s with
  | [] => None
  | c :: s' =>
      if (c =? 48)%N && negb (match s' with [] => true | _ => false end)
      then None
      else match digitsValue 0 s with
           | Some n => if (n <=? 4294967294)%N then Some n else None
           | None => None
           end
  end.

(** ** Trimming *)

(** A string is trimmed when neither end carries white space. *)
Definition headOk (s : jsstring) : bool :=
  match s with
  | [] => true
  | c :: _ => negb (isWhiteSpace c)
  end.

Definition trimmed (s : jsstring) : bool := headOk s && headOk (rev s).


(* ================================================================== *)
(** * JavaScript values *)
(* ================================================================== *)

(** The values the pipeline handles: what [JSON.parse] produces, plus
    [undefined] (the result of reading an absent property) and the
    members of [Object.prototype], which a plain object used as a
    dictionary inherits.

    - [VNum repr]: a number, represented by its [Number::toString]
      rendering [repr] (["0"] for both zeros); the code only ever
      converts numbers to strings or tests their truthiness.
    - [VArr elems props]: an array with its elements and its own named
      (non-index) properties; [JSON.parse] gives [props = []].
    - [VObj props]: a plain object with its own properties in creation
      order.
    - [VBuiltin key]: the value of [Object.prototype[key]], a built-in
      function (or [Object.prototype] itself when [key] is
      ["__proto__"]). *)
Unset Elimination Schemes.
Inductive Value : Type :=
| VUndefined
| VNull
| VBool (b : bool)
| VNum (repr : jsstring)
| VStr (s : jsstring)
| VArr (elems : list Value) (props : list (jsstring * Value))
| VObj (props : list (jsstring * Value))
| VBuiltin (key : jsstring).
Set Elimination Schemes.

(** The [TypeError]s the engine raises in the normaliser, by cause (the
    message text is the engine's own). *)
Inductive TypeError : Type :=
| ReadOfNullish (key : jsstring)   (* reading a property of null/undefined *)
| WriteToNonObject (key : jsstring) (* assigning a property of a non-object *)
| NotConvertible.                    (* object without a primitive value *)

(** The completion of a computation that may throw. *)
Inductive outcome (A : Type) : Type :=
| Returns (a : A)
| Throws (e : TypeError).

Arguments Returns {A} a.
Arguments Throws {A} e.

Definition bind {A B : Type} (m : outcome A) (k : A -> outcome B) : outcome B :=
  match m with
  | Returns a => k a
  | Throws e => Throws e
  end.

Notation "x <- m ;; k" := (bind m (fun x => k))
  (at level 61, m at next level, right associativity).
Notation "' pat <- m ;; k" := (bind m (fun x => match x with pat => k end))
  (at level 61, pat pattern, m at next level, right associativity).

(** [forEach]/[map] with a body that may throw: the first exception
    aborts the loop. *)
Fixpoint mapM {A B : Type} (f : A -> outcome B) (l : list A) : outcome (list B) :=
  match l with
  | [] => Returns []
  | x :: l' => y <- f x ;; ys <- mapM f l' ;; Returns (y :: ys)
  end.

(** ** Own properties *)

Fixpoint ownGet {A : Type} (props : list (jsstring * A)) (k : jsstring) : option A :=
  match props with
  | [] => None
  | (k', v) :: rest => if str_eqb k' k then Some v else ownGet rest k
  end.

(** Assignment to an own property: an existing property keeps its place,
    a new one is created last (the keys assigned by the code are never
    array indices). *)
Fixpoint ownSet {A : Type} (props : list (jsstring * A)) (k : jsstring) (x : A)
  : list (jsstring * A) :=
  match props with
  | [] => [(k, x)]
  | (k', v) :: rest =>
      if str_eqb k' k then (k', x) :: rest else (k', v) :: ownSet rest k x
  end.

(** The names of the properties of [Object.prototype]. *)
Definition protoKeys : list jsstring :=
  map lit ["constructor"; "__defineGetter__"; "__defineSetter__";
           "hasOwnProperty"; "__lookupGetter__"; "__lookupSetter__";
           "isPrototypeOf"; "propertyIsEnumerable"; "toString"; "valueOf";
           "__proto__"; "toLocaleString"]%string.

Definition isProtoKey (k : jsstring) : bool := existsb (str_eqb k) protoKeys.

(** [v.k] for the fixed keys the code reads on payload values
    ([characters], [script], [name], [gender], [voice], [speaker],
    [status], [code], [message]): none of them is defined by the prototype
    of an object, an array, a string, a number or a boolean, so the
    lookup sees own properties only.  Reading a property of [null] or
    [undefined] throws. *)
Definition getField (v : Value) (k : jsstring) : outcome Value :=
  match v with
  | VUndefined | VNull => Throws (ReadOfNullish k)
  | VObj props | VArr _ props =>
      match ownGet props k with
      | Some x => Returns x
      | None => Returns VUndefined
      end
  | VBool _ | VNum _ | VStr _ | VBuiltin _ => Returns VUndefined
  end.

(** [v.k = x] in strict mode.  The built-in members of
    [Object.prototype] are never assigned to by the code (they only ever
    appear as the speaker of a line); the model treats them as frozen. *)
Definition setField (v : Value) (k : jsstring) (x : Value) : outcome Value :=
  match v with
  | VObj props => Returns (VObj (ownSet props k x))
  | VArr elems props => Returns (VArr elems (ownSet props k x))
  | _ => Throws (WriteToNonObject k)
  end.

(** ToBoolean *)
Definition truthy (v : Value) : bool :=
  match v with
  | VUndefined | VNull => false
  | VBool b => b
  | VNum repr => negb (str_eqb repr (lit "0"))
  | VStr s => negb (str_eqb s [])
  | VArr _ _ | VObj _ | VBuiltin _ => true
  end.

Definition isArray (v : Value) : bool :=
  match v with
  | VArr _ _ => true
  | _ => false
  end.

(** The elements of an array value. *)
Definition elements (v : Value) : list Value :=
  match v with
  | VArr elems _ => elems
  | _ => []
  end.

(** [a === b] where at least one side is a primitive.  Two object
    values are never compared by the code. *)
Definition strictEq (a b : Value) : bool :=
  match a, b with
  | VUndefined, VUndefined => true
  | VNull, VNull => true
  | VBool x, VBool y => Bool.eqb x y
  | VNum x, VNum y => str_eqb x y
  | VStr x, VStr y => str_eqb x y
  | _, _ => false
  end.

(** The text [String(f)] gives for a member of [Object.prototype]. *)
Definition builtinSource (key : jsstring) : jsstring :=
  if str_eqb key (lit "__proto__") then lit "[object Object]"
  else if str_eqb key (lit "constructor") then lit "function Object() { [native code] }"
  else lit "function " ++ key ++ lit "() { [native code] }".

Definition hasOwn {A : Type} (props : list (jsstring * A)) (k : jsstring) : bool :=
  match ownGet props k with
  | Some _ => true
  | None => false
  end.

(** [String(v)].  An object is converted through its [toString] method:
    [Object.prototype.toString] for a plain object,
    [Array.prototype.join] for an array.  An own property named
    [toString] shadows the inherited method; being data, it is not
    callable, and neither it nor [valueOf] then yields a primitive:
    the conversion throws. *)
Fixpoint toStr (v : Value) : outcome jsstring :=
  match v with
  | VUndefined => Returns (lit "undefined")
  | VNull => Returns (lit "null")
  | VBool b => Returns (if b then lit "true" else lit "false")
  | VNum repr => Returns repr
  | VStr s => Returns s
  | VObj props =>
      if hasOwn props (lit "toString") then Throws NotConvertible
      else Returns (lit "[object Object]")
  | VArr elems props =>
      if hasOwn props (lit "toString") then Throws NotConvertible
      else if hasOwn props (lit "join") then Returns (lit "[object Array]")
      else
        (fix join (l : list Value) : outcome jsstring :=
           match l with
           | [] => Returns []
           | x :: rest =>
               s <- match x with
                    | VUndefined | VNull => Returns []
                    | _ => toStr x
                    end ;;
               match rest with
               | [] => Returns s
               | _ :: _ => r <- join rest ;; Returns (s ++ lit "," ++ r)
               end
           end) elems
  | VBuiltin key => Returns (builtinSource key)
  end.

(** ** Plain objects used as dictionaries

    [speakerCounts] and [speakerMap] are created as [{}] and indexed by
    arbitrary speaker strings.  A key that is not an own property falls
    through to [Object.prototype]; assigning a primitive to [__proto__]
    runs the inherited setter, which ignores it. *)

Definition recordSet {A : Type} (m : list (jsstring * A)) (k : jsstring) (x : A)
  : list (jsstring * A) :=
  if str_eqb k (lit "__proto__") then m else ownSet m k x.

(** [m[k]] for a dictionary of strings. *)
Definition recordGet (m : list (jsstring * jsstring)) (k : jsstring) : Value :=
  match ownGet m k with
  | Some s => VStr s
  | None => if isProtoKey k then VBuiltin k else VUndefined
  end.

Fixpoint insertIndex (x : N * jsstring) (l : list (N * jsstring)) : list (N * jsstring) :=
  match l with
  | [] => [x]
  | y :: l' => if (fst y <? fst x)%N then y :: insertIndex x l' else x :: l
  end.

(** [Object.keys(m)]: array-index keys in ascending numeric order, then
    the other keys in creation order. *)
Definition objectKeys {A : Type} (m : list (jsstring * A)) : list jsstring :=
  let keys := map fst m in
  let indexed :=
    flat_map (fun k => match arrayIndex k with Some n => [(n, k)] | None => [] end) keys in
  map snd (fold_right insertIndex [] indexed)
  ++ filter (fun k => match arrayIndex k with Some _ => false | None => true end) keys.

(** [Object.values(m)] lists the own values along [Object.keys(m)]; the
    code only tests membership in it. *)
Definition objectValues {A : Type} (m : list (jsstring * A)) : list A := map snd m.

(** ** Array.prototype.sort *)

(** The result of a comparator: a number or [NaN]. *)
Inductive jsnum : Type :=
| Num (z : Z)
| NaN.

Definition positive (n : jsnum) : bool :=
  match n with
  | Num z => (0 <? z)%Z
  | NaN => false
  end.

Section Sort.
Variable A : Type.
Variable comparefn : A -> A -> jsnum.

(** [x] moves behind [y] only when [comparefn x y > 0]; a [NaN]
    result counts as [+0]. *)
Fixpoint insertSorted (x : A) (l : list A) : list A :=
  match l with
  | [] => [x]
  | y :: l' => if positive (comparefn x y) then y :: insertSorted x l' else x :: l
  end.

(** A stable sort.  For a consistent comparator the result is the one
    ECMAScript prescribes; for an inconsistent one (some result is
    [NaN] while others are not) ECMAScript leaves the order to the
    implementation and this is one admissible outcome. *)
Definition arraySort (l : list A) : list A := fold_right insertSorted [] l.
End Sort.

Arguments insertSorted {A} comparefn x l.
Arguments arraySort {A} comparefn l.

(* ================================================================== *)
(** * The scenario normaliser (researchLocationAndDate, lines 193-318) *)
(* ================================================================== *)

(** ** Math.random *)

(** The future results of [Math.random()]: draw [n] is the number
    [rng n mod 2^53 / 2^53] of the interval [0, 1). *)
Definition Rng := nat -> N.

Definition nextRng (rng : Rng) : Rng := fun n => rng (S n).

(** [Math.floor(Math.random() * len)] for the draw [r]. *)
Definition randomIndex (r : N) (len : nat) : nat :=
  N.to_nat ((r mod 2 ^ 53) * N.of_nat len / 2 ^ 53).

(** [l[i]], [undefined] past the end. *)
Definition nthValue (l : list jsstring) (i : nat) : Value :=
  match nth_error l i with
  | Some s => VStr s
  | None => VUndefined
  end.

(** ** Characters *)

Definition maleVoices : list jsstring := map lit ["Puck"; "Fenrir"; "Charon"; "Zephyr"]%string.
Definition femaleVoices : list jsstring := map lit ["Kore"; "Aoede"]%string.

(** The character pushed by the padding loop when the array holds
    [nextId - 1] entries. *)
Definition defaultCharacter (nextId : nat) : Value :=
  let isMale := negb (Nat.eqb (nextId mod 2) 0) in
  VObj [ (lit "name", VStr (lit "Speaker " ++ ofNat nextId));
         (lit "gender", VStr (if isMale then lit "male" else lit "female"));
         (lit "voice", VStr (if isMale then lit "Puck" else lit "Kore"));
         (lit "visualDescription", VStr (lit "A person from this historical period."));
         (lit "bio", VStr (lit "A local inhabitant of this era.")) ].

(** [while (data.characters.length < 2) data.characters.push(...)], at
    most [fuel] iterations. *)
Fixpoint padCharacters (fuel : nat) (chars : list Value) : list Value :=
  match fuel with
  | O => chars
  | S fuel' =>
      if List.length chars <? 2
      then padCharacters fuel' (chars ++ [defaultCharacter (List.length chars + 1)])
      else chars
  end.

(** The body of the sanitising [forEach] over the two characters. *)
Definition sanitizeCharacter (c : Value) : outcome Value :=
  name <- getField c (lit "name") ;;
  s <- toStr name ;;
  c1 <- setField c (lit "name") (VStr (trim s)) ;;
  g <- getField c1 (lit "gender") ;;
  if negb (strictEq g (VStr (lit "male"))) && negb (strictEq g (VStr (lit "female")))
  then setField c1 (lit "gender") (VStr (lit "male"))
  else Returns c1.

(** Appends [" (1)"] and [" (2)"] when the two names are identical. *)
Definition distinctNames (c1 c2 : Value) : outcome (Value * Value) :=
  n1 <- getField c1 (lit "name") ;;
  n2 <- getField c2 (lit "name") ;;
  if strictEq n1 n2
  then
    s1 <- toStr n1 ;;
    c1' <- setField c1 (lit "name") (VStr (s1 ++ lit " (1)")) ;;
    s2 <- toStr n2 ;;
    c2' <- setField c2 (lit "name") (VStr (s2 ++ lit " (2)")) ;;
    Returns (c1', c2')
  else Returns (c1, c2).

(** [voiceList.includes(v)] *)
Definition voiceListIncludes (voiceList : list jsstring) (v : Value) : bool :=
  existsb (fun x => strictEq (VStr x) v) voiceList.

(** [getValidVoice(char, takenVoice)]; [takenVoice] is [undefined] in the
    first call.  Returns the voice and the remaining random draws. *)
Definition getValidVoice (char takenVoice : Value) (rng : Rng) : outcome (Value * Rng) :=
  g <- getField char (lit "gender") ;;
  let voiceList := if strictEq g (VStr (lit "female")) then femaleVoices else maleVoices in
  v <- getField char (lit "voice") ;;
  if voiceListIncludes voiceList v && negb (strictEq v takenVoice)
  then Returns (v, rng)
  else
    let available := filter (fun x => negb (strictEq (VStr x) takenVoice)) voiceList in
    if 0 <? List.length available
    then Returns (nthValue available (randomIndex (rng 0%nat) (List.length available)), nextRng rng)
    else Returns (nthValue voiceList (randomIndex (rng 0%nat) (List.length voiceList)), nextRng rng).

(** ** Script speakers *)

(** A value stored in [speakerCounts]: a count, or the string that
    results from adding 1 to an inherited member of [Object.prototype]. *)
Inductive Count : Type :=
| CNum (n : N)
| CStr (s : jsstring).

(** [speakerCounts[k] = (speakerCounts[k] || 0) + 1] *)
Definition countSpeaker (counts : list (jsstring * Count)) (k : jsstring)
  : list (jsstring * Count) :=
  let next :=
    match ownGet counts k with
    | Some (CNum n) => CNum (n + 1)
    | Some (CStr s) => CStr (s ++ lit "1")
    | None => if isProtoKey k then CStr (builtinSource k ++ lit "1") else CNum 1
    end in
  recordSet counts k next.

(** The body of the counting [forEach]: defaults and trims the speaker
    of [line]; returns the updated line with its speaker string. *)
Definition prepareLine (line : Value) : outcome (Value * jsstring) :=
  sp <- getField line (lit "speaker") ;;
  line1 <- (if truthy sp then Returns line
            else setField line (lit "speaker") (VStr (lit "Unknown"))) ;;
  sp1 <- getField line1 (lit "speaker") ;;
  s <- toStr sp1 ;;
  line2 <- setField line1 (lit "speaker") (VStr (trim s)) ;;
  Returns (line2, trim s).

(** [speakerCounts[b] - speakerCounts[a]]; the strings a count can be
    (["function ...1"]) convert to [NaN]. *)
Definition compareCounts (counts : list (jsstring * Count)) (a b : jsstring) : jsnum :=
  match ownGet counts b, ownGet counts a with
  | Some (CNum x), Some (CNum y) => Num (Z.of_N x - Z.of_N y)
  | _, _ => NaN
  end.

Definition scriptSpeakersOf (counts : list (jsstring * Count)) : list jsstring :=
  arraySort (compareCounts counts) (objectKeys counts).

Section Normalizer.

(** [String.prototype.toLowerCase], left abstract: the Unicode case
    mapping is not reproduced here.  The properties below hold for any
    such function; the only fact ever assumed of it, where stated, is
    that it maps the empty string to itself. *)
Variable toLowerCase : jsstring -> jsstring.

(** The fuzzy test of raw speaker [s] against a character name. *)
Definition fuzzyMatch (s name : jsstring) : bool :=
  str_eqb s name
  || includes (toLowerCase name) (toLowerCase s)
  || includes (toLowerCase s) (toLowerCase name).

(** The body of [scriptSpeakers.forEach]. *)
Definition matchSpeaker (n1 n2 : jsstring) (speakerMap : list (jsstring * jsstring))
           (s : jsstring) : list (jsstring * jsstring) :=
  if fuzzyMatch s n1 then recordSet speakerMap s n1
  else if fuzzyMatch s n2 then recordSet speakerMap s n2
  else speakerMap.

(** [Object.values(speakerMap).includes(name)] *)
Definition isCharUsed (speakerMap : list (jsstring * jsstring)) (name : jsstring) : bool :=
  existsb (fun v => str_eqb v name) (objectValues speakerMap).

(** [unmapped[i]] is truthy: the entry exists and is not empty. *)
Definition unmappedAt (unmapped : list jsstring) (i : nat) : option jsstring :=
  match nth_error unmapped i with
  | Some s => if truthy (VStr s) then Some s else None
  | None => None
  end.

(** [if (!isCharUsed() && unmapped[unmappedIndex]) { speakerMap[...] =
    name; unmappedIndex++ }] on the pair of the map and the index. *)
Definition assignIfUnused (name : jsstring) (unmapped : list jsstring)
           (st : list (jsstring * jsstring) * nat) : list (jsstring * jsstring) * nat :=
  let '(speakerMap, unmappedIndex) := st in
  match isCharUsed speakerMap name, unmappedAt unmapped unmappedIndex with
  | false, Some s => (recordSet speakerMap s name, S unmappedIndex)
  | _, _ => (speakerMap, unmappedIndex)
  end.

(** Lines 271-309: the speaker map built from the counts. *)
Definition buildSpeakerMap (n1 n2 : jsstring) (counts : list (jsstring * Count))
  : list (jsstring * jsstring) :=
  let scriptSpeakers := scriptSpeakersOf counts in
  let speakerMap := fold_left (matchSpeaker n1 n2) scriptSpeakers [] in
  let unmapped := filter (fun s => negb (truthy (recordGet speakerMap s))) scriptSpeakers in
  let st := assignIfUnused n1 unmapped (speakerMap, 0%nat) in
  let st := assignIfUnused n2 unmapped st in
  fold_left (fun m s => recordSet m s n1) (skipn (snd st) unmapped) (fst st).

(** The body of the final [forEach]: rewrites the speaker of a line
    whose speaker string is [s]. *)
Definition applyLine (speakerMap : list (jsstring * jsstring)) (n1 : jsstring)
           (ls : Value * jsstring) : outcome Value :=
  let '(line, s) := ls in
  let mapped := recordGet speakerMap s in
  if truthy mapped then setField line (lit "speaker") mapped
  else setField line (lit "speaker") (VStr n1).

(** Lines 221-256: the two characters, once the array holds exactly
    the entries [chars]. *)
Definition normalizeCharacters (rng : Rng) (chars : list Value) : outcome (Value * Value) :=
  chars <- mapM sanitizeCharacter chars ;;
  match chars with
  | [c1; c2] =>
      '(c1, c2) <- distinctNames c1 c2 ;;
      '(v1, rng) <- getValidVoice c1 VUndefined rng ;;
      char1 <- setField c1 (lit "voice") v1 ;;
      taken <- getField char1 (lit "voice") ;;
      '(v2, rng) <- getValidVoice c2 taken rng ;;
      char2 <- setField c2 (lit "voice") v2 ;;
      Returns (char1, char2)
  | _ => Throws (ReadOfNullish (lit "name"))
  end.

(** Lines 263-318: the lines of the script, rewritten. *)
Definition normalizeScript (char1 : Value) (char2 : Value) (lines : list Value)
  : outcome (list Value) :=
  lines <- mapM prepareLine lines ;;
  let speakerCounts := fold_left countSpeaker (map snd lines) [] in
  n1 <- (x <- getField char1 (lit "name") ;; toStr x) ;;
  n2 <- (x <- getField char2 (lit "name") ;; toStr x) ;;
  let speakerMap := buildSpeakerMap n1 n2 speakerCounts in
  mapM (applyLine speakerMap n1) lines.

(** [if (!data.k || !Array.isArray(data.k)) data.k = []] *)
Definition ensureArray (data : Value) (k : jsstring) : outcome Value :=
  v <- getField data k ;;
  if negb (truthy v) || negb (isArray v)
  then setField data k (VArr [] [])
  else Returns data.

(** The normalisation stage, from the extracted payload [data] to the
    object that is returned (before [sources] is attached).  The
    characters and the lines are mutated in place by the code; here
    they are written back into [data] at the end. *)
Definition normalize (rng : Rng) (data : Value) : outcome Value :=
  data <- ensureArray data (lit "characters") ;;
  cv <- getField data (lit "characters") ;;
  let chars := firstn 2 (padCharacters 2 (elements cv)) in
  data <- setField data (lit "characters") (VArr chars []) ;;
  '(char1, char2) <- normalizeCharacters rng chars ;;
  data <- ensureArray data (lit "script") ;;
  sv <- getField data (lit "script") ;;
  lines <- normalizeScript char1 char2 (elements sv) ;;
  data <- setField data (lit "characters") (VArr [char1; char2] []) ;;
  setField data (lit "script")
           (match sv with
            | VArr _ props => VArr lines props
            | _ => VArr lines []
            end).

End Normalizer.

(** [toLowerCase] on strings of ASCII characters, where it coincides
    with the JavaScript method; used to run the normaliser on concrete
    ASCII payloads. *)
Definition toLowerCaseAscii (s : jsstring) : jsstring :=
  map (fun c => if ((65 <=? c) && (c <=? 90))%N then (c + 32)%N else c) s.

(* ================================================================== *)
(** * Thrown values and promise results *)
(* ================================================================== *)

(** What a [catch] clause receives. *)
Inductive Thrown : Type :=
| ErrorObject (props : list (jsstring * Value))  (* an instance of Error, with its own properties *)
| NonError (v : Value).                          (* any other thrown value *)

(** [new Error(message)] *)
Definition newError (message : jsstring) : Thrown :=
  ErrorObject [(lit "message", VStr message)].

(** The completion of a call: a value, or a thrown value (for an async
    function: the settled state of its promise). *)
Inductive completion (A : Type) : Type :=
| Normal (a : A)
| Abrupt (e : Thrown).

Arguments Normal {A} a.
Arguments Abrupt {A} e.

(** [error?.k] for [k] among [status], [code] and [message].  An
    instance of [Error] without an own [message] inherits the empty
    string from [Error.prototype]. *)
Definition errorField (error : Thrown) (k : jsstring) : Value :=
  match error with
  | ErrorObject props =>
      match ownGet props k with
      | Some x => x
      | None => if str_eqb k (lit "message") then VStr [] else VUndefined
      end
  | NonError v =>
      match getField v k with
      | Returns x => x
      | Throws _ => VUndefined
      end
  end.

(** [error instanceof Error ? error.message : String(error)], converted
    to a string as a template literal does. *)
Definition messageOf (error : Thrown) : outcome jsstring :=
  match error with
  | ErrorObject _ => toStr (errorField error (lit "message"))
  | NonError v => toStr v
  end.

(* ================================================================== *)
(** * The retry executor (withRetry, lines 26-43) *)
(* ================================================================== *)

Definition MAX_RETRIES : nat := 3.
Definition INITIAL_DELAY_MS : Z := 2000.

(** [message.includes(needle)], for the value of [error.message] once it
    is known to be truthy: a string searches for a substring, an array
    for an element; any other value has no callable [includes]. *)
Definition messageIncludes (message : Value) (needle : jsstring) : option bool :=
  match message with
  | VStr s => Some (includes s needle)
  | VArr elems props =>
      if hasOwn props (lit "includes") then None
      else Some (existsb (fun x => strictEq x (VStr needle)) elems)
  | _ => None
  end.

(** The [isQuotaError] test of the [catch] clause, as the truthiness of
    the expression; [None] when evaluating it throws a [TypeError]
    ([error.message.includes is not a function]). *)
Definition isQuotaError (error : Thrown) : option bool :=
  if strictEq (errorField error (lit "status")) (VNum (lit "429")) then Some true
  else if strictEq (errorField error (lit "code")) (VNum (lit "429")) then Some true
  else
    let message := errorField error (lit "message") in
    if truthy message then
      match messageIncludes message (lit "429") with
      | Some true => Some true
      | Some false =>
          match messageIncludes message (lit "quota") with
          | Some true => Some true
          | Some false => messageIncludes message (lit "RESOURCE_EXHAUSTED")
          | None => None
          end
      | None => None
      end
    else Some false.

(** What [withRetry] does, in order: it calls the operation and it
    sleeps ([setTimeout(resolve, delay)]). *)
Inductive RetryEvent : Type :=
| Called
| Slept (ms : Z).

Section Retry.

(** The state of everything outside the program (the remote services). *)
Variable World : Type.
Variable T : Type.

(** [retries] is a non-negative integer in every call of the program
    (3 by default, 2 for images).  [delay] is a number of milliseconds;
    the program starts every call at [INITIAL_DELAY_MS], so the delays
    are the integers 2000, 4000, 8000, on which doubling in [Z] is the
    doubling of the code.  (A JavaScript number doubles exactly as long
    as it stays finite; the statements that range over every budget
    keep the delays within the safe integers.) *)
Fixpoint withRetry (operation : World -> completion T * World)
         (retries : nat) (delay : Z) (w : World)
  : completion T * World * list RetryEvent :=
  match operation w with
  | (Normal t, w') => (Normal t, w', [Called])
  | (Abrupt error, w') =>
      match isQuotaError error with
      | None =>
          (Abrupt (newError (lit "error.message.includes is not a function")), w', [Called])
      | Some quota =>
          match quota, retries with
          | true, S retries' =>
              let '(r, w'', events) := withRetry operation retries' (delay * 2) w' in
              (r, w'', Called :: Slept delay :: events)
          | _, _ => (Abrupt error, w', [Called])
          end
      end
  end.

End Retry.

Arguments withRetry {World T} operation retries delay w.

(* ================================================================== *)
(** * The JSON extractor (extractJSON, lines 45-74) *)
(* ================================================================== *)

(** [s.indexOf(c)] for a one-character search string *)
Fixpoint indexOf (c : N) (s : jsstring) : Z :=
  match s with
  | [] => -1
  | x :: s' =>
      if (x =? c)%N then 0
      else let i := indexOf c s' in if (i =? -1)%Z then -1 else i + 1
  end%Z.

(** [s.lastIndexOf(c)] *)
Fixpoint lastIndexOf (c : N) (s : jsstring) : Z :=
  match s with
  | [] => -1
  | x :: s' =>
      let i := lastIndexOf c s' in
      if (i =? -1)%Z then (if (x =? c)%N then 0 else -1) else i + 1
  end%Z.

(** [s.substring(a, b)] for [0 <= a <= b] *)
Definition substring (a b : Z) (s : jsstring) : jsstring :=
  firstn (Z.to_nat (b - a)) (skipn (Z.to_nat a) s).

(** [s.replace(/p/g, '')] for a pattern that matches exactly [len]
    characters, decided at a position by [isMatch]: matches are found
    left to right and do not overlap.  [skip] counts the characters of
    the current match that are still to be dropped. *)
Fixpoint removeMatches (isMatch : jsstring -> bool) (len skip : nat) (s : jsstring)
  : jsstring :=
  match s with
  | [] => []
  | c :: s' =>
      match skip with
      | S k => removeMatches isMatch len k s'
      | O => if isMatch s then removeMatches isMatch len (len - 1) s'
             else c :: removeMatches isMatch len 0 s'
      end
  end.

(** Equality of a character with an ASCII letter under the [i] flag. *)
Definition eqIgnoreCase (x letter : N) : bool :=
  ((x =? letter) || (x =? letter - 32))%N.

(** The pattern [/```json/i] at the head of [s]. *)
Definition fenceJsonAt (s : jsstring) : bool :=
  match s with
  | b1 :: b2 :: b3 :: j :: s' :: o :: n :: _ =>
      (b1 =? 96)%N && (b2 =? 96)%N && (b3 =? 96)%N
      && eqIgnoreCase j 106 && eqIgnoreCase s' 115
      && eqIgnoreCase o 111 && eqIgnoreCase n 110
  | _ => false
  end.

(** The pattern [/```/] at the head of [s]. *)
Definition fenceAt (s : jsstring) : bool := startsWith s (lit "```").

(** [s.replace(/[\u0000-\u001F]+/g, "")] *)
Definition stripControl (s : jsstring) : jsstring :=
  filter (fun c => negb (c <=? 31)%N) s.

Definition openBrace : N := 123.
Definition closeBrace : N := 125.

Section ExtractJSON.

(** [JSON.parse]; [None] stands for a [SyntaxError]. *)
Variable JSON_parse : jsstring -> option Value.

Definition extractJSON (text : jsstring) : completion Value :=
  if negb (truthy (VStr text)) then Normal VNull
  else
    let jsonString := trim text in
    let jsonString := removeMatches fenceAt 3 0 (removeMatches fenceJsonAt 7 0 jsonString) in
    let firstOpen := indexOf openBrace jsonString in
    let lastClose := lastIndexOf closeBrace jsonString in
    if negb (firstOpen =? -1)%Z && negb (lastClose =? -1)%Z && (firstOpen <? lastClose)%Z
    then
      let jsonString := substring firstOpen (lastClose + 1) jsonString in
      match JSON_parse jsonString with
      | Some v => Normal v
      | None =>
          match JSON_parse (stripControl jsonString) with
          | Some v => Normal v
          | None => Abrupt (newError (lit "Model returned invalid JSON format."))
          end
      end
    else Abrupt (newError (lit "No JSON object found in response.")).

End ExtractJSON.

(* ================================================================== *)
(** * The typed scenario *)
(* ================================================================== *)

(** Modelled from the spec: the declarations of [types.ts]
    ([HistoricalScenario], [Character], [DialogueLine], [Source]) are
    not part of the sources at hand; the records follow the data model
    of the specification.  An optional field is [None] when absent or
    [undefined]. *)
Record Source : Type := mkSource {
  title : jsstring;
  uri : jsstring
}.

Record Character : Type := mkCharacter {
  name : jsstring;
  gender : jsstring;
  voice : jsstring;
  visualDescription : option jsstring;
  bio : option jsstring;
  avatarUrl : option jsstring
}.

Record DialogueLine : Type := mkDialogueLine {
  speaker : jsstring;
  text : jsstring;
  translation : jsstring;
  annotations : list (jsstring * jsstring)
}.

Record HistoricalScenario : Type := mkScenario {
  context : jsstring;
  accentProfile : jsstring;
  characters : list Character;
  script : list DialogueLine;
  sources : list Source
}.

(* ================================================================== *)
(** * Audio synthesis (generateDialogueAudio, lines 342-462) *)
(* ================================================================== *)

Definition star : N := 42.

(** [s.replace(/\*[^*]+\*/g, '')].  [pending = Some run] when an
    asterisk has been read and followed by the characters [run]
    (latest first), none of them an asterisk: they are dropped if an
    asterisk closes the run and kept otherwise. *)
Fixpoint stripActions (pending : option jsstring) (s : jsstring) : jsstring :=
  match s with
  | [] =>
      match pending with
      | None => []
      | Some run => star :: rev run
      end
  | c :: s' =>
      match pending with
      | None =>
          if (c =? star)%N then stripActions (Some []) s'
          else c :: stripActions None s'
      | Some run =>
          if (c =? star)%N then
            match run with
            | [] => star :: stripActions (Some []) s'
            | _ :: _ => stripActions None s'
            end
          else stripActions (Some (c :: run)) s'
      end
  end.

(** [safeNames[index] || `Speaker ${String.fromCharCode(65 + index)}`] *)
Definition safeNameOf (index : nat) : jsstring :=
  match index with
  | 0%nat => lit "Speaker A"
  | 1%nat => lit "Speaker B"
  | _ => lit "Speaker " ++ [N.of_nat (65 + index)]
  end.

(** The [Map] from display names to safe names built by the first
    [forEach]. *)
Fixpoint charToSafeNameFrom (index : nat) (chars : list Character)
         (m : list (jsstring * jsstring)) : list (jsstring * jsstring) :=
  match chars with
  | [] => m
  | char :: rest => charToSafeNameFrom (S index) rest (ownSet m (name char) (safeNameOf index))
  end.

Fixpoint speakerVoiceConfigsFrom (index : nat) (chars : list Character)
  : list (jsstring * jsstring) :=
  match chars with
  | [] => []
  | char :: rest => (safeNameOf index, voice char) :: speakerVoiceConfigsFrom (S index) rest
  end.

(** The transcript built by the [forEach] over the script. *)
Definition renderDialogue (charToSafeName : list (jsstring * jsstring))
           (useTranslation : bool) (lines : list DialogueLine) : jsstring :=
  fold_left
    (fun dialogueText line =>
       let safeName :=
         match ownGet charToSafeName (speaker line) with
         | Some n => if truthy (VStr n) then n else safeNameOf 0
         | None => safeNameOf 0
         end in
       let textContent := if useTranslation then translation line else text line in
       let cleanText := trim (stripActions None textContent) in
       if truthy (VStr cleanText)
       then dialogueText ++ safeName ++ lit ": " ++ cleanText ++ [10%N]
       else dialogueText)
    lines [].

(** The part of the speech response the code looks at:
    [candidates?.[0]?.content?.parts] with, for each part,
    [inlineData?.data], and [candidates?.[0]?.finishReason]. *)
Record SpeechResponse : Type := mkSpeechResponse {
  parts : option (list (option jsstring));
  finishReason : option jsstring
}.

(** The first part that carries non-empty inline data. *)
Fixpoint firstInlineData (ps : list (option jsstring)) : option jsstring :=
  match ps with
  | [] => None
  | Some d :: rest => if truthy (VStr d) then Some d else firstInlineData rest
  | None :: rest => firstInlineData rest
  end.

Section Audio.

Variable World : Type.
Variable AudioBuffer : Type.

(** The speech service: [ai.models.generateContent] with the transcript
    and the voice configuration. *)
Variable speechService :
  jsstring -> list (jsstring * jsstring) -> World -> completion SpeechResponse * World.

(** The decoder collaborator: the audio context, [decodeBase64] and
    [decodeAudioData(bytes, context, 24000, 1)]. *)
Variable decodeAudio : jsstring -> World -> completion AudioBuffer * World.

Definition performGeneration (scenario : HistoricalScenario) (useTranslation : bool)
           (w : World) : completion AudioBuffer * World :=
  let charToSafeName := charToSafeNameFrom 0 (characters scenario) [] in
  let speakerVoiceConfigs := speakerVoiceConfigsFrom 0 (characters scenario) in
  let dialogueText := renderDialogue charToSafeName useTranslation (script scenario) in
  if negb (truthy (VStr (trim dialogueText)))
  then (Abrupt (newError (lit "Dialogue text is empty.")), w)
  else
    match withRetry (speechService dialogueText speakerVoiceConfigs)
                    MAX_RETRIES INITIAL_DELAY_MS w with
    | (Abrupt e, w', _) => (Abrupt e, w')
    | (Normal response, w', _) =>
        let base64Audio :=
          match parts response with
          | Some ps => firstInlineData ps
          | None => None
          end in
        match base64Audio with
        | None =>
            match finishReason response with
            | Some reason =>
                if str_eqb reason (lit "SAFETY")
                then (Abrupt (newError (lit "Audio generation was blocked by safety filters.")), w')
                else (Abrupt (newError
                        (lit "No audio data returned from the model (Finish Reason: "
                         ++ (if truthy (VStr reason) then reason else lit "UNKNOWN")
                         ++ lit ").")), w')
            | None =>
                (Abrupt (newError
                   (lit "No audio data returned from the model (Finish Reason: UNKNOWN).")), w')
            end
        | Some data => decodeAudio data w'
        end
    end.

(** [generateDialogueAudio]; the last component lists the
    [useTranslation] argument of every call of [performGeneration]. *)
Definition generateDialogueAudio (scenario : HistoricalScenario) (w : World)
  : completion AudioBuffer * World * list bool :=
  match performGeneration scenario false w with
  | (Normal buffer, w1) => (Normal buffer, w1, [false])
  | (Abrupt _, w1) =>
      match performGeneration scenario true w1 with
      | (Normal buffer, w2) => (Normal buffer, w2, [false; true])
      | (Abrupt fallbackError, w2) =>
          match messageOf fallbackError with
          | Returns message =>
              (Abrupt (newError (lit "Audio generation failed: " ++ message)), w2,
               [false; true])
          | Throws _ =>
              (Abrupt (newError (lit "Cannot convert object to primitive value")), w2,
               [false; true])
          end
      end
  end.

End Audio.

Arguments performGeneration {World AudioBuffer} speechService decodeAudio scenario useTranslation w.
Arguments generateDialogueAudio {World AudioBuffer} speechService decodeAudio scenario w.

(* ================================================================== *)
(** * Avatars (generateCharacterAvatar, lines 464-499; handleSubmit) *)
(* ================================================================== *)

(** A part of the image response: [None] without [inlineData],
    [Some data] with it, [data] being [None] when [inlineData.data] is
    undefined. *)
Definition ImagePart := option (option jsstring).

Fixpoint firstImage (ps : list ImagePart) : option jsstring :=
  match ps with
  | [] => None
  | Some data :: _ =>
      Some (lit "data:image/png;base64,"
            ++ match data with Some d => d | None => lit "undefined" end)
  | None :: rest => firstImage rest
  end.

Definition avatarPrompt (description context : jsstring) : jsstring :=
  lit "Generate a photorealistic, historically accurate headshot portrait of a person matching this description: "
  ++ [34%N] ++ description ++ [34%N] ++ lit "."
  ++ [10%N] ++ lit "    Context for clothing and style: " ++ context ++ lit "."
  ++ [10%N] ++ lit "    The image should be a close-up character portrait with neutral or subtle expression."
  ++ [10%N] ++ lit "    High quality, authentic details.".

Section Avatars.

Variable World : Type.

(** The image service: [ai.models.generateContent] with the prompt;
    the result is [candidates?.[0]?.content?.parts || []]. *)
Variable imageService : jsstring -> World -> completion (list ImagePart) * World.

(** [generateCharacterAvatar]: [None] is [null]. *)
Definition generateCharacterAvatar (description context : jsstring) (w : World)
  : option jsstring * World :=
  match withRetry (imageService (avatarPrompt description context)) 2 INITIAL_DELAY_MS w with
  | (Normal ps, w', _) => (firstImage ps, w')
  | (Abrupt _, w', _) => (None, w')
  end.

(** The callback of [scenarioData.characters.map]: the updated
    character, the world, and the avatar request it issued, if any.
    [Promise.all] starts the callbacks in the order of the array; the
    model runs them one after the other in that order, the world
    standing for the state of the image service. *)
Definition updateCharacter (context : jsstring) (char : Character) (w : World)
  : Character * World * list (jsstring * jsstring) :=
  match visualDescription char with
  | Some description =>
      if truthy (VStr description) then
        let '(url, w') := generateCharacterAvatar description context w in
        ({| name := name char; gender := gender char; voice := voice char;
            visualDescription := visualDescription char; bio := bio char;
            avatarUrl := match url with
                         | Some u => if truthy (VStr u) then Some u else None
                         | None => None
                         end |},
         w', [(description, context)])
      else (char, w, [])
  | None => (char, w, [])
  end.

Fixpoint updateCharacters (context : jsstring) (chars : list Character) (w : World)
  : list Character * World * list (jsstring * jsstring) :=
  match chars with
  | [] => ([], w, [])
  | char :: rest =>
      let '(char', w1, req1) := updateCharacter context char w in
      let '(rest', w2, req2) := updateCharacters context rest w1 in
      (char' :: rest', w2, req1 ++ req2)
  end.

(** The [imagesPromise] of [handleSubmit]: the merged scenario, the
    world, and the avatar requests issued, in order. *)
Definition imagesStage (generateImages : bool) (scenarioData : HistoricalScenario)
           (w : World) : HistoricalScenario * World * list (jsstring * jsstring) :=
  if negb generateImages then (scenarioData, w, [])
  else
    let '(updatedChars, w', requests) :=
      updateCharacters (context scenarioData) (characters scenarioData) w in
    ({| context := context scenarioData; accentProfile := accentProfile scenarioData;
        characters := updatedChars; script := script scenarioData;
        sources := sources scenarioData |}, w', requests).

End Avatars.

Arguments generateCharacterAvatar {World} imageService description context w.
Arguments updateCharacter {World} imageService context char w.
Arguments updateCharacters {World} imageService context chars w.
Arguments imagesStage {World} imageService generateImages scenarioData w.

(* ================================================================== *)
(** * The research request (researchLocationAndDate, lines 76-191 and 319-339) *)
(* ================================================================== *)

(** The prompt of the research call (lines 77-140), with the location
    and the date in their places. *)
Definition researchPrompt (location date : jsstring) : jsstring :=
  List.concat
    [ [10%N];
      lit "    You are an expert historical researcher."; [10%N];
      lit "    TASK: Research the historical context and atmosphere at this location: "; [34%N]; location; [34%N]; lit " on the date "; date; lit "."; [10%N];
      lit "    "; [10%N];
      lit "    STEP 1: MANDATORY RESEARCH"; [10%N];
      lit "    You MUST use the Google Search tool to find verified historical details for this specific date and location."; [10%N];
      lit "    Search for:"; [10%N];
      lit "    - Specific historical events happening in this region around "; date; lit "."; [10%N];
      lit "    - Authentic local customs, clothing, and trade items of the era."; [10%N];
      lit "    - Sensory details (sights, sounds, smells) specific to this place and time."; [10%N];
      lit "    "; [10%N];
      lit "    STEP 2: CREATE SCENARIO"; [10%N];
      lit "    Based on your research, create a plausible, immersive historical fiction scenario."; [10%N];
      lit "    **DO NOT REFUSE TO ANSWER** due to lack of specific historical records. If exact details are missing, extrapolate based on general historical knowledge of the era found via search."; [10%N];
      [10%N];
      lit "    Then, write a short, naturalistic dialogue (approx 6-8 lines total) between two fictional characters present at that spot and time."; [10%N];
      lit "    The conversation should feel like a 'verite' snapshot"; [8212%N]; lit "overheard, authentic, and grounded in the sensory details of that specific moment."; [10%N];
      [10%N];
      lit "    CRITICAL INSTRUCTION: Write the dialogue in the NATIVE LANGUAGE appropriate for that specific location and time period (e.g., French for Paris, Old English for 1000AD London, Japanese for Kyoto)."; [10%N];
      lit "    "; [10%N];
      lit "    Write an English translation for each line of dialogue."; [10%N];
      [10%N];
      lit "    Determine the appropriate accent or dialect description for these characters."; [10%N];
      [10%N];
      lit "    If the dialogue uses specific historical terms, slang, or references that might be obscure to a modern listener, provide brief annotations explaining them."; [10%N];
      [10%N];
      lit "    Assign each character a gender ('male' or 'female') and a voice persona from the following lists:"; [10%N];
      lit "    - Male Voices: ['Puck', 'Fenrir', 'Charon', 'Zephyr']"; [10%N];
      lit "    - Female Voices: ['Kore', 'Aoede']"; [10%N];
      lit "    "; [10%N];
      lit "    IMPORTANT: Ensure the voice matches the character's gender. Ensure the two characters have DISTINCT voices."; [10%N];
      [10%N];
      lit "    Output strictly valid JSON (do not use markdown code blocks) with this structure:"; [10%N];
      lit "    {"; [10%N];
      lit "      "; [34%N]; lit "context"; [34%N]; lit ": "; [34%N]; lit "A evocative description of the setting, time of day, and historical atmosphere."; [34%N]; lit ","; [10%N];
      lit "      "; [34%N]; lit "accentProfile"; [34%N]; lit ": "; [34%N]; lit "Description of the accent/dialect for the audio model."; [34%N]; lit ","; [10%N];
      lit "      "; [34%N]; lit "characters"; [34%N]; lit ": ["; [10%N];
      lit "        {"; [10%N];
      lit "          "; [34%N]; lit "name"; [34%N]; lit ": "; [34%N]; lit "Character Name"; [34%N]; lit ", "; [10%N];
      lit "          "; [34%N]; lit "gender"; [34%N]; lit ": "; [34%N]; lit "male"; [34%N]; lit ","; [10%N];
      lit "          "; [34%N]; lit "voice"; [34%N]; lit ": "; [34%N]; lit "VoiceName"; [34%N]; lit ","; [10%N];
      lit "          "; [34%N]; lit "visualDescription"; [34%N]; lit ": "; [34%N]; lit "A detailed visual description of the character's appearance, age, and period-appropriate clothing for generating a portrait."; [34%N]; lit ","; [10%N];
      lit "          "; [34%N]; lit "bio"; [34%N]; lit ": "; [34%N]; lit "A brief but compelling backstory, role, and personality description. Do NOT describe their visual appearance here."; [34%N]; [10%N];
      lit "        },"; [10%N];
      lit "        {"; [10%N];
      lit "          "; [34%N]; lit "name"; [34%N]; lit ": "; [34%N]; lit "Character Name"; [34%N]; lit ","; [10%N];
      lit "          "; [34%N]; lit "gender"; [34%N]; lit ": "; [34%N]; lit "female"; [34%N]; lit ", "; [10%N];
      lit "          "; [34%N]; lit "voice"; [34%N]; lit ": "; [34%N]; lit "VoiceName"; [34%N]; lit ","; [10%N];
      lit "          "; [34%N]; lit "visualDescription"; [34%N]; lit ": "; [34%N]; lit "A detailed visual description..."; [34%N]; lit ","; [10%N];
      lit "          "; [34%N]; lit "bio"; [34%N]; lit ": "; [34%N]; lit "A brief but compelling backstory..."; [34%N]; [10%N];
      lit "        }"; [10%N];
      lit "      ],"; [10%N];
      lit "      "; [34%N]; lit "script"; [34%N]; lit ": ["; [10%N];
      lit "        {"; [10%N];
      lit "          "; [34%N]; lit "speaker"; [34%N]; lit ": "; [34%N]; lit "Character Name"; [34%N]; lit ", "; [10%N];
      lit "          "; [34%N]; lit "text"; [34%N]; lit ": "; [34%N]; lit "The line of dialogue in the NATIVE LANGUAGE."; [34%N]; lit ","; [10%N];
      lit "          "; [34%N]; lit "translation"; [34%N]; lit ": "; [34%N]; lit "The English translation of this line."; [34%N]; lit ","; [10%N];
      lit "          "; [34%N]; lit "annotations"; [34%N]; lit ": ["; [10%N];
      lit "            { "; [34%N]; lit "phrase"; [34%N]; lit ": "; [34%N]; lit "specific term in native text"; [34%N]; lit ", "; [34%N]; lit "explanation"; [34%N]; lit ": "; [34%N]; lit "Brief historical context or definition."; [34%N]; lit " }"; [10%N];
      lit "          ]"; [10%N];
      lit "        }"; [10%N];
      lit "      ]"; [10%N];
      lit "    }"; [10%N];
      lit "  " ].

(** A grounding chunk as the code looks at it: [chunk.web?.uri] and
    [chunk.web.title], [None] when absent. *)
Record GroundingChunk : Type := mkGroundingChunk {
  webUri : option jsstring;
  webTitle : option jsstring
}.

(** The part of the research response the code looks at:
    [candidates?.[0]?.finishReason], the [text] getter, and
    [candidates?.[0]?.groundingMetadata?.groundingChunks || []]. *)
Record ResearchResponse : Type := mkResearchResponse {
  researchFinishReason : option jsstring;
  responseText : option jsstring;
  groundingChunks : list GroundingChunk
}.

(** [{ title, uri }] as a value. *)
Definition sourceValue (s : Source) : Value :=
  VObj [(lit "title", VStr (title s)); (lit "uri", VStr (uri s))].

(** The own enumerable properties copied by [{...v}]: those of an
    object, and the elements of an array under their indices followed by
    its named properties.  The normaliser returns objects and arrays
    only. *)
Definition spread (v : Value) : list (jsstring * Value) :=
  match v with
  | VObj props => props
  | VArr elems props => combine (map ofNat (seq 0 (List.length elems))) elems ++ props
  | _ => []
  end.

(** [message.includes('429') || message.includes('quota') ||
    message.includes('RESOURCE_EXHAUSTED')]; [None] when the call of
    [includes] throws. *)
Definition quotaMessage (message : Value) : option bool :=
  match messageIncludes message (lit "429") with
  | Some true => Some true
  | Some false =>
      match messageIncludes message (lit "quota") with
      | Some true => Some true
      | Some false => messageIncludes message (lit "RESOURCE_EXHAUSTED")
      | None => None
      end
  | None => None
  end.

Section Research.

Variable World : Type.

Variable toLowerCase : jsstring -> jsstring.

(** [JSON.parse]; [None] stands for a [SyntaxError]. *)
Variable JSON_parse : jsstring -> option Value.

(** [new URL(uri).hostname]; the constructor throws on a string that is
    not a URL. *)
Variable hostname : jsstring -> completion jsstring.

(** The message the engine gives a [TypeError]. *)
Variable typeErrorMessage : TypeError -> jsstring.

(** The research service: [ai.models.generateContent] with the prompt,
    the search tool and the safety settings. *)
Variable researchService : jsstring -> World -> completion ResearchResponse * World.

(** [chunk.web.title || new URL(uri).hostname] *)
Definition chunkTitle (chunk : GroundingChunk) (uri : jsstring) : completion jsstring :=
  match webTitle chunk with
  | Some t => if truthy (VStr t) then Normal t else hostname uri
  | None => hostname uri
  end.

(** The [forEach] over the grounding chunks: [sourcesMap] is the [Map]
    from URI to source, in insertion order.  The title is computed
    before the map is consulted. *)
Fixpoint collectSources (chunks : list GroundingChunk) (sourcesMap : list (jsstring * Source))
  : completion (list (jsstring * Source)) :=
  match chunks with
  | [] => Normal sourcesMap
  | chunk :: rest =>
      match webUri chunk with
      | Some uri =>
          if truthy (VStr uri) then
            match chunkTitle chunk uri with
            | Normal title =>
                collectSources rest
                  (if hasOwn sourcesMap uri then sourcesMap
                   else ownSet sourcesMap uri {| title := title; uri := uri |})
            | Abrupt e => Abrupt e
            end
          else collectSources rest sourcesMap
      | None => collectSources rest sourcesMap
      end
  end.

(** The [try] block after the service call (lines 158-323). *)
Definition researchBody (rng : Rng) (response : ResearchResponse) : completion Value :=
  if match researchFinishReason response with
     | Some reason => str_eqb reason (lit "SAFETY")
     | None => false
     end
  then Abrupt (newError (lit "The request was blocked by safety filters. Please try a different location or topic."))
  else
    match collectSources (groundingChunks response) [] with
    | Abrupt e => Abrupt e
    | Normal sourcesMap =>
        let sources := map snd sourcesMap in
        match (match responseText response with
               | Some text => extractJSON JSON_parse text
               | None => Normal VNull
               end) with
        | Abrupt e => Abrupt e
        | Normal data =>
            if negb (truthy data)
            then Abrupt (newError (lit "Empty response from model."))
            else
              match normalize toLowerCase rng data with
              | Throws e => Abrupt (newError (typeErrorMessage e))
              | Returns data =>
                  Normal (VObj (ownSet (spread data) (lit "sources")
                                       (VArr (map sourceValue sources) [])))
              end
        end
    end.

(** The [catch] clause (lines 325-339): the error it throws. *)
Definition researchFailure (error : Thrown) : Thrown :=
  match (match error with
         | ErrorObject _ => Returns (errorField error (lit "message"))
         | NonError v => s <- toStr v ;; Returns (VStr s)
         end) with
  | Throws _ => newError (lit "Cannot convert object to primitive value")
  | Returns message =>
      match quotaMessage message with
      | Some true =>
          newError (lit "The system is currently busy (Quota Exceeded). Please try again in a moment.")
      | Some false =>
          match toStr message with
          | Returns s => newError (lit "Research failed: " ++ s)
          | Throws _ => newError (lit "Cannot convert object to primitive value")
          end
      | None =>
          match message with
          | VUndefined | VNull => newError (typeErrorMessage (ReadOfNullish (lit "includes")))
          | _ => newError (lit "message.includes is not a function")
          end
      end
  end.

(** [researchLocationAndDate]: the scenario or the error, the world,
    and the trace of the service calls. *)
Definition researchLocationAndDate (location date : jsstring) (rng : Rng) (w : World)
  : completion Value * World * list RetryEvent :=
  match withRetry (researchService (researchPrompt location date))
                  MAX_RETRIES INITIAL_DELAY_MS w with
  | (Normal response, w', events) =>
      (match researchBody rng response with
       | Normal scenario => Normal scenario
       | Abrupt e => Abrupt (researchFailure e)
       end, w', events)
  | (Abrupt e, w', events) => (Abrupt (researchFailure e), w', events)
  end.

End Research.

Arguments researchLocationAndDate {World} toLowerCase JSON_parse hostname typeErrorMessage
  researchService location date rng w.

(* ================================================================== *)
(** * The submit handler (App.tsx, handleSubmit, lines 45-90) *)
(* ================================================================== *)

Inductive LoadingStep : Type :=
| idle
| researching
| generating_media.

Section Submit.

(** The states of the three services, which are independent of each
    other: the research service, the speech service with the audio
    decoder, and the image service. *)
Variables ResearchWorld SpeechWorld ImageWorld : Type.
Variable AudioBuffer : Type.

(** The state of the component the handler writes ([useState]). *)
Record AppState : Type := mkAppState {
  loadingStep : LoadingStep;
  scenario : option HistoricalScenario;
  audioBuffer : option AudioBuffer;
  error : option Value
}.

(** [researchLocationAndDate], through its declared type: the promise
    of a [HistoricalScenario]. *)
Variable research :
  jsstring -> jsstring -> ResearchWorld -> completion HistoricalScenario * ResearchWorld.

Variable speechService :
  jsstring -> list (jsstring * jsstring) -> SpeechWorld -> completion SpeechResponse * SpeechWorld.
Variable decodeAudio : jsstring -> SpeechWorld -> completion AudioBuffer * SpeechWorld.
Variable imageService : jsstring -> ImageWorld -> completion (list ImagePart) * ImageWorld.

(** [err.message] in the [catch] clause of the handler; reading it
    throws when the thrown value is [null] or [undefined]. *)
Definition errMessage (err : Thrown) : outcome Value :=
  match err with
  | ErrorObject _ => Returns (errorField err (lit "message"))
  | NonError v => getField v (lit "message")
  end.

(** The [catch] clause: the state it leaves, or [None] when it throws
    before any setter is called. *)
Definition handleError (st : AppState) (err : Thrown) : option AppState :=
  match errMessage err with
  | Returns message =>
      Some {| loadingStep := idle;
              scenario := scenario st;
              audioBuffer := audioBuffer st;
              error := Some (if truthy message then message
                             else VStr (lit "An unexpected error occurred.")) |}
  | Throws _ => None
  end.

(** [handleSubmit]: the successive states of the component, one for
    each uninterrupted run of setters, and the services afterwards.
    The audio and the avatars are started together and awaited with
    [Promise.all]; the avatar stage never rejects, so the first
    rejection is that of the audio, while the avatar requests run to
    their end in either case. *)
Definition handleSubmit (location date : jsstring) (generateImages : bool)
           (w : ResearchWorld * SpeechWorld * ImageWorld)
  : list AppState * (ResearchWorld * SpeechWorld * ImageWorld) :=
  let '(wr, ws, wi) := w in
  let submitted :=
    {| loadingStep := researching; scenario := None; audioBuffer := None; error := None |} in
  match research location date wr with
  | (Normal scenarioData, wr') =>
      let started :=
        {| loadingStep := generating_media; scenario := scenario submitted;
           audioBuffer := audioBuffer submitted; error := error submitted |} in
      let '(audio, ws', _) := generateDialogueAudio speechService decodeAudio scenarioData ws in
      let '(scenarioWithImages, wi', _) :=
        imagesStage imageService generateImages scenarioData wi in
      match audio with
      | Normal buffer =>
          ([submitted; started;
            {| loadingStep := idle; scenario := Some scenarioWithImages;
               audioBuffer := Some buffer; error := error started |}],
           (wr', ws', wi'))
      | Abrupt err =>
          (submitted :: started
             :: match handleError started err with Some st => [st] | None => [] end,
           (wr', ws', wi'))
      end
  | (Abrupt err, wr') =>
      (submitted :: match handleError submitted err with Some st => [st] | None => [] end,
       (wr', ws, wi))
  end.

End Submit.

Arguments mkAppState {AudioBuffer} loadingStep scenario audioBuffer error.
Arguments loadingStep {AudioBuffer} a.
Arguments scenario {AudioBuffer} a.
Arguments audioBuffer {AudioBuffer} a.
Arguments error {AudioBuffer} a.
Arguments handleError {AudioBuffer} st err.
Arguments handleSubmit {ResearchWorld SpeechWorld ImageWorld AudioBuffer} research speechService
  decodeAudio imageService location date generateImages w.

(* ================================================================== *)
(** * Vocabulary of the statements *)
(* ================================================================== *)

(** Objects proper: the values whose properties can be assigned. *)
Definition isObject (v : Value) : bool :=
  match v with
  | VObj _ | VArr _ _ => true
  | _ => false
  end.

(** The own property [k] of [v], [undefined] when there is none. *)
Definition field (v : Value) (k : jsstring) : Value :=
  match v with
  | VObj props | VArr _ props =>
      match ownGet props k with
      | Some x => x
      | None => VUndefined
      end
  | _ => VUndefined
  end.

(** The object [v] after [v.k = x]. *)
Definition update (v : Value) (k : jsstring) (x : Value) : Value :=
  match v with
  | VObj props => VObj (ownSet props k x)
  | VArr elems props => VArr elems (ownSet props k x)
  | _ => v
  end.

(** [String(v)] does not throw. *)
Definition convertible (v : Value) : bool :=
  match toStr v with
  | Returns _ => true
  | Throws _ => false
  end.

(** The entries of [data.characters] and [data.script] the normaliser
    works on (none when the field is not an array). *)
Definition rawCharacters (data : Value) : list Value :=
  firstn 2 (elements (field data (lit "characters"))).

Definition rawScript (data : Value) : list Value :=
  elements (field data (lit "script")).

(** The speaker string the counting loop computes for [line]. *)
Definition rawSpeakerOf (line : Value) : jsstring :=
  match prepareLine line with
  | Returns (_, s) => s
  | Throws _ => []
  end.

(** The name a character entry has after trimming. *)
Definition trimmedNameOf (c : Value) : jsstring :=
  match toStr (field c (lit "name")) with
  | Returns s => trim s
  | Throws _ => []
  end.

(** The payloads on which no step of the normaliser throws: [data] is an
    object, the character entries that are kept and all the lines are
    objects (arrays included), and the names and the non-empty speakers
    convert to strings. *)
Definition wfCharacter (c : Value) : bool :=
  isObject c && convertible (field c (lit "name")).

Definition wfLine (line : Value) : bool :=
  isObject line &&
  (let sp := field line (lit "speaker") in
   if truthy sp then convertible sp else true).

Definition wfPayload (data : Value) : bool :=
  isObject data && forallb wfCharacter (rawCharacters data) && forallb wfLine (rawScript data).

Definition isVoiceOf (g v : jsstring) : bool :=
  (str_eqb g (lit "male") && existsb (str_eqb v) maleVoices)
  || (str_eqb g (lit "female") && existsb (str_eqb v) femaleVoices).

(** A character as the normaliser leaves it: an object with a string
    name, gender [male] or [female] and a voice of that gender's list. *)
Definition validCharacter (c : Value) : bool :=
  isObject c &&
  match field c (lit "name"), field c (lit "gender"), field c (lit "voice") with
  | VStr _, VStr g, VStr v => isVoiceOf g v
  | _, _, _ => false
  end.

(** The shape the normaliser establishes: exactly two valid
    characters and a script that is an array of objects. *)
Definition validScenario (out : Value) : bool :=
  match field out (lit "characters"), field out (lit "script") with
  | VArr [c1; c2] _, VArr lines _ =>
      validCharacter c1 && validCharacter c2 && forallb isObject lines
  | _, _ => false
  end.

(** The name of the [i]-th character of a scenario. *)
Definition characterName (out : Value) (i : nat) : Value :=
  field (nth i (elements (field out (lit "characters"))) VUndefined) (lit "name").

(** [s] fuzzy-matches neither name. *)
Definition unmatched (toLowerCase : jsstring -> jsstring) (n1 n2 s : jsstring) : bool :=
  negb (fuzzyMatch toLowerCase s n1) && negb (fuzzyMatch toLowerCase s n2).

(** A string with no opening brace before a closing brace. *)
Fixpoint noBracePair (seenOpen : bool) (s : jsstring) : bool :=
  match s with
  | [] => true
  | c :: s' =>
      if (c =? closeBrace)%N then negb seenOpen && noBracePair seenOpen s'
      else noBracePair (seenOpen || (c =? openBrace)%N) s'
  end.

(** The voice list of gender [g], as [getValidVoice] selects it. *)
Definition voicesOf (g : Value) : list jsstring :=
  if strictEq g (VStr (lit "female")) then femaleVoices else maleVoices.

(** The two characters as the normaliser leaves them, with their names
    and voices. *)
Definition normalCharacter (c : Value) (n v : jsstring) : Prop :=
  isObject c = true
  /\ field c (lit "name") = VStr n
  /\ (field c (lit "gender") = VStr (lit "male")
      \/ field c (lit "gender") = VStr (lit "female"))
  /\ field c (lit "voice") = VStr v
  /\ In v (voicesOf (field c (lit "gender"))).

(** The value the final loop assigns to the speaker of a line whose
    speaker string is [s]. *)
Definition rewrittenSpeaker (speakerMap : list (jsstring * jsstring)) (n1 s : jsstring)
  : Value :=
  if truthy (recordGet speakerMap s) then recordGet speakerMap s else VStr n1.

(** The speaker map the normaliser builds for the raw lines [lines] of
    a script and the names [n1], [n2]. *)
Definition speakerMapOf (toLowerCase : jsstring -> jsstring) (n1 n2 : jsstring)
           (lines : list Value) : list (jsstring * jsstring) :=
  buildSpeakerMap toLowerCase n1 n2 (fold_left countSpeaker (map rawSpeakerOf lines) []).

(** The characters the normaliser processes: the first two entries,
    padded. *)
Definition paddedCharacters (data : Value) : list Value :=
  firstn 2 (padCharacters 2 (elements (field data (lit "characters")))).

(** [data] after [if (!data.k || !Array.isArray(data.k)) data.k = []]. *)
Definition ensured (data : Value) (k : jsstring) : Value :=
  if isArray (field data k) then data else update data k (VArr [] []).

(** The object the normaliser returns when its two stages produce the
    characters [char1], [char2] and the lines [lines]. *)
Definition assemble (data char1 char2 : Value) (lines : list Value) : Value :=
  let d1 := ensured data (lit "characters") in
  let d2 := update d1 (lit "characters") (VArr (paddedCharacters data) []) in
  let d3 := ensured d2 (lit "script") in
  let d4 := update d3 (lit "characters") (VArr [char1; char2] []) in
  update d4 (lit "script")
         (match field d3 (lit "script") with
          | VArr _ props => VArr lines props
          | _ => VArr lines []
          end).

(** The name the fuzzy-matching loop maps a matched speaker to. *)
Definition matchedName (toLowerCase : jsstring -> jsstring) (n1 n2 s : jsstring) : jsstring :=
  if fuzzyMatch toLowerCase s n1 then n1 else n2.

(** The character has a non-empty visual description. *)
Definition hasDescription (char : Character) : bool :=
  match visualDescription char with
  | Some d => truthy (VStr d)
  | None => false
  end.

(** [t] is obtained from [s] by deleting characters. *)
Inductive subseq : jsstring -> jsstring -> Prop :=
| subseq_nil : subseq [] []
| subseq_skip c t s : subseq t s -> subseq t (c :: s)
| subseq_keep c t s : subseq t s -> subseq (c :: t) (c :: s).

(** The number of lines whose speaker string is [k]. *)
Definition occurrences (k : jsstring) (ks : list jsstring) : N :=
  N.of_nat (List.length (filter (str_eqb k) ks)).

(** ** Concrete inputs *)

(** Notation for concrete payloads. *)
Definition str (s : string) : Value := VStr (lit s).

Definition object (fields : list (string * Value)) : Value :=
  VObj (map (fun kv => (lit (fst kv), snd kv)) fields).

Definition array (elems : list Value) : Value := VArr elems [].

(** Every draw of [Math.random()] is 0. *)
Definition zeroRng : Rng := fun _ => 0%N.

(** A payload as the research model is asked to produce it: two
    characters, the second with padded name and a voice of the wrong
    gender, and three lines. *)
Definition samplePayload : Value :=
  object
    [("context", str "The forum at dawn.");
     ("characters",
      array [object [("name", str "Ana"); ("gender", str "female"); ("voice", str "Kore")];
             object [("name", str " Luis "); ("gender", str "male"); ("voice", str "Kore")]]);
     ("script",
      array [object [("speaker", str "Ana"); ("text", str "Salve.")];
             object [("speaker", str "Luis"); ("text", str "Salve, Ana.")];
             object [("speaker", str "Ana"); ("text", str "Vale.")]])]%string.

(** Its normal form. *)
Definition sampleScenario : Value :=
  object
    [("context", str "The forum at dawn.");
     ("characters",
      array [object [("name", str "Ana"); ("gender", str "female"); ("voice", str "Kore")];
             object [("name", str "Luis"); ("gender", str "male"); ("voice", str "Puck")]]);
     ("script",
      array [object [("speaker", str "Ana"); ("text", str "Salve.")];
             object [("speaker", str "Luis"); ("text", str "Salve, Ana.")];
             object [("speaker", str "Ana"); ("text", str "Vale.")]])]%string.

(** A payload with a [null] character entry. *)
Definition nullCharacterPayload : Value :=
  object [("characters", array [VNull; VNull])]%string.

(** A payload with a single character whose name is empty. *)
Definition emptyNamePayload : Value :=
  object [("characters", array [object [("name", str "")]])]%string.

(** A payload whose two characters have blank names. *)
Definition blankNamesPayload : Value :=
  object [("characters", array [object [("name", str "")]; object [("name", str " ")]])]%string.

(** Two named characters and a script whose speakers match neither
    name, one of them being called [constructor]. *)
Definition constructorPayload : Value :=
  object
    [("characters",
      array [object [("name", str "Ana"); ("gender", str "female"); ("voice", str "Kore")];
             object [("name", str "Luis"); ("gender", str "male"); ("voice", str "Puck")]]);
     ("script",
      array [object [("speaker", str "constructor"); ("text", str "Ave.")];
             object [("speaker", str "Bob"); ("text", str "Ave atque vale.")]])]%string.



(** A speech service that only speaks English: it returns audio for a
    transcript that mentions [Hello] and nothing otherwise. *)
Definition englishOnlySpeech (transcript : jsstring) (configs : list (jsstring * jsstring))
           (calls : nat) : completion SpeechResponse * nat :=
  if includes transcript (lit "Hello")
  then (Normal {| parts := Some [Some (lit "UklGRg==")]; finishReason := Some (lit "STOP") |},
        S calls)
  else (Normal {| parts := None; finishReason := Some (lit "OTHER") |}, S calls).

(** A speech service that returns no audio at all. *)
Definition muteSpeech (transcript : jsstring) (configs : list (jsstring * jsstring))
           (calls : nat) : completion SpeechResponse * nat :=
  (Normal {| parts := None; finishReason := Some (lit "OTHER") |}, S calls).

(** A decoder that returns the payload it is given. *)
Definition identityDecoder (data : jsstring) (calls : nat) : completion jsstring * nat :=
  (Normal data, calls).

Definition ana : Character :=
  {| name := lit "Ana"; gender := lit "female"; voice := lit "Kore";
     visualDescription := Some (lit "A weaver in a blue stola."); bio := None;
     avatarUrl := None |}.

Definition luis : Character :=
  {| name := lit "Luis"; gender := lit "male"; voice := lit "Puck";
     visualDescription := Some []; bio := None; avatarUrl := None |}.

Definition forumScenario : HistoricalScenario :=
  {| context := lit "The forum at dawn."; accentProfile := lit "Latin";
     characters := [ana; luis];
     script := [ {| speaker := lit "Ana"; text := lit "Salve. *ridet*";
                    translation := lit "Hello. *laughs*"; annotations := [] |};
                 {| speaker := lit "Luis"; text := lit "Salve, Ana.";
                    translation := lit "Hello, Ana."; annotations := [] |} ];
     sources := [] |}.

(** An image service that always returns one inline image. *)
Definition oneImage (prompt : jsstring) (calls : nat) : completion (list ImagePart) * nat :=
  (Normal [Some (Some (lit "iVBORw0KGgo="))], S calls).

(* ================================================================== *)
(** * Further vocabulary *)
(* ================================================================== *)

(** ** Traces of the retry executor *)

(** The first [n] delays of the doubling schedule that starts at
    [delay]: [delay], [2 * delay], [4 * delay], ... *)
Definition backoff (delay : Z) (n : nat) : list Z :=
  map (fun i => (delay * 2 ^ Z.of_nat i)%Z) (seq 0 n).

(** The trace of a run with [k] retries: a call, then, for each delay
    of the schedule in turn, a sleep of that length followed by a
    call. *)
Definition retryTrace (delay : Z) (k : nat) : list RetryEvent :=
  Called :: flat_map (fun d => [Slept d; Called]) (backoff delay k).

(** The world in which call number [n] (counted from 0) of the
    operation is made, when the first call is made in [w]. *)
Fixpoint afterCalls {World T : Type} (operation : World -> completion T * World)
         (n : nat) (w : World) : World :=
  match n with
  | O => w
  | S n' => afterCalls operation n' (snd (operation w))
  end.

(** The delays on which the model is the code: the initial delay is a
    non-negative integer and the last delay of the budget is still a
    safe integer of JavaScript. *)
Definition exactDelays (delay : Z) (retries : nat) : Prop :=
  (0 <= delay)%Z /\ (delay * 2 ^ Z.of_nat retries <= 2 ^ 53)%Z.

(** An operation that is rate-limited on every call. *)
Definition quotaAlways (calls : nat) : completion nat * nat :=
  (Abrupt (newError (lit "RESOURCE_EXHAUSTED")), S calls).


(** ** The transcript *)

(** The text a line contributes to the transcript: [textContent]
    without its actions, trimmed. *)
Definition cleanLine (useTranslation : bool) (line : DialogueLine) : jsstring :=
  trim (stripActions None (if useTranslation then translation line else text line)).

Definition starFree (s : jsstring) : Prop := Forall (fun c => c <> star) s.

(** A scenario whose only line is a stage direction in both languages. *)
Definition silentScenario : HistoricalScenario :=
  {| context := lit "The forum at dawn."; accentProfile := lit "Latin";
     characters := [ana; luis];
     script := [ {| speaker := lit "Ana"; text := lit " *ridet* ";
                    translation := lit "*laughs*"; annotations := [] |} ];
     sources := [] |}.

(** A character that shares its name with [ana] and speaks with another
    voice. *)
Definition anaTwin : Character :=
  {| name := lit "Ana"; gender := lit "female"; voice := lit "Zephyr";
     visualDescription := None; bio := None; avatarUrl := Some (lit "old.png") |}.

(** ** Avatars *)

(** What the avatar stage leaves alone in a character: everything but
    [avatarUrl]. *)
Definition sameIdentity (c c' : Character) : Prop :=
  name c' = name c /\ gender c' = gender c /\ voice c' = voice c
  /\ visualDescription c' = visualDescription c /\ bio c' = bio c.

Definition isDataUrl (u : jsstring) : Prop :=
  exists data, u = lit "data:image/png;base64," ++ data.

(** An image service that is always rate-limited. *)
Definition noImage (prompt : jsstring) (calls : nat) : completion (list ImagePart) * nat :=
  (Abrupt (newError (lit "429 Too Many Requests")), S calls).

(** ** Text around a JSON object *)

Definition backtick : N := 96.

(** No character of [s] is [c]. *)
Definition without (c : N) (s : jsstring) : Prop := Forall (fun x => x <> c) s.

(** What [extractJSON] does with the candidate between the braces. *)
Definition parseCandidate (JSON_parse : jsstring -> option Value) (candidate : jsstring)
  : completion Value :=
  match JSON_parse candidate with
  | Some v => Normal v
  | None =>
      match JSON_parse (stripControl candidate) with
      | Some v => Normal v
      | None => Abrupt (newError (lit "Model returned invalid JSON format."))
      end
  end.

(** A parser that knows one document: the empty object. *)
Definition emptyObjectParser (s : jsstring) : option Value :=
  if str_eqb s (lit "{}") then Some (VObj []) else None.

(** ** What the normaliser keeps *)

(** The gender the sanitising loop leaves: [male] unless it already is
    [male] or [female]. *)
Definition normalGender (g : Value) : Value :=
  if negb (strictEq g (VStr (lit "male"))) && negb (strictEq g (VStr (lit "female")))
  then VStr (lit "male")
  else g.

(** The fields of a character the normaliser may write. *)
Definition characterKey (k : jsstring) : Prop :=
  k = lit "name" \/ k = lit "gender" \/ k = lit "voice".

(** Two characters the second of whose names contains the first, and a
    script spoken by the second. *)
Definition nestedNamesPayload : Value :=
  object
    [("characters",
      array [object [("name", str "Ana"); ("gender", str "female"); ("voice", str "Kore")];
             object [("name", str "Ana Maria"); ("gender", str "female");
                     ("voice", str "Aoede")]]);
     ("script",
      array [object [("speaker", str "Ana Maria"); ("text", str "Salve.")]])]%string.

(** ** Sources *)

(** The chunks that cite the URI [u]. *)
Definition hasUri (u : jsstring) (chunk : GroundingChunk) : bool :=
  match webUri chunk with
  | Some u' => truthy (VStr u') && str_eqb u' u
  | None => false
  end.

(** The URIs the chunks cite, in order, with repetitions. *)
Definition citedUris (chunks : list GroundingChunk) : list jsstring :=
  flat_map (fun chunk => match webUri chunk with
                         | Some u => if truthy (VStr u) then [u] else []
                         | None => []
                         end) chunks.

(** [l] without the strings of [seen] and with the first occurrence
    only of every other string. *)
Fixpoint firstOccurrences (seen l : list jsstring) : list jsstring :=
  match l with
  | [] => []
  | x :: l' =>
      if existsb (str_eqb x) seen then firstOccurrences seen l'
      else x :: firstOccurrences (seen ++ [x]) l'
  end.

Definition busyMessage : jsstring :=
  lit "The system is currently busy (Quota Exceeded). Please try again in a moment.".

(** The three patterns of a quota message. *)
Definition quotaText (m : jsstring) : bool :=
  includes m (lit "429") || includes m (lit "quota") || includes m (lit "RESOURCE_EXHAUSTED").

(** A message function for the concrete runs.  It is not the engine's:
    an engine also quotes the value at fault ([null] or [undefined],
    the primitive written to), which [TypeError] does not record.  The
    statements about the research request hold for every message
    function; the runs below never reach a [TypeError]. *)
Definition sampleMessage (e : TypeError) : jsstring :=
  match e with
  | ReadOfNullish key => lit "TypeError: read of property " ++ key
  | WriteToNonObject key => lit "TypeError: write of property " ++ key
  | NotConvertible => lit "TypeError: no primitive value"
  end.

(** A [hostname] for the concrete runs: the text between [https://] and
    the next slash; any other string is not a URL. *)
Definition httpsHostname (u : jsstring) : completion jsstring :=
  if startsWith u (lit "https://")
  then Normal ((fix upto (s : jsstring) : jsstring :=
                  match s with
                  | [] => []
                  | c :: s' => if (c =? 47)%N then [] else c :: upto s'
                  end) (skipn 8 u))
  else Abrupt (newError (lit "Invalid URL")).

Definition forumChunks : list GroundingChunk :=
  [ {| webUri := Some (lit "https://example.org/forum"); webTitle := Some (lit "The Forum") |};
    {| webUri := None; webTitle := None |};
    {| webUri := Some (lit "https://history.example/rome"); webTitle := None |};
    {| webUri := Some (lit "https://example.org/forum"); webTitle := Some (lit "Again") |} ].

(** A research service that answers with an empty JSON object inside a
    code fence and the chunks above. *)
Definition fencedResearch (prompt : jsstring) (calls : nat)
  : completion ResearchResponse * nat :=
  (Normal {| researchFinishReason := Some (lit "STOP");
             responseText := Some (lit "```json" ++ [10%N] ++ lit "{}" ++ [10%N] ++ lit "```");
             groundingChunks := forumChunks |}, S calls).

(** A research service whose answer is blocked. *)
Definition blockedResearch (prompt : jsstring) (calls : nat)
  : completion ResearchResponse * nat :=
  (Normal {| researchFinishReason := Some (lit "SAFETY"); responseText := None;
             groundingChunks := [] |}, S calls).

(** A research service that is always rate-limited, with status 429 and
    a message outside the quota patterns. *)
Definition throttledResearch (prompt : jsstring) (calls : nat)
  : completion ResearchResponse * nat :=
  (Abrupt (ErrorObject [(lit "status", VNum (lit "429"));
                        (lit "message", VStr (lit "Too Many Requests"))]), S calls).

(** ** The submit handler *)

(** The states in which a submission is over with a result: a
    scenario with its audio and no error. *)
Definition showsResult {AudioBuffer : Type} (st : @AppState AudioBuffer) : Prop :=
  loadingStep st = idle
  /\ (exists s b, scenario st = Some s /\ audioBuffer st = Some b) /\ error st = None.

(** The states in which a submission is over with an error: a truthy
    message, and neither scenario nor audio. *)
Definition showsError {AudioBuffer : Type} (st : @AppState AudioBuffer) : Prop :=
  loadingStep st = idle
  /\ scenario st = None /\ audioBuffer st = None
  /\ exists m, error st = Some m /\ truthy m = true.

(** A research collaborator that returns the sample scenario. *)
Definition forumResearch (location date : jsstring) (calls : nat)
  : completion HistoricalScenario * nat :=
  (Normal forumScenario, S calls).

(** A research collaborator that fails with an [Error] without
    message. *)
Definition silentFailure (location date : jsstring) (calls : nat)
  : completion HistoricalScenario * nat :=
  (Abrupt (ErrorObject []), S calls).

(** ** The retry policy, in the words of the specification *)

(** The quota signature of a failure: status or code 429, or a message
    that is a string containing [429], [quota] or
    [RESOURCE_EXHAUSTED]. *)
Definition quotaPattern (e : Thrown) : bool :=
  strictEq (errorField e (lit "status")) (VNum (lit "429"))
  || strictEq (errorField e (lit "code")) (VNum (lit "429"))
  || match errorField e (lit "message") with
     | VStr m => quotaText m
     | _ => false
     end.

(** The failure has a message that can be searched, or none: its
    [message] is a string, [undefined] or [null]. *)
Definition readableMessage (e : Thrown) : bool :=
  match errorField e (lit "message") with
  | VStr _ | VUndefined | VNull => true
  | _ => false
  end.

(* ================================================================== *)
(** * Properties *)
(* ================================================================== *)

(** ** Strings *)

Lemma str_eqb_refl (a : jsstring) : str_eqb a a = true.
Proof.
  induction a as [|x a IH]; simpl; [reflexivity|].
  now rewrite N.eqb_refl, IH.
Qed.

Lemma str_eqb_eq (a b : jsstring) : str_eqb a b = true <-> a = b.
Proof.
  split.
  - revert b; induction a as [|x a IH]; intros [|y b]; simpl; try discriminate; auto.
    intros H. apply andb_true_iff in H as [Hxy Hab].
    apply N.eqb_eq in Hxy. apply IH in Hab. now subst.
  - intros ->. apply str_eqb_refl.
Qed.

Lemma str_eqb_neq (a b : jsstring) : str_eqb a b = false <-> a <> b.
Proof.
  split.
  - intros H E. apply str_eqb_eq in E. congruence.
  - intros H. destruct (str_eqb a b) eqn:E; [|reflexivity].
    apply str_eqb_eq in E. contradiction.
Qed.

Lemma str_eqb_sym (a b : jsstring) : str_eqb a b = str_eqb b a.
Proof.
  destruct (str_eqb a b) eqn:E.
  - apply str_eqb_eq in E. subst. symmetry. apply str_eqb_refl.
  - symmetry. apply str_eqb_neq. apply str_eqb_neq in E. congruence.
Qed.

Lemma startsWith_nil (s : jsstring) : startsWith s [] = true.
Proof. destruct s; reflexivity. Qed.

Lemma includes_nil (s : jsstring) : includes s [] = true.
Proof. destruct s; reflexivity. Qed.

Lemma startsWith_refl (s : jsstring) : startsWith s s = true.
Proof.
  induction s as [|c s IH]; simpl; [reflexivity|].
  now rewrite N.eqb_refl, IH.
Qed.

Lemma includes_refl (s : jsstring) : includes s s = true.
Proof. destruct s; simpl; [reflexivity|]. now rewrite N.eqb_refl, startsWith_refl. Qed.

Lemma trimStart_headOk (s : jsstring) : headOk (trimStart s) = true.
Proof.
  induction s as [|c s IH]; simpl; [reflexivity|].
  destruct (isWhiteSpace c) eqn:E; [exact IH|]. simpl. now rewrite E.
Qed.

Lemma trimStart_id (s : jsstring) : headOk s = true -> trimStart s = s.
Proof.
  destruct s as [|c s]; simpl; [reflexivity|].
  intros H. apply negb_true_iff in H. now rewrite H.
Qed.

Lemma trimStart_suffix (s : jsstring) : exists p, s = p ++ trimStart s.
Proof.
  induction s as [|c s [p IH]]; simpl.
  - now exists [].
  - destruct (isWhiteSpace c).
    + exists (c :: p). simpl. now f_equal.
    + now exists [].
Qed.

Lemma headOk_rev_trimStart (s : jsstring) :
  headOk (rev s) = true -> headOk (rev (trimStart s)) = true.
Proof.
  induction s as [|c s IH]; simpl; [auto|].
  destruct (isWhiteSpace c) eqn:E; [|auto].
  intros H. apply IH.
  destruct (rev s) as [|d r] eqn:Er; [reflexivity|].
  simpl in *. exact H.
Qed.

Lemma trim_trimmed (s : jsstring) : trimmed (trim s) = true.
Proof.
  unfold trimmed, trim, trimEnd. rewrite rev_involutive.
  rewrite trimStart_headOk, andb_true_r.
  pose proof (trimStart_headOk s) as H.
  rewrite <- (rev_involutive (trimStart s)) in H.
  apply headOk_rev_trimStart in H. exact H.
Qed.

Lemma trim_id (s : jsstring) : trimmed s = true -> trim s = s.
Proof.
  unfold trimmed, trim, trimEnd. intros H.
  apply andb_true_iff in H as [H1 H2].
  rewrite (trimStart_id s H1), (trimStart_id (rev s) H2).
  apply rev_involutive.
Qed.

Lemma trim_idempotent (s : jsstring) : trim (trim s) = trim s.
Proof. apply trim_id, trim_trimmed. Qed.

Lemma trimmed_app (s t : jsstring) :
  s <> [] -> t <> [] -> trimmed s = true -> trimmed t = true ->
  trimmed (s ++ t) = true.
Proof.
  unfold trimmed. intros Hs Ht H1 H2.
  apply andb_true_iff in H1 as [H1 _]. apply andb_true_iff in H2 as [_ H2].
  apply andb_true_iff. split.
  - destruct s; [contradiction|exact H1].
  - rewrite rev_app_distr. destruct (rev t) as [|c r] eqn:E.
    + apply (f_equal (@rev N)) in E. rewrite rev_involutive in E. contradiction.
    + exact H2.
Qed.


(** ** The exception monad *)

Lemma bind_Returns {A B : Type} (m : outcome A) (k : A -> outcome B) (b : B) :
  bind m k = Returns b -> exists a, m = Returns a /\ k a = Returns b.
Proof. destruct m as [a|e]; simpl; [eauto | discriminate]. Qed.

(** Splits a hypothesis [x <- m ;; k = Returns b] into its two steps. *)
Ltac inv_bind H :=
  let a := fresh "a" in
  let Ha := fresh "Ha" in
  apply bind_Returns in H; destruct H as [a [Ha H]].

Lemma mapM_Returns_length {A B : Type} (f : A -> outcome B) (l : list A) (l' : list B) :
  mapM f l = Returns l' -> List.length l' = List.length l.
Proof.
  revert l'; induction l as [|x l IH]; simpl; intros l' H.
  - injection H as <-. reflexivity.
  - inv_bind H. inv_bind H. injection H as <-. simpl. f_equal. now apply IH.
Qed.

Lemma mapM_Forall2 {A B : Type} (f : A -> outcome B) (l : list A) (l' : list B) :
  mapM f l = Returns l' <-> Forall2 (fun x y => f x = Returns y) l l'.
Proof.
  split.
  - revert l'; induction l as [|x l IH]; simpl; intros l' H.
    + injection H as <-. constructor.
    + inv_bind H. inv_bind H. injection H as <-. constructor; auto.
  - induction 1 as [|x y l l' Hxy _ IH]; simpl; [reflexivity|].
    now rewrite Hxy, IH.
Qed.

Lemma mapM_total {A B : Type} (f : A -> outcome B) (g : A -> B) (l : list A) :
  Forall (fun x => f x = Returns (g x)) l -> mapM f l = Returns (map g l).
Proof.
  induction 1 as [|x l Hx _ IH]; simpl; [reflexivity|].
  now rewrite Hx, IH.
Qed.

(** ** Own properties *)

Lemma ownGet_ownSet_eq {A : Type} (props : list (jsstring * A)) k x :
  ownGet (ownSet props k x) k = Some x.
Proof.
  induction props as [|[k' v] props IH]; simpl.
  - now rewrite str_eqb_refl.
  - destruct (str_eqb k' k) eqn:E; simpl; rewrite E; auto.
Qed.

Lemma ownGet_ownSet_neq {A : Type} (props : list (jsstring * A)) k k' x :
  k <> k' -> ownGet (ownSet props k x) k' = ownGet props k'.
Proof.
  intros Hne. induction props as [|[k0 v] props IH]; simpl.
  - apply str_eqb_neq in Hne. now rewrite Hne.
  - destruct (str_eqb k0 k) eqn:E; simpl.
    + apply str_eqb_eq in E. subst k0.
      apply str_eqb_neq in Hne. now rewrite Hne.
    + now rewrite IH.
Qed.

Lemma ownSet_same {A : Type} (props : list (jsstring * A)) k x :
  ownGet props k = Some x -> ownSet props k x = props.
Proof.
  induction props as [|[k' v] props IH]; simpl; [discriminate|].
  destruct (str_eqb k' k).
  - now intros [= ->].
  - intros H. now rewrite IH.
Qed.

Lemma ownSet_ownSet {A : Type} (props : list (jsstring * A)) k x y :
  ownSet (ownSet props k x) k y = ownSet props k y.
Proof.
  induction props as [|[k' v] props IH]; simpl.
  - now rewrite str_eqb_refl.
  - destruct (str_eqb k' k) eqn:E; simpl; rewrite E; [reflexivity|now rewrite IH].
Qed.

Lemma ownSet_keys_in {A : Type} (props : list (jsstring * A)) k x k' :
  In k' (map fst (ownSet props k x)) <-> k' = k \/ In k' (map fst props).
Proof.
  induction props as [|[k0 v] props IH]; simpl.
  - intuition.
  - destruct (str_eqb k0 k) eqn:E; simpl.
    + apply str_eqb_eq in E. subst. intuition.
    + rewrite IH. intuition.
Qed.

Lemma ownGet_Some_in {A : Type} (props : list (jsstring * A)) k x :
  ownGet props k = Some x -> In k (map fst props) /\ In x (map snd props).
Proof.
  induction props as [|[k0 v] props IH]; simpl; [discriminate|].
  destruct (str_eqb k0 k) eqn:E.
  - apply str_eqb_eq in E. intros [= ->]. auto.
  - intros H. apply IH in H. intuition.
Qed.

Lemma ownGet_None_iff {A : Type} (props : list (jsstring * A)) k :
  ownGet props k = None <-> ~ In k (map fst props).
Proof.
  induction props as [|[k0 v] props IH]; simpl.
  - intuition.
  - destruct (str_eqb k0 k) eqn:E.
    + apply str_eqb_eq in E. subst. split; [discriminate | intuition].
    + apply str_eqb_neq in E. rewrite IH. intuition.
Qed.

Lemma ownSet_values_in {A : Type} (props : list (jsstring * A)) k x y :
  In y (map snd (ownSet props k x)) -> y = x \/ In y (map snd props).
Proof.
  induction props as [|[k0 v] props IH]; simpl.
  - intuition.
  - destruct (str_eqb k0 k); simpl; intuition.
Qed.

(** ** Reading and writing the fields of an object *)

Lemma getField_object v k : isObject v = true -> getField v k = Returns (field v k).
Proof. destruct v; simpl; try discriminate; intros _; destruct (ownGet _ _); reflexivity. Qed.

Lemma setField_object v k x : isObject v = true -> setField v k x = Returns (update v k x).
Proof. destruct v; simpl; try discriminate; reflexivity. Qed.

Lemma getField_Returns v k x : getField v k = Returns x -> x = field v k.
Proof.
  destruct v; simpl; try discriminate; try (now intros [= <-]);
    destruct (ownGet _ _); now intros [= <-].
Qed.

Lemma setField_Returns v k x v' :
  setField v k x = Returns v' -> isObject v = true /\ v' = update v k x.
Proof. destruct v; simpl; try discriminate; intros [= <-]; auto. Qed.

Lemma isObject_update v k x : isObject (update v k x) = isObject v.
Proof. destruct v; reflexivity. Qed.

Lemma field_update_eq v k x : isObject v = true -> field (update v k x) k = x.
Proof. destruct v; simpl; try discriminate; intros _; now rewrite ownGet_ownSet_eq. Qed.

Lemma field_update_neq v k k' x : k <> k' -> field (update v k x) k' = field v k'.
Proof. intros H. destruct v; simpl; try reflexivity; now rewrite ownGet_ownSet_neq. Qed.

Lemma update_same v k : isObject v = true -> field v k <> VUndefined ->
  update v k (field v k) = v.
Proof.
  destruct v; simpl; try discriminate; intros _ H;
    destruct (ownGet props k) eqn:E; try contradiction;
    now rewrite (ownSet_same _ _ _ E).
Qed.

Lemma update_update v k x y : update (update v k x) k y = update v k y.
Proof. destruct v; simpl; try reflexivity; now rewrite ownSet_ownSet. Qed.

Lemma elements_update v k x : elements (update v k x) = elements v.
Proof. destruct v; reflexivity. Qed.

Ltac key_neq :=
  let H := fresh "Hkey" in
  intro H; vm_compute in H; discriminate H.

Lemma strictEq_VStr_r v s : strictEq v (VStr s) = true <-> v = VStr s.
Proof.
  destruct v; simpl; split; try discriminate; intros H.
  - apply str_eqb_eq in H. now subst.
  - injection H as ->. apply str_eqb_refl.
Qed.

Lemma strictEq_VStr_l v s : strictEq (VStr s) v = true <-> v = VStr s.
Proof.
  destruct v; simpl; split; try discriminate; intros H.
  - apply str_eqb_eq in H. now subst.
  - injection H as ->. apply str_eqb_refl.
Qed.

Lemma existsb_str_eqb_In (x : jsstring) (l : list jsstring) :
  existsb (str_eqb x) l = true <-> In x l.
Proof.
  rewrite existsb_exists. split.
  - intros [y [Hy E]]. apply str_eqb_eq in E. now subst.
  - intros H. exists x. split; [exact H | apply str_eqb_refl].
Qed.

(** ** Characters *)

Lemma sanitizeCharacter_inv c c' :
  sanitizeCharacter c = Returns c' ->
  isObject c = true /\ isObject c' = true /\
  exists s, toStr (field c (lit "name")) = Returns s /\
    field c' (lit "name") = VStr (trim s) /\
    (field c' (lit "gender") = VStr (lit "male") \/
     field c' (lit "gender") = VStr (lit "female")) /\
    field c' (lit "voice") = field c (lit "voice").
Proof.
  unfold sanitizeCharacter. intros H.
  inv_bind H. apply getField_Returns in Ha. subst a.
  inv_bind H. rename a into s.
  inv_bind H. apply setField_Returns in Ha0 as [Hobj ->].
  inv_bind H. apply getField_Returns in Ha0. subst a.
  set (c1 := update c (lit "name") (VStr (trim s))) in *.
  assert (Hobj1 : isObject c1 = true) by (unfold c1; now rewrite isObject_update).
  assert (Hname1 : field c1 (lit "name") = VStr (trim s))
    by (unfold c1; now apply field_update_eq).
  assert (Hvoice1 : field c1 (lit "voice") = field c (lit "voice"))
    by (unfold c1; apply field_update_neq; key_neq).
  destruct (strictEq (field c1 (lit "gender")) (VStr (lit "male"))) eqn:Em; simpl in H.
  - injection H as <-. apply strictEq_VStr_r in Em.
    repeat split; auto. exists s. auto.
  - destruct (strictEq (field c1 (lit "gender")) (VStr (lit "female"))) eqn:Ef; simpl in H.
    + injection H as <-. apply strictEq_VStr_r in Ef.
      repeat split; auto. exists s. auto.
    + apply setField_Returns in H as [_ ->].
      repeat split; auto.
      * now rewrite isObject_update.
      * exists s. split; [exact Ha|].
        split; [rewrite field_update_neq by key_neq; exact Hname1|].
        split; [left; now apply field_update_eq|].
        rewrite field_update_neq by key_neq. exact Hvoice1.
Qed.

Lemma sanitizeCharacter_total c :
  wfCharacter c = true -> exists c', sanitizeCharacter c = Returns c'.
Proof.
  unfold wfCharacter, convertible, sanitizeCharacter. intros H.
  apply andb_true_iff in H as [Hobj Hconv].
  rewrite (getField_object _ _ Hobj). simpl.
  destruct (toStr (field c (lit "name"))) as [s|] eqn:Es; [|discriminate]. simpl.
  rewrite (setField_object _ _ _ Hobj). simpl.
  set (c1 := update c (lit "name") (VStr (trim s))).
  assert (Hobj1 : isObject c1 = true) by (unfold c1; now rewrite isObject_update).
  rewrite (getField_object _ _ Hobj1). simpl.
  destruct (_ && _); [rewrite (setField_object _ _ _ Hobj1)|]; eauto.
Qed.

(** A character already in normal form is left as it is. *)
Lemma sanitizeCharacter_fixed c n :
  isObject c = true -> field c (lit "name") = VStr n -> trimmed n = true ->
  (field c (lit "gender") = VStr (lit "male") \/
   field c (lit "gender") = VStr (lit "female")) ->
  sanitizeCharacter c = Returns c.
Proof.
  intros Hobj Hname Htrim Hg. unfold sanitizeCharacter.
  rewrite (getField_object _ _ Hobj), Hname. simpl.
  rewrite (trim_id _ Htrim), (setField_object _ _ _ Hobj). simpl.
  assert (E : update c (lit "name") (VStr n) = c).
  { rewrite <- Hname. apply update_same; [exact Hobj | rewrite Hname; discriminate]. }
  rewrite E, (getField_object _ _ Hobj). simpl.
  destruct Hg as [-> | ->]; reflexivity.
Qed.

Lemma suffix_1_2 (a : jsstring) : a ++ lit " (1)" <> a ++ lit " (2)".
Proof. intros H. apply app_inv_head in H. vm_compute in H. discriminate H. Qed.

Lemma distinctNames_spec c1 c2 a b :
  isObject c1 = true -> isObject c2 = true ->
  field c1 (lit "name") = VStr a -> field c2 (lit "name") = VStr b ->
  exists a' b',
    distinctNames c1 c2
    = Returns (update c1 (lit "name") (VStr a'), update c2 (lit "name") (VStr b'))
    /\ a' <> b'
    /\ (a <> b -> a' = a /\ b' = b)
    /\ (a = b -> a' = a ++ lit " (1)" /\ b' = b ++ lit " (2)").
Proof.
  intros H1 H2 Ha Hb. unfold distinctNames.
  rewrite (getField_object _ _ H1), (getField_object _ _ H2), Ha, Hb. simpl.
  destruct (str_eqb a b) eqn:E.
  - apply str_eqb_eq in E. subst b.
    rewrite (setField_object _ _ _ H1), (setField_object _ _ _ H2). simpl.
    exists (a ++ lit " (1)"), (a ++ lit " (2)").
    repeat split; auto using suffix_1_2. congruence. congruence.
  - apply str_eqb_neq in E. exists a, b.
    rewrite <- Ha at 1. rewrite <- Hb at 1.
    rewrite !update_same by (auto; rewrite ?Ha, ?Hb; discriminate).
    repeat split; auto; congruence.
Qed.

(** ** Voices *)

Lemma randomIndex_lt r len : (0 < len)%nat -> (randomIndex r len < len)%nat.
Proof.
  intros Hlen. unfold randomIndex.
  assert (H : ((r mod 2 ^ 53) * N.of_nat len / 2 ^ 53 < N.of_nat len)%N).
  { apply N.Div0.div_lt_upper_bound.
    apply N.mul_lt_mono_pos_r; [lia|].
    apply N.mod_lt. discriminate. }
  lia.
Qed.

Lemma nthValue_lt (l : list jsstring) (i : nat) :
  (i < List.length l)%nat -> exists s, nthValue l i = VStr s /\ In s l.
Proof.
  intros H. unfold nthValue.
  destruct (nth_error l i) as [s|] eqn:E.
  - exists s. split; [reflexivity | eapply nth_error_In; eauto].
  - apply nth_error_None in E. lia.
Qed.

Lemma available_nonempty g taken :
  (0 <? List.length (filter (fun x => negb (strictEq (VStr x) taken)) (voicesOf g)))%nat = true.
Proof.
  unfold voicesOf.
  destruct (strictEq g (VStr (lit "female")));
    [change femaleVoices with [lit "Kore"; lit "Aoede"]
    |change maleVoices with [lit "Puck"; lit "Fenrir"; lit "Charon"; lit "Zephyr"]];
    cbn [filter];
    match goal with
    | |- context [strictEq (VStr ?a) taken] =>
        destruct (strictEq (VStr a) taken) eqn:E1; cbn [negb]; [|reflexivity];
        apply strictEq_VStr_l in E1; subst taken
    end; reflexivity.
Qed.

Lemma getValidVoice_spec char taken rng :
  isObject char = true ->
  exists v rng',
    getValidVoice char taken rng = Returns (VStr v, rng')
    /\ In v (voicesOf (field char (lit "gender")))
    /\ strictEq (VStr v) taken = false
    /\ (forall v0, field char (lit "voice") = VStr v0 ->
          In v0 (voicesOf (field char (lit "gender"))) ->
          strictEq (VStr v0) taken = false -> v = v0 /\ rng' = rng).
Proof.
  intros Hobj. unfold getValidVoice.
  rewrite !(getField_object _ _ Hobj). cbn [bind].
  fold (voicesOf (field char (lit "gender"))).
  set (vl := voicesOf (field char (lit "gender"))).
  destruct (voiceListIncludes vl (field char (lit "voice"))
            && negb (strictEq (field char (lit "voice")) taken)) eqn:Ekeep.
  - apply andb_true_iff in Ekeep as [Hin Hne].
    unfold voiceListIncludes in Hin. apply existsb_exists in Hin as [x [Hx Ex]].
    apply strictEq_VStr_l in Ex. apply negb_true_iff in Hne.
    exists x, rng. rewrite Ex in *. repeat split; auto. congruence.
  - pose proof (available_nonempty (field char (lit "gender")) taken) as Hav.
    fold vl in Hav. rewrite Hav.
    apply Nat.ltb_lt in Hav.
    destruct (nthValue_lt _ _ (randomIndex_lt (rng 0%nat) _ Hav)) as [s [Hs Hin]].
    rewrite Hs. apply filter_In in Hin as [Hin Hne]. apply negb_true_iff in Hne.
    exists s, (nextRng rng).
    split; [reflexivity|]. split; [exact Hin|]. split; [exact Hne|].
    intros v0 Hv0 Hin0 Hne0. exfalso.
    rewrite Hv0 in Ekeep. apply andb_false_iff in Ekeep as [E|E].
    + unfold voiceListIncludes in E.
      assert (existsb (fun x => strictEq (VStr x) (VStr v0)) vl = true).
      { apply existsb_exists. exists v0. split; [exact Hin0|]. simpl. apply str_eqb_refl. }
      congruence.
    + apply negb_false_iff in E. congruence.
Qed.

Lemma wfCharacter_trimmedName c :
  wfCharacter c = true ->
  isObject c = true /\ exists s, toStr (field c (lit "name")) = Returns s /\ trimmedNameOf c = trim s.
Proof.
  unfold wfCharacter, convertible, trimmedNameOf. intros H.
  apply andb_true_iff in H as [Hobj H].
  destruct (toStr (field c (lit "name"))) as [s|]; [eauto | discriminate].
Qed.

Lemma normalizeCharacters_spec rng a b :
  wfCharacter a = true -> wfCharacter b = true ->
  exists char1 char2 n1 n2 v1 v2,
    normalizeCharacters rng [a; b] = Returns (char1, char2)
    /\ normalCharacter char1 n1 v1 /\ normalCharacter char2 n2 v2
    /\ n1 <> n2 /\ v1 <> v2
    /\ (trimmedNameOf a <> trimmedNameOf b ->
        n1 = trimmedNameOf a /\ n2 = trimmedNameOf b)
    /\ (trimmedNameOf a = trimmedNameOf b ->
        n1 = trimmedNameOf a ++ lit " (1)" /\ n2 = trimmedNameOf b ++ lit " (2)").
Proof.
  intros Ha Hb.
  destruct (sanitizeCharacter_total _ Ha) as [c1 Hc1].
  destruct (sanitizeCharacter_total _ Hb) as [c2 Hc2].
  destruct (sanitizeCharacter_inv _ _ Hc1) as (_ & Ho1 & s1 & Hs1 & Hn1 & Hg1 & _).
  destruct (sanitizeCharacter_inv _ _ Hc2) as (_ & Ho2 & s2 & Hs2 & Hn2 & Hg2 & _).
  destruct (wfCharacter_trimmedName _ Ha) as (_ & s1' & Hs1' & ->).
  destruct (wfCharacter_trimmedName _ Hb) as (_ & s2' & Hs2' & ->).
  rewrite Hs1 in Hs1'. injection Hs1' as <-.
  rewrite Hs2 in Hs2'. injection Hs2' as <-.
  destruct (distinctNames_spec _ _ _ _ Ho1 Ho2 Hn1 Hn2) as (n1 & n2 & Hd & Hne & Hdiff & Hsame).
  set (d1 := update c1 (lit "name") (VStr n1)) in *.
  set (d2 := update c2 (lit "name") (VStr n2)) in *.
  assert (Hod1 : isObject d1 = true) by (unfold d1; now rewrite isObject_update).
  assert (Hod2 : isObject d2 = true) by (unfold d2; now rewrite isObject_update).
  assert (Hgd1 : field d1 (lit "gender") = field c1 (lit "gender"))
    by (unfold d1; apply field_update_neq; key_neq).
  assert (Hgd2 : field d2 (lit "gender") = field c2 (lit "gender"))
    by (unfold d2; apply field_update_neq; key_neq).
  destruct (getValidVoice_spec _ VUndefined rng Hod1) as (v1 & rng1 & Hv1 & Hin1 & _ & _).
  set (char1 := update d1 (lit "voice") (VStr v1)).
  destruct (getValidVoice_spec _ (VStr v1) rng1 Hod2) as (v2 & rng2 & Hv2 & Hin2 & Hne2 & _).
  set (char2 := update d2 (lit "voice") (VStr v2)).
  exists char1, char2, n1, n2, v1, v2.
  split.
  { unfold normalizeCharacters. simpl mapM. rewrite Hc1, Hc2. cbn [bind].
    rewrite Hd. cbn [bind]. rewrite Hv1. cbn [bind].
    rewrite (setField_object _ _ _ Hod1). cbn [bind]. fold char1.
    assert (Hoc1 : isObject char1 = true) by (unfold char1; now rewrite isObject_update).
    rewrite (getField_object _ _ Hoc1). cbn [bind].
    unfold char1 at 1. rewrite (field_update_eq _ _ _ Hod1).
    rewrite Hv2. cbn [bind].
    rewrite (setField_object _ _ _ Hod2). reflexivity. }
  assert (N1 : normalCharacter char1 n1 v1).
  { unfold normalCharacter, char1.
    rewrite isObject_update, (field_update_eq _ _ _ Hod1).
    rewrite !(field_update_neq d1 (lit "voice") _ (VStr v1)) by key_neq.
    rewrite Hgd1. rewrite Hgd1 in Hin1.
    repeat split; auto. unfold d1. now apply field_update_eq. }
  assert (N2 : normalCharacter char2 n2 v2).
  { unfold normalCharacter, char2.
    rewrite isObject_update, (field_update_eq _ _ _ Hod2).
    rewrite !(field_update_neq d2 (lit "voice") _ (VStr v2)) by key_neq.
    rewrite Hgd2. rewrite Hgd2 in Hin2.
    repeat split; auto. unfold d2. now apply field_update_eq. }
  split; [exact N1|]. split; [exact N2|]. split; [exact Hne|].
  split; [|split; [exact Hdiff | exact Hsame]].
  simpl in Hne2. apply str_eqb_neq in Hne2. congruence.
Qed.

Lemma normalizeCharacters_inv rng chars char1 char2 :
  normalizeCharacters rng chars = Returns (char1, char2) ->
  exists a b, chars = [a; b] /\ wfCharacter a = true /\ wfCharacter b = true.
Proof.
  unfold normalizeCharacters. intros H. inv_bind H. rename a into cs.
  destruct cs as [|c1 [|c2 [|c3 cs]]]; try discriminate.
  apply mapM_Forall2 in Ha.
  inversion Ha as [|a c1' l l' Hx Hrest]; subst.
  inversion Hrest as [|b c2' l2 l2' Hy Hnil]; subst.
  inversion Hnil; subst.
  exists a, b. split; [reflexivity|].
  apply sanitizeCharacter_inv in Hx as (Hoa & _ & sa & Hsa & _).
  apply sanitizeCharacter_inv in Hy as (Hob & _ & sb & Hsb & _).
  unfold wfCharacter, convertible. now rewrite Hoa, Hob, Hsa, Hsb.
Qed.

(** Characters in normal form with trimmed names pass unchanged. *)
Lemma normalizeCharacters_fixed rng char1 char2 n1 n2 v1 v2 :
  normalCharacter char1 n1 v1 -> normalCharacter char2 n2 v2 ->
  n1 <> n2 -> v1 <> v2 -> trimmed n1 = true -> trimmed n2 = true ->
  normalizeCharacters rng [char1; char2] = Returns (char1, char2).
Proof.
  intros (Ho1 & Hn1 & Hg1 & Hv1 & Hin1) (Ho2 & Hn2 & Hg2 & Hv2 & Hin2) Hne Hvne Ht1 Ht2.
  unfold normalizeCharacters. simpl mapM.
  rewrite (sanitizeCharacter_fixed _ _ Ho1 Hn1 Ht1 Hg1).
  rewrite (sanitizeCharacter_fixed _ _ Ho2 Hn2 Ht2 Hg2). cbn [bind].
  destruct (distinctNames_spec _ _ _ _ Ho1 Ho2 Hn1 Hn2) as (a' & b' & Hd & _ & Hdiff & _).
  destruct (Hdiff Hne) as [-> ->].
  rewrite <- Hn1 in Hd at 1. rewrite <- Hn2 in Hd at 1.
  rewrite !update_same in Hd by (auto; rewrite ?Hn1, ?Hn2; discriminate).
  rewrite Hd. cbn [bind].
  destruct (getValidVoice_spec _ VUndefined rng Ho1) as (w1 & rng1 & Hw1 & _ & _ & Hk1).
  destruct (Hk1 v1 Hv1 Hin1 eq_refl) as [-> ->].
  rewrite Hw1. cbn [bind].
  rewrite (setField_object _ _ _ Ho1). cbn [bind].
  assert (E1 : update char1 (lit "voice") (VStr v1) = char1).
  { rewrite <- Hv1. apply update_same; [exact Ho1 | rewrite Hv1; discriminate]. }
  rewrite E1, (getField_object _ _ Ho1), Hv1. cbn [bind].
  destruct (getValidVoice_spec _ (VStr v1) rng Ho2) as (w2 & rng2 & Hw2 & _ & _ & Hk2).
  assert (Hne2 : strictEq (VStr v2) (VStr v1) = false).
  { simpl. apply str_eqb_neq. congruence. }
  destruct (Hk2 v2 Hv2 Hin2 Hne2) as [-> ->].
  rewrite Hw2. cbn [bind].
  rewrite (setField_object _ _ _ Ho2). cbn [bind].
  assert (E2 : update char2 (lit "voice") (VStr v2) = char2).
  { rewrite <- Hv2. apply update_same; [exact Ho2 | rewrite Hv2; discriminate]. }
  now rewrite E2.
Qed.

(** ** The lines of the script *)

Lemma trim_Unknown : trim (lit "Unknown") = lit "Unknown".
Proof. reflexivity. Qed.

Lemma prepareLine_spec line :
  wfLine line = true ->
  prepareLine line
  = Returns (update line (lit "speaker") (VStr (rawSpeakerOf line)), rawSpeakerOf line).
Proof.
  unfold wfLine, convertible. intros H. apply andb_true_iff in H as [Hobj H].
  assert (E : exists s, prepareLine line
                        = Returns (update line (lit "speaker") (VStr s), s)).
  { unfold prepareLine. rewrite (getField_object _ _ Hobj). cbn [bind].
    destruct (truthy (field line (lit "speaker"))) eqn:Et; cbn [bind].
    - rewrite (getField_object _ _ Hobj). cbn [bind].
      destruct (toStr (field line (lit "speaker"))) as [s|]; [|discriminate]. cbn [bind].
      rewrite (setField_object _ _ _ Hobj). cbn [bind]. eauto.
    - rewrite (setField_object _ _ _ Hobj). cbn [bind].
      assert (Ho : isObject (update line (lit "speaker") (VStr (lit "Unknown"))) = true)
        by now rewrite isObject_update.
      rewrite (getField_object _ _ Ho), (field_update_eq _ _ _ Hobj). cbn [bind toStr].
      rewrite (setField_object _ _ _ Ho). cbn [bind].
      rewrite update_update. eauto. }
  destruct E as [s E]. unfold rawSpeakerOf. now rewrite E.
Qed.

Lemma prepareLine_inv line r :
  prepareLine line = Returns r -> wfLine line = true.
Proof.
  unfold prepareLine, wfLine, convertible. intros H.
  inv_bind H. apply getField_Returns in Ha. subst a.
  inv_bind H. rename a into line1.
  destruct (truthy (field line (lit "speaker"))) eqn:Et.
  - injection Ha as <-.
    inv_bind H. apply getField_Returns in Ha. subst a.
    inv_bind H. inv_bind H. apply setField_Returns in Ha0 as [Hobj _].
    now rewrite Hobj, Ha.
  - apply setField_Returns in Ha as [Hobj _]. now rewrite Hobj.
Qed.

Lemma applyLine_spec m n1 line s :
  isObject line = true ->
  applyLine m n1 (update line (lit "speaker") (VStr s), s)
  = Returns (update line (lit "speaker") (rewrittenSpeaker m n1 s)).
Proof.
  intros Hobj. unfold applyLine, rewrittenSpeaker.
  assert (Ho : isObject (update line (lit "speaker") (VStr s)) = true)
    by now rewrite isObject_update.
  destruct (truthy (recordGet m s));
    rewrite (setField_object _ _ _ Ho), update_update; reflexivity.
Qed.

Lemma wfLine_object line : wfLine line = true -> isObject line = true.
Proof. unfold wfLine. intros H. now apply andb_true_iff in H as [H _]. Qed.

Lemma mapM_prepareLine lines :
  forallb wfLine lines = true ->
  mapM prepareLine lines
  = Returns (map (fun line => (update line (lit "speaker") (VStr (rawSpeakerOf line)),
                               rawSpeakerOf line)) lines).
Proof.
  intros H. apply mapM_total. rewrite forallb_forall in H.
  apply Forall_forall. intros line Hin. apply prepareLine_spec. auto.
Qed.

Lemma mapM_prepareLine_inv lines r :
  mapM prepareLine lines = Returns r -> forallb wfLine lines = true.
Proof.
  intros H. apply mapM_Forall2 in H. apply forallb_forall.
  induction H as [|x y l l' Hxy _ IH]; simpl; [intros ? []|].
  intros z [<-|Hz]; [eapply prepareLine_inv; eauto | auto].
Qed.

Lemma normalizeScript_spec toLowerCase char1 char2 n1 n2 lines :
  isObject char1 = true -> isObject char2 = true ->
  field char1 (lit "name") = VStr n1 -> field char2 (lit "name") = VStr n2 ->
  forallb wfLine lines = true ->
  normalizeScript toLowerCase char1 char2 lines
  = Returns (map (fun line =>
                    update line (lit "speaker")
                           (rewrittenSpeaker (speakerMapOf toLowerCase n1 n2 lines) n1
                                             (rawSpeakerOf line)))
                 lines).
Proof.
  intros Ho1 Ho2 Hn1 Hn2 Hwf. unfold normalizeScript.
  rewrite (mapM_prepareLine _ Hwf). cbn [bind].
  rewrite (getField_object _ _ Ho1), (getField_object _ _ Ho2), Hn1, Hn2. cbn [bind toStr].
  rewrite !map_map. cbn [snd].
  fold (speakerMapOf toLowerCase n1 n2 lines).
  set (m := speakerMapOf toLowerCase n1 n2 lines).
  rewrite <- (map_map
    (fun line => (update line (lit "speaker") (VStr (rawSpeakerOf line)), rawSpeakerOf line))
    (fun ls => ls)).
  rewrite map_id.
  match goal with |- mapM ?f (map ?g lines) = _ =>
    assert (E : forall l, forallb wfLine l = true ->
                mapM f (map g l)
                = Returns (map (fun line => update line (lit "speaker")
                                   (rewrittenSpeaker m n1 (rawSpeakerOf line))) l))
  end.
  { induction l as [|x l IH]; cbn [map mapM forallb]; intros Hl; [reflexivity|].
    apply andb_true_iff in Hl as [Hx Hl].
    rewrite (applyLine_spec m n1 x _ (wfLine_object _ Hx)). cbn [bind].
    rewrite (IH Hl). reflexivity. }
  apply E, Hwf.
Qed.

Lemma normalizeScript_inv toLowerCase char1 char2 lines r :
  normalizeScript toLowerCase char1 char2 lines = Returns r ->
  forallb wfLine lines = true.
Proof.
  unfold normalizeScript. intros H. inv_bind H. eapply mapM_prepareLine_inv; eauto.
Qed.

(** ** The stages of [normalize] *)

Lemma truthy_isArray v : isArray v = true -> truthy v = true.
Proof. destruct v; simpl; auto; discriminate. Qed.

Lemma ensureArray_object data k :
  isObject data = true -> ensureArray data k = Returns (ensured data k).
Proof.
  intros Hobj. unfold ensureArray, ensured.
  rewrite (getField_object _ _ Hobj). cbn [bind].
  destruct (isArray (field data k)) eqn:E.
  - now rewrite (truthy_isArray _ E).
  - rewrite orb_true_r. now apply setField_object.
Qed.

Lemma ensureArray_Returns data k d :
  ensureArray data k = Returns d -> isObject data = true.
Proof.
  unfold ensureArray. intros H. inv_bind H.
  destruct data; simpl in *; try discriminate; try reflexivity;
    injection Ha as <-; simpl in H; discriminate.
Qed.

Lemma isObject_ensured data k : isObject (ensured data k) = isObject data.
Proof. unfold ensured. destruct (isArray _); [reflexivity | apply isObject_update]. Qed.

Lemma elements_ensured data k :
  isObject data = true ->
  elements (field (ensured data k) k) = elements (field data k).
Proof.
  intros Hobj. unfold ensured. destruct (isArray (field data k)) eqn:E; [reflexivity|].
  rewrite (field_update_eq _ _ _ Hobj).
  destruct (field data k); simpl in *; try reflexivity; discriminate.
Qed.

Lemma field_ensured_neq data k k' : k <> k' -> field (ensured data k) k' = field data k'.
Proof.
  intros H. unfold ensured. destruct (isArray _); [reflexivity | now apply field_update_neq].
Qed.

Lemma isArray_ensured data k :
  isObject data = true -> isArray (field (ensured data k) k) = true.
Proof.
  intros Hobj. unfold ensured. destruct (isArray (field data k)) eqn:E; [exact E|].
  now rewrite (field_update_eq _ _ _ Hobj).
Qed.

(** On an object, [normalize] is its two stages followed by the
    assembly of the result. *)
Lemma normalize_stages toLowerCase rng data :
  isObject data = true ->
  normalize toLowerCase rng data
  = ('(char1, char2) <- normalizeCharacters rng (paddedCharacters data) ;;
     lines <- normalizeScript toLowerCase char1 char2 (rawScript data) ;;
     Returns (assemble data char1 char2 lines)).
Proof.
  intros Hobj. unfold normalize.
  rewrite (ensureArray_object _ _ Hobj). cbn [bind].
  set (d1 := ensured data (lit "characters")).
  assert (Ho1 : isObject d1 = true) by (unfold d1; now rewrite isObject_ensured).
  rewrite (getField_object _ _ Ho1). cbn [bind].
  assert (Ec : elements (field d1 (lit "characters"))
               = elements (field data (lit "characters")))
    by (unfold d1; now apply elements_ensured).
  rewrite Ec. fold (paddedCharacters data).
  rewrite (setField_object _ _ _ Ho1). cbn [bind].
  set (d2 := update d1 (lit "characters") (VArr (paddedCharacters data) [])).
  assert (Ho2 : isObject d2 = true) by (unfold d2; now rewrite isObject_update).
  destruct (normalizeCharacters rng (paddedCharacters data)) as [[char1 char2]|e];
    [|reflexivity]. cbn [bind].
  rewrite (ensureArray_object _ _ Ho2). cbn [bind].
  set (d3 := ensured d2 (lit "script")).
  assert (Ho3 : isObject d3 = true) by (unfold d3; now rewrite isObject_ensured).
  rewrite (getField_object _ _ Ho3). cbn [bind].
  assert (Es : elements (field d3 (lit "script")) = rawScript data).
  { unfold d3. rewrite (elements_ensured _ _ Ho2). unfold d2, rawScript.
    rewrite field_update_neq by key_neq. unfold d1.
    now rewrite field_ensured_neq by key_neq. }
  rewrite Es.
  destruct (normalizeScript toLowerCase char1 char2 (rawScript data)) as [lines|e];
    [|reflexivity]. cbn [bind].
  rewrite (setField_object _ _ _ Ho3). cbn [bind].
  rewrite setField_object by now rewrite isObject_update.
  reflexivity.
Qed.

Lemma normalize_Returns_object toLowerCase rng data out :
  normalize toLowerCase rng data = Returns out -> isObject data = true.
Proof.
  unfold normalize. intros H. inv_bind H. eapply ensureArray_Returns; eauto.
Qed.

Lemma assemble_object data char1 char2 lines :
  isObject data = true -> isObject (assemble data char1 char2 lines) = true.
Proof.
  intros H. unfold assemble.
  now rewrite !isObject_update, isObject_ensured, isObject_update, isObject_ensured.
Qed.

Lemma assemble_characters data char1 char2 lines :
  isObject data = true ->
  field (assemble data char1 char2 lines) (lit "characters") = VArr [char1; char2] [].
Proof.
  intros H. unfold assemble.
  rewrite field_update_neq by key_neq.
  apply field_update_eq.
  now rewrite isObject_ensured, isObject_update, isObject_ensured.
Qed.

Lemma assemble_script data char1 char2 lines :
  isObject data = true ->
  exists props,
    field (assemble data char1 char2 lines) (lit "script") = VArr lines props.
Proof.
  intros H. unfold assemble.
  set (d3 := ensured _ (lit "script")).
  assert (Ho3 : isObject d3 = true)
    by (unfold d3; now rewrite isObject_ensured, isObject_update, isObject_ensured).
  rewrite field_update_eq by now rewrite isObject_update.
  destruct (field d3 (lit "script")); eauto.
Qed.

Lemma paddedCharacters_cases data :
  paddedCharacters data
  = match rawCharacters data with
    | [] => [defaultCharacter 1; defaultCharacter 2]
    | [a] => [a; defaultCharacter 2]
    | a :: b :: _ => [a; b]
    end.
Proof.
  unfold paddedCharacters, rawCharacters.
  destruct (elements (field data (lit "characters"))) as [|a [|b l]]; reflexivity.
Qed.

Lemma wfCharacter_default n : wfCharacter (defaultCharacter n) = true.
Proof. reflexivity. Qed.

Lemma paddedCharacters_wf data :
  forallb wfCharacter (rawCharacters data) = true ->
  exists a b, paddedCharacters data = [a; b]
              /\ wfCharacter a = true /\ wfCharacter b = true.
Proof.
  rewrite paddedCharacters_cases. intros H.
  destruct (rawCharacters data) as [|a [|b l]]; cbn [forallb] in H.
  - eauto using wfCharacter_default.
  - apply andb_true_iff in H as [Ha _]. eauto using wfCharacter_default.
  - apply andb_true_iff in H as [Ha H]. apply andb_true_iff in H as [Hb _]. eauto.
Qed.

Section NormalizerProperties.

Variable toLowerCase : jsstring -> jsstring.

(** What [normalize] returns on a well-formed payload. *)
Lemma normalize_wf rng data :
  wfPayload data = true ->
  exists a b char1 char2 n1 n2 v1 v2,
    paddedCharacters data = [a; b]
    /\ wfCharacter a = true /\ wfCharacter b = true
    /\ normalizeCharacters rng [a; b] = Returns (char1, char2)
    /\ normalCharacter char1 n1 v1 /\ normalCharacter char2 n2 v2
    /\ n1 <> n2 /\ v1 <> v2
    /\ (trimmedNameOf a <> trimmedNameOf b ->
        n1 = trimmedNameOf a /\ n2 = trimmedNameOf b)
    /\ (trimmedNameOf a = trimmedNameOf b ->
        n1 = trimmedNameOf a ++ lit " (1)" /\ n2 = trimmedNameOf b ++ lit " (2)")
    /\ normalize toLowerCase rng data
       = Returns (assemble data char1 char2
                   (map (fun line =>
                           update line (lit "speaker")
                             (rewrittenSpeaker
                                (speakerMapOf toLowerCase n1 n2 (rawScript data)) n1
                                (rawSpeakerOf line)))
                        (rawScript data))).
Proof.
  unfold wfPayload. intros H.
  apply andb_true_iff in H as [H Hlines]. apply andb_true_iff in H as [Hobj Hchars].
  destruct (paddedCharacters_wf _ Hchars) as (a & b & Hpad & Ha & Hb).
  destruct (normalizeCharacters_spec rng a b Ha Hb)
    as (char1 & char2 & n1 & n2 & v1 & v2 & Hnc & N1 & N2 & Hne & Hvne & Hdiff & Hsame).
  exists a, b, char1, char2, n1, n2, v1, v2.
  repeat (split; [assumption|]).
  rewrite (normalize_stages toLowerCase rng data Hobj), Hpad, Hnc. cbn [bind].
  destruct N1 as (Ho1 & Hn1 & _). destruct N2 as (Ho2 & Hn2 & _).
  rewrite (normalizeScript_spec toLowerCase char1 char2 n1 n2 _ Ho1 Ho2 Hn1 Hn2 Hlines).
  reflexivity.
Qed.

(** Conversely, the normaliser returns on well-formed payloads only. *)
Lemma normalize_Returns_wf rng data out :
  normalize toLowerCase rng data = Returns out -> wfPayload data = true.
Proof.
  intros H. pose proof (normalize_Returns_object _ _ _ _ H) as Hobj.
  rewrite (normalize_stages toLowerCase rng data Hobj) in H.
  inv_bind H. destruct a as [char1 char2].
  inv_bind H. rename a into lines.
  apply normalizeCharacters_inv in Ha as (a & b & Hpad & Hwa & Hwb).
  apply normalizeScript_inv in Ha0.
  unfold wfPayload. rewrite Hobj, Ha0, andb_true_r. cbn [andb].
  rewrite paddedCharacters_cases in Hpad. unfold rawCharacters in *.
  destruct (elements (field data (lit "characters"))) as [|x [|y l]];
    cbn [firstn forallb] in *; [reflexivity| |].
  - injection Hpad as -> _. now rewrite Hwa.
  - injection Hpad as -> ->. now rewrite Hwa, Hwb.
Qed.

Lemma normalCharacter_valid c n v : normalCharacter c n v -> validCharacter c = true.
Proof.
  intros (Ho & Hn & Hg & Hv & Hin). unfold validCharacter, isVoiceOf.
  rewrite Ho, Hn, Hv. cbn [andb].
  destruct Hg as [Hg|Hg]; rewrite Hg in *; unfold voicesOf in Hin.
  - change (strictEq (VStr (lit "male")) (VStr (lit "female"))) with false in Hin.
    rewrite str_eqb_refl. cbn [andb]. apply orb_true_iff. left.
    now apply existsb_str_eqb_In.
  - change (strictEq (VStr (lit "female")) (VStr (lit "female"))) with true in Hin.
    rewrite str_eqb_refl. cbn [andb]. apply orb_true_iff. right.
    now apply existsb_str_eqb_In.
Qed.

(** C1 (amended).  On every payload that is an object whose character
    entries (the first two) and script lines are objects with
    convertible names and speakers, the normalisation stage completes
    without throwing, for every outcome of the random draws, and returns
    a scenario with exactly two valid characters and a script that is an
    array of objects. *)
Theorem normalize_total_on_wellformed rng data :
  wfPayload data = true ->
  exists out, normalize toLowerCase rng data = Returns out /\ validScenario out = true.
Proof.
  intros Hwf.
  destruct (normalize_wf rng data Hwf)
    as (a & b & char1 & char2 & n1 & n2 & v1 & v2 & _ & _ & _ & _ & N1 & N2 & _ & _ & _ & _ & Hn).
  eexists. split; [exact Hn|].
  unfold wfPayload in Hwf.
  apply andb_true_iff in Hwf as [Hwf Hlines]. apply andb_true_iff in Hwf as [Hobj _].
  unfold validScenario.
  rewrite (assemble_characters _ _ _ _ Hobj).
  destruct (assemble_script data char1 char2
              (map (fun line => update line (lit "speaker")
                      (rewrittenSpeaker (speakerMapOf toLowerCase n1 n2 (rawScript data)) n1
                                        (rawSpeakerOf line))) (rawScript data)) Hobj)
    as [props ->].
  rewrite (normalCharacter_valid _ _ _ N1), (normalCharacter_valid _ _ _ N2). cbn [andb].
  rewrite forallb_forall in *. intros l Hl.
  apply in_map_iff in Hl as (line & <- & Hin).
  rewrite isObject_update. apply wfLine_object. auto.
Qed.

End NormalizerProperties.

(** ** Keys of the dictionaries *)

Lemma recordSet_keys_in {A : Type} (m : list (jsstring * A)) k x k' :
  In k' (map fst (recordSet m k x))
  <-> (k' = k /\ k <> lit "__proto__") \/ In k' (map fst m).
Proof.
  unfold recordSet. destruct (str_eqb k (lit "__proto__")) eqn:E.
  - apply str_eqb_eq in E. intuition.
  - apply str_eqb_neq in E. rewrite ownSet_keys_in. intuition.
Qed.

Lemma countSpeaker_keys_in ks : forall counts k,
  In k (map fst (fold_left countSpeaker ks counts))
  <-> In k (map fst counts) \/ (In k ks /\ k <> lit "__proto__").
Proof.
  induction ks as [|s ks IH]; intros counts k; cbn [fold_left].
  - simpl. intuition.
  - rewrite IH. unfold countSpeaker. rewrite recordSet_keys_in. simpl.
    intuition; subst; intuition.
Qed.

Lemma insertIndex_in x y l : In y (insertIndex x l) <-> y = x \/ In y l.
Proof.
  induction l as [|z l IH]; simpl; [intuition|].
  destruct (fst z <? fst x)%N; simpl; [rewrite IH|]; intuition.
Qed.

Lemma sortIndex_in y l : In y (fold_right insertIndex [] l) <-> In y l.
Proof.
  induction l as [|x l IH]; simpl; [reflexivity|].
  rewrite insertIndex_in, IH. intuition.
Qed.

Lemma objectKeys_in {A : Type} (m : list (jsstring * A)) k :
  In k (objectKeys m) <-> In k (map fst m).
Proof.
  unfold objectKeys. rewrite in_app_iff, in_map_iff, filter_In. split.
  - intros [[[n k'] [E H]] | [H _]]; [|exact H].
    simpl in E. subst k'. apply sortIndex_in, in_flat_map in H as [k0 [Hk0 H]].
    destruct (arrayIndex k0); simpl in H; [|contradiction].
    destruct H as [[= _ ->]|[]]. exact Hk0.
  - intros H. destruct (arrayIndex k) as [n|] eqn:E; [left|right; auto].
    exists (n, k). split; [reflexivity|].
    apply sortIndex_in, in_flat_map. exists k. split; [exact H|].
    rewrite E. now left.
Qed.

Lemma insertSorted_in {A : Type} (cmp : A -> A -> jsnum) x y l :
  In y (insertSorted cmp x l) <-> y = x \/ In y l.
Proof.
  induction l as [|z l IH]; simpl; [intuition|].
  destruct (positive (cmp x z)); simpl; [rewrite IH|]; intuition.
Qed.

Lemma arraySort_in {A : Type} (cmp : A -> A -> jsnum) y l :
  In y (arraySort cmp l) <-> In y l.
Proof.
  unfold arraySort. induction l as [|x l IH]; simpl; [reflexivity|].
  rewrite insertSorted_in, IH. intuition.
Qed.

(** The script speakers are the speaker strings of the lines,
    [__proto__] excepted. *)
Lemma scriptSpeakers_in ks s :
  In s (scriptSpeakersOf (fold_left countSpeaker ks []))
  <-> In s ks /\ s <> lit "__proto__".
Proof.
  unfold scriptSpeakersOf.
  rewrite arraySort_in, objectKeys_in, countSpeaker_keys_in. simpl. intuition.
Qed.

(** ** The speaker map *)

Section SpeakerMap.

Variable toLowerCase : jsstring -> jsstring.
Variables n1 n2 : jsstring.

Let matched (s : jsstring) : bool :=
  negb (str_eqb s (lit "__proto__"))
  && (fuzzyMatch toLowerCase s n1 || fuzzyMatch toLowerCase s n2).

Lemma matchSpeaker_get m k s :
  ownGet (matchSpeaker toLowerCase n1 n2 m k) s
  = if str_eqb s k && matched s then Some (matchedName toLowerCase n1 n2 s)
    else ownGet m s.
Proof.
  unfold matchSpeaker, matched, matchedName, recordSet.
  destruct (str_eqb s k) eqn:Esk; cbn [andb].
  - apply str_eqb_eq in Esk. subst k.
    destruct (str_eqb s (lit "__proto__")) eqn:Ep; cbn [negb andb].
    + destruct (fuzzyMatch toLowerCase s n1); [reflexivity|].
      destruct (fuzzyMatch toLowerCase s n2); reflexivity.
    + destruct (fuzzyMatch toLowerCase s n1); cbn [orb];
        [apply ownGet_ownSet_eq|].
      destruct (fuzzyMatch toLowerCase s n2); [apply ownGet_ownSet_eq | reflexivity].
  - apply str_eqb_neq in Esk.
    assert (Hks : k <> s) by congruence.
    destruct (str_eqb k (lit "__proto__")).
    + destruct (fuzzyMatch toLowerCase k n1); [reflexivity|].
      destruct (fuzzyMatch toLowerCase k n2); reflexivity.
    + destruct (fuzzyMatch toLowerCase k n1); [now apply ownGet_ownSet_neq|].
      destruct (fuzzyMatch toLowerCase k n2); [now apply ownGet_ownSet_neq | reflexivity].
Qed.

Lemma matchSpeakers_get keys : forall m s,
  ownGet (fold_left (matchSpeaker toLowerCase n1 n2) keys m) s
  = if existsb (str_eqb s) keys && matched s
    then Some (matchedName toLowerCase n1 n2 s)
    else ownGet m s.
Proof.
  induction keys as [|k keys IH]; intros m s; cbn [fold_left existsb].
  - reflexivity.
  - rewrite IH, matchSpeaker_get.
    destruct (existsb (str_eqb s) keys), (str_eqb s k), (matched s); reflexivity.
Qed.

Lemma recordSet_values_in (m : list (jsstring * jsstring)) k x y :
  In y (map snd (recordSet m k x)) -> y = x \/ In y (map snd m).
Proof.
  unfold recordSet. destruct (str_eqb k (lit "__proto__")); [auto|].
  apply ownSet_values_in.
Qed.

Lemma matchSpeakers_values keys : forall m y,
  In y (map snd (fold_left (matchSpeaker toLowerCase n1 n2) keys m)) ->
  y = n1 \/ y = n2 \/ In y (map snd m).
Proof.
  induction keys as [|k keys IH]; intros m y; cbn [fold_left]; [auto|].
  intros H. apply IH in H as [H|[H|H]]; auto.
  unfold matchSpeaker in H.
  destruct (fuzzyMatch toLowerCase k n1);
    [apply recordSet_values_in in H; intuition|].
  destruct (fuzzyMatch toLowerCase k n2);
    [apply recordSet_values_in in H; intuition | auto].
Qed.

Lemma assignRest_values keys : forall (m : list (jsstring * jsstring)) y,
  In y (map snd (fold_left (fun m s => recordSet m s n1) keys m)) ->
  y = n1 \/ In y (map snd m).
Proof.
  induction keys as [|k keys IH]; intros m y; cbn [fold_left]; [auto|].
  intros H. apply IH in H as [H|H]; auto.
  apply recordSet_values_in in H. intuition.
Qed.

Lemma assignIfUnused_values name unmapped st y :
  In y (map snd (fst (assignIfUnused name unmapped st))) ->
  y = name \/ In y (map snd (fst st)).
Proof.
  destruct st as [m i]. unfold assignIfUnused.
  destruct (isCharUsed m name); [auto|].
  destruct (unmappedAt unmapped i); [|auto].
  cbn [fst]. apply recordSet_values_in.
Qed.

(** Every entry of the speaker map is one of the two names. *)
Lemma buildSpeakerMap_values counts y :
  In y (map snd (buildSpeakerMap toLowerCase n1 n2 counts)) -> y = n1 \/ y = n2.
Proof.
  unfold buildSpeakerMap. intros H.
  apply assignRest_values in H as [H|H]; [auto|].
  apply assignIfUnused_values in H as [H|H]; [auto|].
  apply assignIfUnused_values in H as [H|H]; [auto|].
  cbn [fst] in H. apply matchSpeakers_values in H. simpl in H. intuition.
Qed.

(** When every script speaker is matched to a non-empty name, the
    handling of unmapped speakers changes nothing. *)
Lemma buildSpeakerMap_all_matched counts :
  (forall s, In s (scriptSpeakersOf counts) ->
     truthy (recordGet (fold_left (matchSpeaker toLowerCase n1 n2)
                                  (scriptSpeakersOf counts) []) s) = true) ->
  buildSpeakerMap toLowerCase n1 n2 counts
  = fold_left (matchSpeaker toLowerCase n1 n2) (scriptSpeakersOf counts) [].
Proof.
  intros H. unfold buildSpeakerMap.
  set (keys := scriptSpeakersOf counts) in *.
  set (m0 := fold_left (matchSpeaker toLowerCase n1 n2) keys []) in *.
  assert (E : filter (fun s => negb (truthy (recordGet m0 s))) keys = []).
  { clearbody m0. induction keys as [|k keys IH]; [reflexivity|].
    cbn [filter]. rewrite (H k (or_introl eq_refl)). cbn [negb].
    apply IH. intros s Hs. apply H. now right. }
  rewrite E. unfold assignIfUnused, unmappedAt. cbn [nth_error].
  destruct (isCharUsed m0 n1); destruct (isCharUsed m0 n2); reflexivity.
Qed.

End SpeakerMap.

(** ** Scripts whose speakers are the character names *)

Section NamedSpeakers.

Variable toLowerCase : jsstring -> jsstring.
Variables n1 n2 : jsstring.
Hypothesis n1_nonempty : n1 <> [].
Hypothesis n2_nonempty : n2 <> [].
Hypothesis n1_not_proto : n1 <> lit "__proto__".
Hypothesis n2_not_proto : n2 <> lit "__proto__".

Lemma fuzzyMatch_refl s : fuzzyMatch toLowerCase s s = true.
Proof. unfold fuzzyMatch. now rewrite str_eqb_refl. Qed.

Lemma matchedName_cases s :
  matchedName toLowerCase n1 n2 s = n1 \/ matchedName toLowerCase n1 n2 s = n2.
Proof. unfold matchedName. destruct (fuzzyMatch _ _ _); auto. Qed.

Lemma matchedName_idempotent s :
  s = n1 \/ s = n2 ->
  matchedName toLowerCase n1 n2 (matchedName toLowerCase n1 n2 s)
  = matchedName toLowerCase n1 n2 s.
Proof.
  intros Hs. unfold matchedName.
  destruct (fuzzyMatch toLowerCase s n1) eqn:E.
  - now rewrite fuzzyMatch_refl.
  - destruct Hs as [->| ->]; [now rewrite fuzzyMatch_refl in E|].
    now rewrite E.
Qed.

Lemma truthy_name s : s <> [] -> truthy (VStr s) = true.
Proof. intros H. simpl. apply negb_true_iff, str_eqb_neq. exact H. Qed.

(** The speaker map sends each speaker to its matched name. *)
Lemma speakerMap_named ks s :
  (forall x, In x ks -> x = n1 \/ x = n2) ->
  In s ks ->
  recordGet (buildSpeakerMap toLowerCase n1 n2 (fold_left countSpeaker ks [])) s
  = VStr (matchedName toLowerCase n1 n2 s).
Proof.
  intros Hks Hs.
  set (counts := fold_left countSpeaker ks []).
  assert (Hnp : forall x, In x ks -> x <> lit "__proto__")
    by (intros x Hx; destruct (Hks x Hx); congruence).
  assert (Hget : forall x, In x ks ->
            ownGet (fold_left (matchSpeaker toLowerCase n1 n2) (scriptSpeakersOf counts) []) x
            = Some (matchedName toLowerCase n1 n2 x)).
  { intros x Hx. rewrite matchSpeakers_get.
    assert (E1 : existsb (str_eqb x) (scriptSpeakersOf counts) = true).
    { apply existsb_str_eqb_In. apply scriptSpeakers_in. auto. }
    rewrite E1. cbn [andb].
    assert (E2 : str_eqb x (lit "__proto__") = false) by (apply str_eqb_neq; auto).
    rewrite E2. cbn [negb andb].
    destruct (Hks x Hx) as [->| ->]; rewrite fuzzyMatch_refl;
      rewrite ?orb_true_r; reflexivity. }
  rewrite buildSpeakerMap_all_matched.
  - unfold recordGet. now rewrite (Hget s Hs).
  - intros x Hx. apply scriptSpeakers_in in Hx as [Hx _].
    unfold recordGet. rewrite (Hget x Hx). apply truthy_name.
    destruct (matchedName_cases x) as [->| ->]; assumption.
Qed.

Lemma rewrittenSpeaker_named ks s :
  (forall x, In x ks -> x = n1 \/ x = n2) ->
  In s ks ->
  rewrittenSpeaker (buildSpeakerMap toLowerCase n1 n2 (fold_left countSpeaker ks [])) n1 s
  = VStr (matchedName toLowerCase n1 n2 s).
Proof.
  intros Hks Hs. unfold rewrittenSpeaker. rewrite (speakerMap_named ks s Hks Hs).
  rewrite truthy_name; [reflexivity|].
  destruct (matchedName_cases s) as [->| ->]; assumption.
Qed.

End NamedSpeakers.

Lemma rawSpeakerOf_update line o :
  isObject line = true -> o <> [] -> trimmed o = true ->
  rawSpeakerOf (update line (lit "speaker") (VStr o)) = o.
Proof.
  intros Hobj Hne Ht. unfold rawSpeakerOf, prepareLine.
  assert (Ho : isObject (update line (lit "speaker") (VStr o)) = true)
    by now rewrite isObject_update.
  rewrite (getField_object _ _ Ho), (field_update_eq _ _ _ Hobj). cbn [bind].
  rewrite (truthy_name _ Hne). cbn [bind].
  rewrite (getField_object _ _ Ho), (field_update_eq _ _ _ Hobj). cbn [bind toStr].
  rewrite (setField_object _ _ _ Ho). cbn [bind]. apply trim_id, Ht.
Qed.

Lemma wfLine_update line o :
  isObject line = true -> wfLine (update line (lit "speaker") (VStr o)) = true.
Proof.
  intros Hobj. unfold wfLine, convertible.
  rewrite isObject_update, Hobj, (field_update_eq _ _ _ Hobj). cbn [andb toStr].
  destruct (truthy (VStr o)); reflexivity.
Qed.

Lemma assemble_fixed out char1 char2 lines props :
  isObject out = true ->
  field out (lit "characters") = VArr [char1; char2] [] ->
  field out (lit "script") = VArr lines props ->
  assemble out char1 char2 lines = out.
Proof.
  intros Hobj Hc Hs.
  assert (Hpad : paddedCharacters out = [char1; char2])
    by (unfold paddedCharacters; rewrite Hc; reflexivity).
  assert (E1 : ensured out (lit "characters") = out)
    by (unfold ensured; now rewrite Hc).
  assert (E2 : update out (lit "characters") (VArr [char1; char2] []) = out).
  { rewrite <- Hc. apply update_same; [exact Hobj | rewrite Hc; discriminate]. }
  assert (E3 : ensured out (lit "script") = out)
    by (unfold ensured; now rewrite Hs).
  unfold assemble. rewrite Hpad, E1, E2, E3, E2, Hs.
  rewrite <- Hs. apply update_same; [exact Hobj | rewrite Hs; discriminate].
Qed.

Section NormalizerClaims.

Variable toLowerCase : jsstring -> jsstring.

Lemma characterName_assemble data char1 char2 lines :
  isObject data = true ->
  characterName (assemble data char1 char2 lines) 0 = field char1 (lit "name")
  /\ characterName (assemble data char1 char2 lines) 1 = field char2 (lit "name").
Proof.
  intros Hobj. unfold characterName.
  now rewrite (assemble_characters _ _ _ _ Hobj).
Qed.

(** C2 (amended).  On every payload on which the normaliser completes,
    whatever the number of character entries, the result has exactly
    two characters whose names are strings that differ from each other;
    the name of a character is non-empty whenever the trimmed name of
    its entry is, and the names are [Speaker 1] and [Speaker 2] when
    the payload supplies no entry. *)
Theorem normalize_two_distinct_names rng data :
  wfPayload data = true ->
  exists out c1 c2 n1 n2 a b,
    normalize toLowerCase rng data = Returns out
    /\ field out (lit "characters") = VArr [c1; c2] []
    /\ field c1 (lit "name") = VStr n1 /\ field c2 (lit "name") = VStr n2
    /\ n1 <> n2
    /\ paddedCharacters data = [a; b]
    /\ (trimmedNameOf a <> [] -> n1 <> [])
    /\ (trimmedNameOf b <> [] -> n2 <> [])
    /\ (rawCharacters data = [] -> n1 = lit "Speaker 1" /\ n2 = lit "Speaker 2").
Proof.
  intros Hwf.
  destruct (normalize_wf toLowerCase rng data Hwf)
    as (a & b & char1 & char2 & n1 & n2 & v1 & v2 & Hpad & _ & _ & _ & N1 & N2
        & Hne & _ & Hdiff & Hsame & Hn).
  assert (Hobj : isObject data = true).
  { unfold wfPayload in Hwf. apply andb_true_iff in Hwf as [Hwf _].
    now apply andb_true_iff in Hwf as [Hobj _]. }
  destruct N1 as (_ & Hn1 & _). destruct N2 as (_ & Hn2 & _).
  eexists. exists char1, char2, n1, n2, a, b.
  split; [exact Hn|]. split; [now apply assemble_characters|].
  repeat (split; [assumption|]).
  assert (Hcases : (n1 = trimmedNameOf a /\ n2 = trimmedNameOf b)
                   \/ (n1 = trimmedNameOf a ++ lit " (1)"
                       /\ n2 = trimmedNameOf b ++ lit " (2)")).
  { destruct (str_eqb (trimmedNameOf a) (trimmedNameOf b)) eqn:E.
    - apply str_eqb_eq in E. right. auto.
    - apply str_eqb_neq in E. left. auto. }
  split; [|split].
  - intros Ht. destruct Hcases as [[-> _]|[-> _]]; [exact Ht|].
    intros H. apply app_eq_nil in H as [_ H]. discriminate H.
  - intros Ht. destruct Hcases as [[_ ->]|[_ ->]]; [exact Ht|].
    intros H. apply app_eq_nil in H as [_ H]. discriminate H.
  - intros Hraw. rewrite paddedCharacters_cases, Hraw in Hpad.
    injection Hpad as <- <-.
    apply Hdiff. vm_compute. discriminate.
Qed.

(** C3.  Whenever the normaliser returns, for any payload and any
    random draws, each character's voice belongs to the list of that
    character's gender, and the two voices differ when the genders are
    the same. *)
Theorem normalize_voices rng data out :
  normalize toLowerCase rng data = Returns out ->
  exists c1 c2 g1 g2 v1 v2,
    field out (lit "characters") = VArr [c1; c2] []
    /\ field c1 (lit "gender") = VStr g1 /\ field c1 (lit "voice") = VStr v1
    /\ field c2 (lit "gender") = VStr g2 /\ field c2 (lit "voice") = VStr v2
    /\ isVoiceOf g1 v1 = true /\ isVoiceOf g2 v2 = true
    /\ (g1 = g2 -> v1 <> v2).
Proof.
  intros H. pose proof (normalize_Returns_wf toLowerCase _ _ _ H) as Hwf.
  destruct (normalize_wf toLowerCase rng data Hwf)
    as (a & b & char1 & char2 & n1 & n2 & v1 & v2 & _ & _ & _ & _ & N1 & N2
        & _ & Hvne & _ & _ & Hn).
  rewrite Hn in H. injection H as <-.
  assert (Hobj : isObject data = true).
  { unfold wfPayload in Hwf. apply andb_true_iff in Hwf as [Hwf _].
    now apply andb_true_iff in Hwf as [Hobj _]. }
  pose proof (normalCharacter_valid _ _ _ N1) as V1.
  pose proof (normalCharacter_valid _ _ _ N2) as V2.
  destruct N1 as (Ho1 & Hn1 & Hg1 & Hv1 & _). destruct N2 as (Ho2 & Hn2 & Hg2 & Hv2 & _).
  unfold validCharacter in V1, V2.
  rewrite Ho1, Hn1, Hv1 in V1. rewrite Ho2, Hn2, Hv2 in V2.
  assert (G1 : exists g1, field char1 (lit "gender") = VStr g1) by (destruct Hg1; eauto).
  assert (G2 : exists g2, field char2 (lit "gender") = VStr g2) by (destruct Hg2; eauto).
  destruct G1 as [g1 G1]. destruct G2 as [g2 G2].
  rewrite G1 in V1. rewrite G2 in V2. cbn [andb] in V1, V2.
  exists char1, char2, g1, g2, v1, v2.
  split; [now apply assemble_characters|]. auto 10.
Qed.

(** C8 (amended).  When the two final names are non-empty, carry no
    white space at either end and are not [__proto__], and the speaker
    string of every raw line is one of the two final names, running the
    normalisation stage on its own output returns that output
    unchanged, whatever the random draws. *)
Theorem normalize_idempotent rng rng' data out n1 n2 :
  normalize toLowerCase rng data = Returns out ->
  characterName out 0 = VStr n1 -> characterName out 1 = VStr n2 ->
  n1 <> [] -> n2 <> [] -> trimmed n1 = true -> trimmed n2 = true ->
  n1 <> lit "__proto__" -> n2 <> lit "__proto__" ->
  Forall (fun line => rawSpeakerOf line = n1 \/ rawSpeakerOf line = n2) (rawScript data) ->
  normalize toLowerCase rng' out = Returns out.
Proof.
  intros H Hc1 Hc2 Hne1 Hne2 Ht1 Ht2 Hp1 Hp2 Hsp.
  pose proof (normalize_Returns_wf toLowerCase _ _ _ H) as Hwf.
  destruct (normalize_wf toLowerCase rng data Hwf)
    as (a & b & char1 & char2 & m1 & m2 & v1 & v2 & _ & _ & _ & _ & N1 & N2
        & Hne & Hvne & _ & _ & Hn).
  rewrite Hn in H. injection H as H.
  assert (Hobj : isObject data = true).
  { unfold wfPayload in Hwf. apply andb_true_iff in Hwf as [Hwf' _].
    now apply andb_true_iff in Hwf' as [Hobj _]. }
  assert (Hlines : forallb wfLine (rawScript data) = true).
  { unfold wfPayload in Hwf. now apply andb_true_iff in Hwf as [_ Hl]. }
(* the names of the statement are those of the two characters *)
  destruct (characterName_assemble data char1 char2
              (map (fun line => update line (lit "speaker")
                      (rewrittenSpeaker (speakerMapOf toLowerCase m1 m2 (rawScript data)) m1
                                        (rawSpeakerOf line))) (rawScript data)) Hobj)
    as [E1 E2].
  rewrite H in E1, E2. rewrite Hc1 in E1. rewrite Hc2 in E2.
  pose proof N1 as (Ho1 & Hn1 & _). pose proof N2 as (Ho2 & Hn2 & _).
  rewrite Hn1 in E1. rewrite Hn2 in E2. injection E1 as ->. injection E2 as ->.
(* the lines of the first pass *)
  set (ks := map rawSpeakerOf (rawScript data)).
  assert (Hks : forall x, In x ks -> x = m1 \/ x = m2).
  { intros x Hx. apply in_map_iff in Hx as (line & <- & Hin).
    rewrite Forall_forall in Hsp. auto. }
  set (lines1 := map (fun line => update line (lit "speaker")
                        (VStr (matchedName toLowerCase m1 m2 (rawSpeakerOf line))))
                     (rawScript data)).
  assert (Hl1 : map (fun line => update line (lit "speaker")
                       (rewrittenSpeaker (speakerMapOf toLowerCase m1 m2 (rawScript data)) m1
                                         (rawSpeakerOf line))) (rawScript data) = lines1).
  { apply map_ext_in. intros line Hin. f_equal. unfold speakerMapOf. fold ks.
    apply rewrittenSpeaker_named; auto. unfold ks. now apply in_map. }
  rewrite Hl1 in H.
(* the second pass *)
  assert (Hoo : isObject out = true) by (rewrite <- H; now apply assemble_object).
  assert (Hchars : field out (lit "characters") = VArr [char1; char2] [])
    by (rewrite <- H; now apply assemble_characters).
  destruct (assemble_script data char1 char2 lines1 Hobj) as [props Hscript].
  rewrite H in Hscript.
  rewrite (normalize_stages toLowerCase rng' out Hoo).
  assert (Hpad : paddedCharacters out = [char1; char2])
    by (unfold paddedCharacters; rewrite Hchars; reflexivity).
  rewrite Hpad, (normalizeCharacters_fixed rng' char1 char2 m1 m2 v1 v2 N1 N2 Hne Hvne Ht1 Ht2).
  cbn [bind]. unfold rawScript at 1. rewrite Hscript. cbn [elements].
  assert (Hname : forall s, In s ks -> matchedName toLowerCase m1 m2 s <> []
                                       /\ trimmed (matchedName toLowerCase m1 m2 s) = true).
  { intros s _. destruct (matchedName_cases toLowerCase m1 m2 s) as [->| ->]; auto. }
  assert (Hwf1 : forallb wfLine lines1 = true).
  { apply forallb_forall. intros l Hl. apply in_map_iff in Hl as (line & <- & Hin).
    apply wfLine_update, wfLine_object. rewrite forallb_forall in Hlines. auto. }
  rewrite (normalizeScript_spec toLowerCase char1 char2 m1 m2 lines1 Ho1 Ho2 Hn1 Hn2 Hwf1).
  cbn [bind].
  assert (Hraw1 : forall line, In line (rawScript data) ->
            rawSpeakerOf (update line (lit "speaker")
                            (VStr (matchedName toLowerCase m1 m2 (rawSpeakerOf line))))
            = matchedName toLowerCase m1 m2 (rawSpeakerOf line)).
  { intros line Hin.
    destruct (Hname (rawSpeakerOf line)) as [Hx Hy]; [unfold ks; now apply in_map|].
    apply rawSpeakerOf_update; auto. apply wfLine_object.
    rewrite forallb_forall in Hlines. auto. }
  set (ks1 := map rawSpeakerOf lines1).
  assert (Hks1 : forall x, In x ks1 -> x = m1 \/ x = m2).
  { intros x Hx. apply in_map_iff in Hx as (l & <- & Hl).
    apply in_map_iff in Hl as (line & <- & Hin). rewrite (Hraw1 line Hin).
    apply matchedName_cases. }
  assert (Hfix : map (fun line => update line (lit "speaker")
                        (rewrittenSpeaker (speakerMapOf toLowerCase m1 m2 lines1) m1
                                          (rawSpeakerOf line))) lines1 = lines1).
  { transitivity (map (fun l => l) lines1); [|apply map_id].
    apply map_ext_in. intros l Hl.
    assert (Hin1 : In (rawSpeakerOf l) ks1) by (unfold ks1; now apply in_map).
    unfold speakerMapOf. fold ks1.
    rewrite (rewrittenSpeaker_named toLowerCase m1 m2 Hne1 Hne2 Hp1 Hp2 ks1 _ Hks1 Hin1).
    apply in_map_iff in Hl as (line & <- & Hin).
    rewrite (Hraw1 line Hin), update_update.
    rewrite matchedName_idempotent; [reflexivity|].
    rewrite Forall_forall in Hsp. auto. }
  rewrite Hfix. f_equal. eapply assemble_fixed; eauto.
Qed.

End NormalizerClaims.

(* ------------------------------------------------------------------ *)
(** ** The retry executor *)

(** For an [Error] whose message is a string, [isQuotaError] is the
    pattern of the specification: status or code 429, or a message
    containing [429], [quota] or [RESOURCE_EXHAUSTED]. *)
Lemma isQuotaError_pattern props m :
  ownGet props (lit "message") = Some (VStr m) ->
  isQuotaError (ErrorObject props)
  = Some (strictEq (errorField (ErrorObject props) (lit "status")) (VNum (lit "429"))
          || strictEq (errorField (ErrorObject props) (lit "code")) (VNum (lit "429"))
          || includes m (lit "429") || includes m (lit "quota")
          || includes m (lit "RESOURCE_EXHAUSTED")).
Proof.
  intros Hm. unfold isQuotaError.
  destruct (strictEq (errorField (ErrorObject props) (lit "status")) _); [reflexivity|].
  destruct (strictEq (errorField (ErrorObject props) (lit "code")) _); [reflexivity|].
  cbn [orb]. unfold errorField at 1 2 3 4. rewrite Hm.
  destruct m as [|c m]; [reflexivity|].
  cbn [truthy str_eqb negb messageIncludes].
  destruct (includes (c :: m) (lit "429")); [reflexivity|].
  destruct (includes (c :: m) (lit "quota")); reflexivity.
Qed.

(** The test of the [catch] clause and the signature of the
    specification: a failure with the signature is taken for a quota
    error; one without it is not, when its message can be searched. *)
Lemma quotaPattern_isQuotaError e :
  (quotaPattern e = true -> isQuotaError e = Some true)
  /\ (quotaPattern e = false -> readableMessage e = true -> isQuotaError e = Some false).
Proof.
  unfold quotaPattern, readableMessage, isQuotaError, quotaText.
  destruct (strictEq (errorField e (lit "status")) (VNum (lit "429")));
    [split; [reflexivity | discriminate]|].
  destruct (strictEq (errorField e (lit "code")) (VNum (lit "429")));
    [split; [reflexivity | discriminate]|].
  cbn [orb].
  destruct (errorField e (lit "message")) as [| | | |m| | |];
    try (split; [discriminate | reflexivity || discriminate]).
  destruct m as [|c m]; [split; [discriminate | reflexivity]|].
  cbn [truthy str_eqb negb messageIncludes].
  destruct (includes (c :: m) (lit "429")); [split; [reflexivity | discriminate]|].
  destruct (includes (c :: m) (lit "quota")); [split; [reflexivity | discriminate]|].
  cbn [orb].
  destruct (includes (c :: m) (lit "RESOURCE_EXHAUSTED")); split;
    reflexivity || discriminate.
Qed.

Section RetryProperties.

Variables World T : Type.
Variable operation : World -> completion T * World.





End RetryProperties.

(* ------------------------------------------------------------------ *)
(** ** The audio fallback *)

Section AudioProperties.

Variables World AudioBuffer : Type.
Variable speechService :
  jsstring -> list (jsstring * jsstring) -> World -> completion SpeechResponse * World.
Variable decodeAudio : jsstring -> World -> completion AudioBuffer * World.

Local Abbreviation perform := (performGeneration speechService decodeAudio).
Local Abbreviation generate := (generateDialogueAudio speechService decodeAudio).

(** A first attempt that succeeds is the only attempt. *)
Lemma generateDialogueAudio_native scenario w w1 buffer :
  perform scenario false w = (Normal buffer, w1) ->
  generate scenario w = (Normal buffer, w1, [false]).
Proof. intros H. unfold generateDialogueAudio. now rewrite H. Qed.


End AudioProperties.

(* ------------------------------------------------------------------ *)
(** ** The avatar stage *)

Section AvatarProperties.

Variable World : Type.
Variable imageService : jsstring -> World -> completion (list ImagePart) * World.

Local Abbreviation update1 := (updateCharacter imageService).
Local Abbreviation updateAll := (updateCharacters imageService).

Lemma updateCharacter_without context char w :
  hasDescription char = false -> update1 context char w = (char, w, []).
Proof.
  unfold hasDescription, updateCharacter.
  destruct (visualDescription char) as [d|]; [|reflexivity].
  now intros ->.
Qed.

Lemma updateCharacter_with context char w :
  hasDescription char = true ->
  exists d url w',
    visualDescription char = Some d
    /\ generateCharacterAvatar imageService d context w = (url, w')
    /\ update1 context char w
       = ({| name := name char; gender := gender char; voice := voice char;
             visualDescription := visualDescription char; bio := bio char;
             avatarUrl := match url with
                          | Some u => if truthy (VStr u) then Some u else None
                          | None => None
                          end |}, w', [(d, context)]).
Proof.
  unfold hasDescription, updateCharacter.
  destruct (visualDescription char) as [d|]; [|discriminate].
  intros ->. destruct (generateCharacterAvatar imageService d context w) as [url w'] eqn:E.
  exists d, url, w'. auto.
Qed.

(** The requests issued are those of the characters with a
    description, in order. *)
Lemma updateCharacters_requests context chars : forall w,
  snd (updateAll context chars w)
  = flat_map (fun char => match visualDescription char with
                          | Some d => if truthy (VStr d) then [(d, context)] else []
                          | None => []
                          end) chars.
Proof.
  induction chars as [|char chars IH]; intros w; [reflexivity|].
  cbn [updateCharacters flat_map].
  destruct (update1 context char w) as [[char' w1] req1] eqn:E1.
  specialize (IH w1).
  destruct (updateAll context chars w1) as [[rest' w2] req2]. cbn [snd] in *.
  rewrite IH. f_equal.
  destruct (hasDescription char) eqn:Hd.
  - destruct (updateCharacter_with context char w Hd) as (d & url & w' & Hv & _ & Hu).
    rewrite Hu in E1. injection E1 as _ _ <-. rewrite Hv.
    unfold hasDescription in Hd. rewrite Hv in Hd. now rewrite Hd.
  - rewrite (updateCharacter_without context char w Hd) in E1. injection E1 as _ _ <-.
    unfold hasDescription in Hd. destruct (visualDescription char); [now rewrite Hd|reflexivity].
Qed.

(** A character without description leaves the others' generation as
    it would be without that character. *)
Lemma updateCharacters_frame context chars1 char chars2 w :
  hasDescription char = false ->
  updateAll context (chars1 ++ char :: chars2) w
  = (let '(cs1, w1, r1) := updateAll context chars1 w in
     let '(cs2, w2, r2) := updateAll context chars2 w1 in
     (cs1 ++ char :: cs2, w2, r1 ++ r2)).
Proof.
  intros Hd. revert w. induction chars1 as [|c chars1 IH]; intros w.
  - cbn [app updateCharacters]. rewrite (updateCharacter_without context char w Hd).
    destruct (updateAll context chars2 w) as [[cs2 w2] r2]. reflexivity.
  - cbn [app updateCharacters].
    destruct (update1 context c w) as [[c' w1] r1].
    rewrite IH.
    destruct (updateAll context chars1 w1) as [[cs1 w2] r2].
    destruct (updateAll context chars2 w2) as [[cs2 w3] r3].
    cbn [app]. now rewrite app_assoc.
Qed.

(** C10.  With image generation requested, the avatar stage issues a
    request exactly for the characters that have a non-empty visual
    description, in order, each with its own description and the
    context of the scenario; a character without one is passed through
    unchanged, and the characters before and after it are processed as
    if it were not there. *)
Theorem imagesStage_skips_undescribed scenarioData chars1 char chars2 w :
  characters scenarioData = chars1 ++ char :: chars2 ->
  hasDescription char = false ->
  let '(merged, w', requests) := imagesStage imageService true scenarioData w in
  let '(cs1, w1, r1) := updateAll (context scenarioData) chars1 w in
  let '(cs2, w2, r2) := updateAll (context scenarioData) chars2 w1 in
  characters merged = cs1 ++ char :: cs2
  /\ w' = w2
  /\ requests = r1 ++ r2
  /\ requests
     = map (fun c => (match visualDescription c with Some d => d | None => [] end,
                      context scenarioData))
           (filter hasDescription (characters scenarioData)).
Proof.
  intros Hc Hd. unfold imagesStage. cbn [negb].
  pose proof (updateCharacters_requests (context scenarioData)
                (characters scenarioData) w) as Hreq.
  rewrite Hc in Hreq |- *.
  rewrite (updateCharacters_frame _ _ _ _ _ Hd) in Hreq |- *.
  destruct (updateAll (context scenarioData) chars1 w) as [[cs1 w1] r1].
  destruct (updateAll (context scenarioData) chars2 w1) as [[cs2 w2] r2].
  cbn [characters snd] in *. repeat split; try reflexivity.
  rewrite Hreq. clear.
  induction (chars1 ++ char :: chars2) as [|c l IH]; [reflexivity|].
  cbn [flat_map filter]. unfold hasDescription at 1.
  destruct (visualDescription c) as [d|] eqn:E; [|exact IH].
  destruct (truthy (VStr d)); [|exact IH].
  cbn [map app]. rewrite E. now f_equal.
Qed.

End AvatarProperties.

(* ------------------------------------------------------------------ *)
(** ** The JSON extractor *)

Lemma subseq_refl s : subseq s s.
Proof. induction s; [apply subseq_nil | now apply subseq_keep]. Qed.

Lemma subseq_nil_l s : subseq [] s.
Proof. induction s; [apply subseq_nil | now apply subseq_skip]. Qed.

Lemma subseq_trans t s u : subseq t s -> subseq s u -> subseq t u.
Proof.
  intros H1 H2. revert t H1. induction H2 as [|c s u H2 IH|c s u H2 IH]; intros t H1.
  - exact H1.
  - apply subseq_skip. auto.
  - inversion H1; subst; [apply subseq_skip | apply subseq_keep]; auto.
Qed.

Lemma subseq_app_l p s : subseq s (p ++ s).
Proof. induction p; simpl; [apply subseq_refl | now apply subseq_skip]. Qed.

Lemma subseq_app_r s q : subseq s (s ++ q).
Proof. induction s; simpl; [apply subseq_nil_l | now apply subseq_keep]. Qed.

Lemma trimStart_subseq s : subseq (trimStart s) s.
Proof.
  destruct (trimStart_suffix s) as [p E]. rewrite E at 2. apply subseq_app_l.
Qed.

Lemma trimEnd_subseq s : subseq (trimEnd s) s.
Proof.
  unfold trimEnd. destruct (trimStart_suffix (rev s)) as [p E].
  apply (f_equal (@rev N)) in E. rewrite rev_involutive, rev_app_distr in E.
  rewrite E at 2. apply subseq_app_r.
Qed.

Lemma trim_subseq s : subseq (trim s) s.
Proof.
  unfold trim. eapply subseq_trans; [apply trimEnd_subseq | apply trimStart_subseq].
Qed.

Lemma removeMatches_subseq isMatch len s : forall skip,
  subseq (removeMatches isMatch len skip s) s.
Proof.
  induction s as [|c s IH]; intros skip; cbn [removeMatches]; [apply subseq_nil|].
  destruct skip; [destruct (isMatch (c :: s))|];
    [apply subseq_skip | apply subseq_keep | apply subseq_skip]; auto.
Qed.

Lemma noBracePair_weaken s : noBracePair true s = true -> noBracePair false s = true.
Proof.
  induction s as [|c s IH]; cbn [noBracePair]; [auto|].
  destruct (c =? closeBrace)%N; cbn [negb andb orb]; [discriminate|].
  destruct (c =? openBrace)%N; auto.
Qed.

Lemma noBracePair_subseq t s :
  subseq t s -> forall b, noBracePair b s = true -> noBracePair b t = true.
Proof.
  induction 1 as [|c t s H IH|c t s H IH]; intros b Hs; [reflexivity| |].
  - cbn [noBracePair] in Hs. destruct (c =? closeBrace)%N.
    + apply andb_true_iff in Hs as [_ Hs]. auto.
    + apply IH. destruct b; [exact Hs|]. cbn [orb] in Hs.
      destruct (c =? openBrace)%N; [now apply noBracePair_weaken | exact Hs].
  - cbn [noBracePair] in *. destruct (c =? closeBrace)%N.
    + apply andb_true_iff in Hs as [Hb Hs]. rewrite Hb. cbn [andb]. auto.
    + auto.
Qed.

Lemma indexOf_nth c s :
  (indexOf c s <> -1)%Z ->
  (0 <= indexOf c s)%Z /\ nth_error s (Z.to_nat (indexOf c s)) = Some c.
Proof.
  induction s as [|x s IH]; cbn [indexOf]; [congruence|].
  destruct (x =? c)%N eqn:E.
  - apply N.eqb_eq in E. subst. intros _. split; [lia | reflexivity].
  - destruct (indexOf c s =? -1)%Z eqn:E1; [congruence|].
    apply Z.eqb_neq in E1. destruct (IH E1) as [H0 Hn]. intros _.
    split; [lia|]. replace (Z.to_nat (indexOf c s + 1)) with (S (Z.to_nat (indexOf c s))) by lia.
    exact Hn.
Qed.

Lemma lastIndexOf_nth c s :
  (lastIndexOf c s <> -1)%Z ->
  (0 <= lastIndexOf c s)%Z /\ nth_error s (Z.to_nat (lastIndexOf c s)) = Some c.
Proof.
  induction s as [|x s IH]; cbn [lastIndexOf]; [congruence|].
  destruct (lastIndexOf c s =? -1)%Z eqn:E1.
  - destruct (x =? c)%N eqn:E; [|congruence].
    apply N.eqb_eq in E. subst. intros _. split; [lia | reflexivity].
  - apply Z.eqb_neq in E1. destruct (IH E1) as [H0 Hn]. intros _.
    split; [lia|].
    replace (Z.to_nat (lastIndexOf c s + 1)) with (S (Z.to_nat (lastIndexOf c s))) by lia.
    exact Hn.
Qed.

(** [noBracePair] says what its name says: no opening brace stands
    before a closing brace. *)
Lemma noBracePair_no_pair s : forall b j,
  noBracePair b s = true ->
  nth_error s j = Some closeBrace ->
  b = true \/ (exists i, (i < j)%nat /\ nth_error s i = Some openBrace) ->
  False.
Proof.
  induction s as [|c s IH]; intros b j Hs Hj Hi; [destruct j; discriminate|].
  cbn [noBracePair] in Hs. destruct j as [|j]; cbn [nth_error] in Hj.
  - injection Hj as ->. cbn in Hs. apply andb_true_iff in Hs as [Hb _].
    destruct Hi as [->|[i [Hi _]]]; [discriminate | lia].
  - destruct (c =? closeBrace)%N eqn:Ec.
    + apply andb_true_iff in Hs as [Hb Hs]. apply negb_true_iff in Hb. subst b.
      apply (IH false j Hs Hj). right.
      destruct Hi as [Hi|[i [Hlt Hi]]]; [discriminate|].
      destruct i as [|i]; cbn [nth_error] in Hi.
      * injection Hi as ->. discriminate Ec.
      * exists i. split; [lia | exact Hi].
    + destruct Hi as [->|[i [Hlt Hi]]].
      * apply (IH _ j Hs Hj). now left.
      * destruct i as [|i]; cbn [nth_error] in Hi.
        -- injection Hi as ->. apply (IH _ j Hs Hj). left.
           rewrite N.eqb_refl. apply orb_true_r.
        -- apply (IH _ j Hs Hj). right. exists i. split; [lia | exact Hi].
Qed.

Lemma noBracePair_complete s : forall b,
  (b = true -> forall j, nth_error s j <> Some closeBrace) ->
  (forall i j, nth_error s i = Some openBrace -> nth_error s j = Some closeBrace ->
               (j <= i)%nat) ->
  noBracePair b s = true.
Proof.
  induction s as [|c s IH]; intros b Hb Hp; [reflexivity|].
  cbn [noBracePair]. destruct (c =? closeBrace)%N eqn:Ec.
  - apply N.eqb_eq in Ec. subst c. apply andb_true_iff. split.
    + destruct b; [|reflexivity]. exfalso. apply (Hb eq_refl 0%nat). reflexivity.
    + apply IH.
      * intros -> j Hj. apply (Hb eq_refl (S j)). exact Hj.
      * intros i j Hi Hj. pose proof (Hp (S i) (S j) Hi Hj). lia.
  - apply IH.
    + intros Hor j Hj. apply orb_true_iff in Hor as [->|Ho].
      * apply (Hb eq_refl (S j)). exact Hj.
      * apply N.eqb_eq in Ho. subst c.
        pose proof (Hp 0%nat (S j) eq_refl Hj). lia.
    + intros i j Hi Hj. pose proof (Hp (S i) (S j) Hi Hj). lia.
Qed.

Lemma noBracePair_spec s :
  noBracePair false s = true
  <-> (forall i j, nth_error s i = Some openBrace -> nth_error s j = Some closeBrace ->
                   (j <= i)%nat).
Proof.
  split.
  - intros H i j Hi Hj. destruct (Nat.le_gt_cases j i) as [Hle|Hlt]; [exact Hle|].
    exfalso. apply (noBracePair_no_pair s false j H Hj). right. eauto.
  - intros H. apply noBracePair_complete; [discriminate | exact H].
Qed.

Section ExtractProperties.

Variable JSON_parse : jsstring -> option Value.

(** C9 (amended).  On every non-empty text without a brace pair,
    [extractJSON] throws the error [No JSON object found in response.];
    on the empty text it returns [null]. *)
Theorem extractJSON_no_brace_pair text :
  noBracePair false text = true ->
  (text <> [] ->
   extractJSON JSON_parse text
   = Abrupt (newError (lit "No JSON object found in response.")))
  /\ (text = [] -> extractJSON JSON_parse text = Normal VNull).
Proof.
  intros Hno. split.
  - intros Hne. unfold extractJSON. rewrite (truthy_name _ Hne). cbn [negb].
    set (js := removeMatches fenceAt 3 0 (removeMatches fenceJsonAt 7 0 (trim text))).
    assert (Hsub : subseq js text).
    { unfold js. eapply subseq_trans; [apply removeMatches_subseq|].
      eapply subseq_trans; [apply removeMatches_subseq | apply trim_subseq]. }
    pose proof (noBracePair_subseq js text Hsub false Hno) as Hjs.
    destruct (negb (indexOf openBrace js =? -1)%Z
              && negb (lastIndexOf closeBrace js =? -1)%Z
              && (indexOf openBrace js <? lastIndexOf closeBrace js)%Z) eqn:E;
      [|reflexivity].
    exfalso.
    apply andb_true_iff in E as [E Hlt]. apply andb_true_iff in E as [Ho Hc].
    apply negb_true_iff, Z.eqb_neq in Ho. apply negb_true_iff, Z.eqb_neq in Hc.
    apply Z.ltb_lt in Hlt.
    destruct (indexOf_nth _ _ Ho) as [Ho0 Hon].
    destruct (lastIndexOf_nth _ _ Hc) as [Hc0 Hcn].
    apply (noBracePair_no_pair js false _ Hjs Hcn). right.
    exists (Z.to_nat (indexOf openBrace js)). split; [lia | exact Hon].
  - intros ->. reflexivity.
Qed.

End ExtractProperties.

(* ------------------------------------------------------------------ *)
(** ** Speakers that are not members of [Object.prototype] *)

Lemma recordSet_keys_NoDup {A : Type} (m : list (jsstring * A)) k x :
  NoDup (map fst m) -> NoDup (map fst (recordSet m k x)).
Proof.
  unfold recordSet. destruct (str_eqb k (lit "__proto__")); [auto|].
  induction m as [|[k0 v] m IH]; cbn [ownSet map fst]; intros H.
  - constructor; [intros []|constructor].
  - destruct (str_eqb k0 k) eqn:E; cbn [map fst]; [exact H|].
    inversion H as [|? ? Hnin Hnd]; subst. constructor; [|auto].
    rewrite ownSet_keys_in. intros [->|Hin]; [|contradiction].
    rewrite str_eqb_refl in E. discriminate.
Qed.

Lemma countSpeaker_keys_NoDup ks : forall counts,
  NoDup (map fst counts) -> NoDup (map fst (fold_left countSpeaker ks counts)).
Proof.
  induction ks as [|k ks IH]; intros counts H; cbn [fold_left]; [exact H|].
  apply IH. unfold countSpeaker. now apply recordSet_keys_NoDup.
Qed.

Lemma insertIndex_perm x l : Permutation (insertIndex x l) (x :: l).
Proof.
  induction l as [|y l IH]; cbn [insertIndex]; [reflexivity|].
  destruct (fst y <? fst x)%N; [|reflexivity].
  rewrite IH. apply perm_swap.
Qed.

Lemma sortIndex_perm l : Permutation (fold_right insertIndex [] l) l.
Proof.
  induction l as [|x l IH]; cbn [fold_right]; [reflexivity|].
  rewrite insertIndex_perm. now constructor.
Qed.

Lemma insertSorted_perm {A : Type} (cmp : A -> A -> jsnum) x l :
  Permutation (insertSorted cmp x l) (x :: l).
Proof.
  induction l as [|y l IH]; cbn [insertSorted]; [reflexivity|].
  destruct (positive (cmp x y)); [|reflexivity].
  rewrite IH. apply perm_swap.
Qed.

Lemma arraySort_perm {A : Type} (cmp : A -> A -> jsnum) l :
  Permutation (arraySort cmp l) l.
Proof.
  unfold arraySort. induction l as [|x l IH]; cbn [fold_right]; [reflexivity|].
  rewrite insertSorted_perm. now constructor.
Qed.

Lemma indexed_keys (keys : list jsstring) :
  map snd (flat_map (fun k => match arrayIndex k with
                              | Some n => [(n, k)]
                              | None => []
                              end) keys)
  = filter (fun k => match arrayIndex k with Some _ => true | None => false end) keys.
Proof.
  induction keys as [|k keys IH]; [reflexivity|].
  cbn [flat_map filter]. destruct (arrayIndex k); cbn [app map snd]; now rewrite IH.
Qed.

Lemma objectKeys_NoDup {A : Type} (m : list (jsstring * A)) :
  NoDup (map fst m) -> NoDup (objectKeys m).
Proof.
  intros H. unfold objectKeys.
  set (keys := map fst m) in *.
  apply NoDup_app.
  - eapply Permutation_NoDup.
    + apply Permutation_map. symmetry. apply sortIndex_perm.
    + rewrite indexed_keys. now apply NoDup_filter.
  - now apply NoDup_filter.
  - intros k H1 H2. apply filter_In in H2 as [_ H2].
    apply in_map_iff in H1 as [[n k'] [E H1]]. cbn in E. subst k'.
    apply sortIndex_in, in_flat_map in H1 as [k0 [_ H1]].
    destruct (arrayIndex k0) eqn:E0; [|contradiction].
    destruct H1 as [[= _ ->]|[]]. rewrite E0 in H2. discriminate.
Qed.

Lemma scriptSpeakers_NoDup ks :
  NoDup (scriptSpeakersOf (fold_left countSpeaker ks [])).
Proof.
  unfold scriptSpeakersOf.
  eapply Permutation_NoDup; [symmetry; apply arraySort_perm|].
  apply objectKeys_NoDup, countSpeaker_keys_NoDup. constructor.
Qed.

Lemma isProtoKey_proto : isProtoKey (lit "__proto__") = true.
Proof. reflexivity. Qed.

Lemma assignRest_get n1 keys : forall (m : list (jsstring * jsstring)) k,
  ownGet (fold_left (fun m s => recordSet m s n1) keys m) k
  = if existsb (str_eqb k) keys && negb (str_eqb k (lit "__proto__"))
    then Some n1 else ownGet m k.
Proof.
  induction keys as [|s keys IH]; intros m k; cbn [fold_left existsb]; [reflexivity|].
  rewrite IH. unfold recordSet.
  destruct (existsb (str_eqb k) keys) eqn:Ex; cbn [andb orb].
  - rewrite orb_true_r. cbn [andb].
    destruct (str_eqb k (lit "__proto__")) eqn:Ep; cbn [negb]; [|reflexivity].
    apply str_eqb_eq in Ep. subst k.
    destruct (str_eqb s (lit "__proto__")) eqn:Es; [reflexivity|].
    apply ownGet_ownSet_neq. apply str_eqb_neq in Es. exact Es.
  - rewrite orb_false_r. destruct (str_eqb k s) eqn:Eks; cbn [andb].
    + apply str_eqb_eq in Eks. subst s.
      destruct (str_eqb k (lit "__proto__")); cbn [negb]; [reflexivity|].
      apply ownGet_ownSet_eq.
    + apply str_eqb_neq in Eks.
      destruct (str_eqb s (lit "__proto__")); [reflexivity|].
      apply ownGet_ownSet_neq. congruence.
Qed.

(** Without members of [Object.prototype] among the speakers, every
    count is the number of lines of the speaker. *)
Lemma countSpeaker_counts ks : forall counts k,
  (forall s, In s ks -> isProtoKey s = false) ->
  (forall x c, ownGet counts x = Some c -> exists n, c = CNum n) ->
  ownGet (fold_left countSpeaker ks counts) k
  = match ownGet counts k with
    | Some (CNum n) => Some (CNum (n + occurrences k ks))
    | Some (CStr s) => Some (CStr s)
    | None => if (occurrences k ks =? 0)%N then None else Some (CNum (occurrences k ks))
    end.
Proof.
  induction ks as [|s ks IH]; intros counts k Hks Hnum; cbn [fold_left].
  - unfold occurrences. cbn. destruct (ownGet counts k) as [[n|t]|]; try reflexivity.
    now rewrite N.add_0_r.
  - assert (Hs : isProtoKey s = false) by (apply Hks; now left).
    assert (Hsp : str_eqb s (lit "__proto__") = false).
    { destruct (str_eqb s (lit "__proto__")) eqn:E; [|reflexivity].
      apply str_eqb_eq in E. subst s. discriminate Hs. }
    assert (Hnext : exists n,
              countSpeaker counts s = ownSet counts s (CNum n)
              /\ n = match ownGet counts s with
                     | Some (CNum n0) => (n0 + 1)%N
                     | _ => 1%N
                     end).
    { unfold countSpeaker, recordSet. rewrite Hsp, Hs.
      destruct (ownGet counts s) as [[n0|t]|] eqn:E; eauto.
      destruct (Hnum _ _ E) as [n Hn]. discriminate Hn. }
    destruct Hnext as (n & Hc & Hn). rewrite Hc.
    rewrite IH.
    + unfold occurrences. cbn [filter].
      destruct (str_eqb k s) eqn:Eks.
      * apply str_eqb_eq in Eks. subst s. rewrite ownGet_ownSet_eq. cbn [List.length].
        destruct (ownGet counts k) as [[n0|t]|] eqn:E.
        -- subst n. f_equal. f_equal. lia.
        -- destruct (Hnum _ _ E) as [n' Hn']. discriminate Hn'.
        -- subst n.
           destruct (N.of_nat (S (List.length (filter (str_eqb k) ks))) =? 0)%N eqn:E0;
             [apply N.eqb_eq in E0; lia|]. f_equal. f_equal. lia.
      * apply str_eqb_neq in Eks.
        rewrite ownGet_ownSet_neq by congruence. reflexivity.
    + intros x Hx. apply Hks. now right.
    + intros x c Hx. destruct (str_eqb s x) eqn:Esx.
      * apply str_eqb_eq in Esx. subst x. rewrite ownGet_ownSet_eq in Hx.
        injection Hx as <-. eauto.
      * apply str_eqb_neq in Esx. rewrite ownGet_ownSet_neq in Hx by exact Esx. eauto.
Qed.

Lemma insertSorted_descending {A : Type} (cmp : A -> A -> jsnum) (w : A -> N) x l :
  (forall y, In y l -> positive (cmp x y) = (w x <? w y)%N) ->
  StronglySorted (fun a b => (w b <= w a)%N) l ->
  StronglySorted (fun a b => (w b <= w a)%N) (insertSorted cmp x l).
Proof.
  intros Hcmp Hs. induction l as [|y l IH]; cbn [insertSorted].
  - constructor; constructor.
  - apply StronglySorted_inv in Hs as [Hs Hy].
    rewrite (Hcmp y (or_introl eq_refl)).
    destruct (w x <? w y)%N eqn:E.
    + apply N.ltb_lt in E. constructor.
      * apply IH; [intros z Hz; apply Hcmp; now right | exact Hs].
      * apply Forall_forall. intros z Hz. apply insertSorted_in in Hz as [->|Hz]; [lia|].
        rewrite Forall_forall in Hy. auto.
    + apply N.ltb_ge in E. constructor; [constructor; assumption|].
      constructor; [exact E|]. apply Forall_forall. intros z Hz.
      rewrite Forall_forall in Hy. specialize (Hy z Hz). lia.
Qed.

Lemma arraySort_descending {A : Type} (cmp : A -> A -> jsnum) (w : A -> N) l :
  (forall x y, In x l -> In y l -> positive (cmp x y) = (w x <? w y)%N) ->
  StronglySorted (fun a b => (w b <= w a)%N) (arraySort cmp l).
Proof.
  unfold arraySort. induction l as [|x l IH]; intros Hcmp; cbn [fold_right].
  - constructor.
  - apply insertSorted_descending.
    + intros y Hy. apply Hcmp; [now left|].
      right. now apply (arraySort_in cmp y l).
    + apply IH. intros a b Ha Hb. apply Hcmp; now right.
Qed.

(** Without members of [Object.prototype] among the speakers, the
    script speakers come in descending order of frequency. *)
Lemma scriptSpeakers_descending ks :
  (forall s, In s ks -> isProtoKey s = false) ->
  StronglySorted (fun a b => (occurrences b ks <= occurrences a ks)%N)
                 (scriptSpeakersOf (fold_left countSpeaker ks [])).
Proof.
  intros Hks. unfold scriptSpeakersOf. apply arraySort_descending.
  intros x y Hx Hy.
  apply objectKeys_in, countSpeaker_keys_in in Hx as [[]|[Hx _]].
  apply objectKeys_in, countSpeaker_keys_in in Hy as [[]|[Hy _]].
  assert (Hocc : forall k, In k ks ->
            ownGet (fold_left countSpeaker ks []) k = Some (CNum (occurrences k ks))).
  { intros k Hk. rewrite countSpeaker_counts; [|exact Hks|intros ? ? [=]].
    cbn [ownGet].
    destruct (occurrences k ks =? 0)%N eqn:E; [|reflexivity].
    apply N.eqb_eq in E. unfold occurrences in E.
    assert (Hin : In k (filter (str_eqb k) ks))
      by (apply filter_In; split; [exact Hk | apply str_eqb_refl]).
    destruct (filter (str_eqb k) ks); [contradiction | cbn in E; lia]. }
  unfold compareCounts. rewrite (Hocc x Hx), (Hocc y Hy). cbn [positive].
  destruct (occurrences x ks <? occurrences y ks)%N eqn:E.
  - apply N.ltb_lt in E. apply Z.ltb_lt. lia.
  - apply N.ltb_ge in E. apply Z.ltb_ge. lia.
Qed.

Section OrdinarySpeakers.

Variable toLowerCase : jsstring -> jsstring.

(** X27.  For a payload none of whose speaker strings is the name of a
    member of [Object.prototype], the invariant of C4 holds: every line
    of the result is spoken by one of the two characters. *)
Lemma normalize_speakers_are_names rng data out :
  normalize toLowerCase rng data = Returns out ->
  (forall line, In line (rawScript data) -> isProtoKey (rawSpeakerOf line) = false) ->
  exists n1 n2,
    characterName out 0 = VStr n1 /\ characterName out 1 = VStr n2
    /\ Forall (fun line => field line (lit "speaker") = VStr n1
                           \/ field line (lit "speaker") = VStr n2)
              (rawScript out).
Proof.
  intros H Hproto. pose proof (normalize_Returns_wf toLowerCase _ _ _ H) as Hwf.
  destruct (normalize_wf toLowerCase rng data Hwf)
    as (a & b & char1 & char2 & n1 & n2 & v1 & v2 & _ & _ & _ & _ & N1 & N2
        & _ & _ & _ & _ & Hn).
  rewrite Hn in H. injection H as H.
  assert (Hobj : isObject data = true).
  { unfold wfPayload in Hwf. apply andb_true_iff in Hwf as [Hwf' _].
    now apply andb_true_iff in Hwf' as [Hobj _]. }
  assert (Hlines : forallb wfLine (rawScript data) = true).
  { unfold wfPayload in Hwf. now apply andb_true_iff in Hwf as [_ Hl]. }
  set (m := speakerMapOf toLowerCase n1 n2 (rawScript data)) in *.
  set (lines := map _ (rawScript data)) in *.
  destruct (characterName_assemble data char1 char2 lines Hobj) as [E1 E2].
  destruct (assemble_script data char1 char2 lines Hobj) as [props Hs].
  rewrite H in E1, E2, Hs.
  destruct N1 as (_ & Hn1 & _). destruct N2 as (_ & Hn2 & _).
  exists n1, n2. split; [congruence|]. split; [congruence|].
  unfold rawScript at 1. rewrite Hs. cbn [elements].
  apply Forall_forall. intros l Hl. unfold lines in Hl.
  apply in_map_iff in Hl as (line & <- & Hin).
  rewrite field_update_eq
    by (apply wfLine_object; rewrite forallb_forall in Hlines; auto).
  unfold rewrittenSpeaker, recordGet.
  destruct (ownGet m (rawSpeakerOf line)) as [v|] eqn:Eg.
  - apply ownGet_Some_in in Eg as [_ Hv]. unfold m, speakerMapOf in Hv.
    apply buildSpeakerMap_values in Hv.
    destruct (truthy (VStr v)); [|now left].
    destruct Hv as [->| ->]; auto.
  - rewrite (Hproto line Hin). now left.
Qed.

Hypothesis toLowerCase_empty : toLowerCase [] = [].

Lemma fuzzyMatch_empty n : fuzzyMatch toLowerCase [] n = true.
Proof.
  unfold fuzzyMatch. rewrite toLowerCase_empty, includes_nil.
  destruct (str_eqb [] n); reflexivity.
Qed.

Lemma matchSpeakers_unmatched n1 n2 keys : forall m,
  (forall s, In s keys -> unmatched toLowerCase n1 n2 s = true) ->
  fold_left (matchSpeaker toLowerCase n1 n2) keys m = m.
Proof.
  induction keys as [|k keys IH]; intros m H; cbn [fold_left]; [reflexivity|].
  assert (Hk : unmatched toLowerCase n1 n2 k = true) by (apply H; now left).
  unfold unmatched in Hk. apply andb_true_iff in Hk as [H1 H2].
  apply negb_true_iff in H1, H2. unfold matchSpeaker at 2. rewrite H1, H2.
  apply IH. intros s Hs. apply H. now right.
Qed.

(** X28 (C7 outside the defect).  When no script speaker fuzzy-matches
    a name or names a member of [Object.prototype], and at least two
    distinct speakers occur, the first script speaker is mapped to
    character 1, the second to character 2, and every other one to
    character 1. *)
Lemma speakerMap_unmatched_priority n1 n2 ks a b :
  n1 <> n2 ->
  (forall s, In s ks ->
     unmatched toLowerCase n1 n2 s = true /\ isProtoKey s = false) ->
  In a ks -> In b ks -> a <> b ->
  exists s0 s1 rest,
    scriptSpeakersOf (fold_left countSpeaker ks []) = s0 :: s1 :: rest
    /\ let m := buildSpeakerMap toLowerCase n1 n2 (fold_left countSpeaker ks []) in
       recordGet m s0 = VStr n1
       /\ recordGet m s1 = VStr n2
       /\ forall s, In s rest -> recordGet m s = VStr n1.
Proof.
  intros Hne Hks Ha Hb Hab.
  set (counts := fold_left countSpeaker ks []).
  pose proof (scriptSpeakers_NoDup ks) as Hnd. fold counts in Hnd.
  assert (Hin : forall s, In s (scriptSpeakersOf counts) <-> In s ks).
  { intros s. unfold counts. rewrite scriptSpeakers_in. split; [tauto|].
    intros Hs. split; [exact Hs|]. intros ->.
    destruct (Hks _ Hs) as [_ Hp]. rewrite isProtoKey_proto in Hp. discriminate. }
  assert (Hprop : forall s, In s (scriptSpeakersOf counts) ->
            unmatched toLowerCase n1 n2 s = true /\ isProtoKey s = false
            /\ s <> [] /\ s <> lit "__proto__").
  { intros s Hs. apply Hin in Hs. destruct (Hks _ Hs) as [Hu Hp].
    repeat split; auto.
    - intros ->. unfold unmatched in Hu. rewrite fuzzyMatch_empty in Hu. discriminate.
    - intros ->. rewrite isProtoKey_proto in Hp. discriminate. }
  unfold buildSpeakerMap. fold counts.
  rewrite matchSpeakers_unmatched by (intros s Hs; now apply Hprop).
  set (keys := scriptSpeakersOf counts) in *.
  assert (Hfilter : filter (fun s => negb (truthy (recordGet [] s))) keys = keys).
  { assert (G : forall l, (forall s, In s l -> isProtoKey s = false) ->
                filter (fun s => negb (truthy (recordGet [] s))) l = l).
    { induction l as [|x l IH]; intros Hl; [reflexivity|].
      cbn [filter]. unfold recordGet at 1. cbn [ownGet].
      rewrite (Hl x (or_introl eq_refl)). cbn [truthy negb].
      f_equal. apply IH. intros s Hs. apply Hl. now right. }
    apply G. intros s Hs. now apply Hprop. }
  rewrite Hfilter.
  destruct keys as [|s0 [|s1 rest]] eqn:Ekeys.
  - exfalso. apply (Hin a). exact Ha.
  - exfalso. apply Hab.
    apply Hin in Ha, Hb. destruct Ha as [<-|[]]. destruct Hb as [<-|[]]. reflexivity.
  - exists s0, s1, rest. split; [reflexivity|].
    destruct (Hprop s0 (or_introl eq_refl)) as (_ & _ & Hs0 & Hp0).
    destruct (Hprop s1 (or_intror (or_introl eq_refl))) as (_ & _ & Hs1 & Hp1).
    inversion Hnd as [|? ? Hn0 Hnd1]; subst.
    inversion Hnd1 as [|? ? Hn1 Hnd2]; subst.
    assert (H01 : s0 <> s1) by (intros ->; apply Hn0; now left).
    assert (E1 : assignIfUnused n1 (s0 :: s1 :: rest) ([], 0%nat) = ([(s0, n1)], 1%nat)).
    { unfold assignIfUnused, isCharUsed, unmappedAt.
      cbn [objectValues map existsb nth_error].
      rewrite (truthy_name _ Hs0). unfold recordSet.
      now rewrite (proj2 (str_eqb_neq _ _) Hp0). }
    assert (E2 : assignIfUnused n2 (s0 :: s1 :: rest) ([(s0, n1)], 1%nat)
                 = ([(s0, n1); (s1, n2)], 2%nat)).
    { unfold assignIfUnused, isCharUsed, unmappedAt.
      cbn [objectValues map snd existsb nth_error].
      rewrite (proj2 (str_eqb_neq _ _) Hne). cbn [orb].
      rewrite (truthy_name _ Hs1). unfold recordSet.
      rewrite (proj2 (str_eqb_neq _ _) Hp1). cbn [ownSet].
      now rewrite (proj2 (str_eqb_neq _ _) H01). }
    rewrite E1, E2. cbn [fst snd skipn].
    cbv zeta. unfold recordGet. rewrite !assignRest_get.
    assert (X0 : existsb (str_eqb s0) rest = false).
    { destruct (existsb (str_eqb s0) rest) eqn:E; [|reflexivity].
      apply existsb_str_eqb_In in E. exfalso. apply Hn0. now right. }
    assert (X1 : existsb (str_eqb s1) rest = false).
    { destruct (existsb (str_eqb s1) rest) eqn:E; [|reflexivity].
      apply existsb_str_eqb_In in E. contradiction. }
    rewrite X0, X1. cbn [andb ownGet]. rewrite !str_eqb_refl.
    rewrite (proj2 (str_eqb_neq _ _) H01).
    split; [reflexivity|]. split; [reflexivity|].
    intros s Hs. rewrite assignRest_get.
    rewrite (proj2 (existsb_str_eqb_In s rest) Hs).
    destruct (Hprop s (or_intror (or_intror Hs))) as (_ & _ & _ & Hp).
    rewrite (proj2 (str_eqb_neq _ _) Hp). reflexivity.
Qed.

End OrdinarySpeakers.

(* ================================================================== *)
(** * The properties at concrete payloads *)
(* ================================================================== *)

Lemma samplePayload_normalized :
  normalize toLowerCaseAscii zeroRng samplePayload = Returns sampleScenario.
Proof. vm_compute. reflexivity. Qed.

(** C1, the claim as stated fails: a [null] character entry makes the
    normaliser throw. *)
Lemma normalize_throws_on_null_character :
  normalize toLowerCaseAscii zeroRng nullCharacterPayload
  = Throws (ReadOfNullish (lit "name")).
Proof. vm_compute. reflexivity. Qed.

Lemma normalize_total_on_wellformed_witness :
  wfPayload samplePayload = true
  /\ exists out, normalize toLowerCaseAscii zeroRng samplePayload = Returns out
                 /\ validScenario out = true.
Proof.
  split; [vm_compute; reflexivity|].
  apply (normalize_total_on_wellformed toLowerCaseAscii zeroRng samplePayload).
  vm_compute. reflexivity.
Defined.

(** C2, the claim as stated fails: with a single entry whose name is
    empty, the first of the two returned names is the empty string. *)
Lemma normalize_keeps_empty_name :
  exists out,
    normalize toLowerCaseAscii zeroRng emptyNamePayload = Returns out
    /\ List.length (rawCharacters emptyNamePayload) = 1%nat
    /\ characterName out 0 = VStr []
    /\ characterName out 1 = VStr (lit "Speaker 2").
Proof. eexists. split; [vm_compute; reflexivity|]. vm_compute. auto. Qed.

Lemma normalize_two_distinct_names_witness :
  wfPayload emptyNamePayload = true
  /\ exists out c1 c2 n1 n2 a b,
      normalize toLowerCaseAscii zeroRng emptyNamePayload = Returns out
      /\ field out (lit "characters") = VArr [c1; c2] []
      /\ field c1 (lit "name") = VStr n1 /\ field c2 (lit "name") = VStr n2
      /\ n1 <> n2
      /\ paddedCharacters emptyNamePayload = [a; b]
      /\ (trimmedNameOf a <> [] -> n1 <> [])
      /\ (trimmedNameOf b <> [] -> n2 <> [])
      /\ (rawCharacters emptyNamePayload = [] ->
          n1 = lit "Speaker 1" /\ n2 = lit "Speaker 2").
Proof.
  split; [vm_compute; reflexivity|].
  apply (normalize_two_distinct_names toLowerCaseAscii zeroRng emptyNamePayload).
  vm_compute. reflexivity.
Defined.

Lemma normalize_voices_witness :
  normalize toLowerCaseAscii zeroRng samplePayload = Returns sampleScenario
  /\ exists c1 c2 g1 g2 v1 v2,
      field sampleScenario (lit "characters") = VArr [c1; c2] []
      /\ field c1 (lit "gender") = VStr g1 /\ field c1 (lit "voice") = VStr v1
      /\ field c2 (lit "gender") = VStr g2 /\ field c2 (lit "voice") = VStr v2
      /\ isVoiceOf g1 v1 = true /\ isVoiceOf g2 v2 = true
      /\ (g1 = g2 -> v1 <> v2).
Proof.
  split; [vm_compute; reflexivity|].
  apply (normalize_voices toLowerCaseAscii zeroRng samplePayload sampleScenario).
  vm_compute. reflexivity.
Defined.

(** C4: a line whose speaker is [constructor] keeps no character name;
    its speaker becomes the function inherited from [Object.prototype]. *)
Lemma normalize_speaker_constructor :
  exists out line1 line2,
    normalize toLowerCaseAscii zeroRng constructorPayload = Returns out
    /\ characterName out 0 = str "Ana" /\ characterName out 1 = str "Luis"
    /\ rawScript out = [line1; line2]
    /\ field line1 (lit "speaker") = VBuiltin (lit "constructor")
    /\ field line2 (lit "speaker") = str "Ana".
Proof. do 3 eexists. split; [vm_compute; reflexivity|]. vm_compute. auto 10. Qed.

(** C7: with the two unmatched speakers [constructor] and [Bob], the
    only entry of the speaker map sends [Bob] to character 1; no
    speaker is mapped to character 2. *)
Lemma speakerMap_skips_constructor :
  map rawSpeakerOf (rawScript constructorPayload) = [lit "constructor"; lit "Bob"]
  /\ unmatched toLowerCaseAscii (lit "Ana") (lit "Luis") (lit "constructor") = true
  /\ unmatched toLowerCaseAscii (lit "Ana") (lit "Luis") (lit "Bob") = true
  /\ scriptSpeakersOf (fold_left countSpeaker [lit "constructor"; lit "Bob"] [])
     = [lit "constructor"; lit "Bob"]
  /\ speakerMapOf toLowerCaseAscii (lit "Ana") (lit "Luis") (rawScript constructorPayload)
     = [(lit "Bob", lit "Ana")].
Proof. vm_compute. auto 10. Qed.

(** C8, the claim as stated fails: with two blank names and no line at
    all, the names of the first pass are [ (1)] and [ (2)], and a
    second pass trims them. *)
Lemma normalize_not_idempotent_on_blank_names :
  exists out out',
    normalize toLowerCaseAscii zeroRng blankNamesPayload = Returns out
    /\ rawScript blankNamesPayload = []
    /\ normalize toLowerCaseAscii zeroRng out = Returns out'
    /\ characterName out 0 = str " (1)"
    /\ characterName out' 0 = str "(1)"
    /\ out' <> out.
Proof.
  do 2 eexists. split; [vm_compute; reflexivity|].
  split; [reflexivity|]. split; [vm_compute; reflexivity|].
  split; [reflexivity|]. split; [reflexivity|].
  vm_compute. discriminate.
Qed.

Lemma normalize_idempotent_witness :
  normalize toLowerCaseAscii zeroRng samplePayload = Returns sampleScenario
  /\ normalize toLowerCaseAscii zeroRng sampleScenario = Returns sampleScenario.
Proof.
  split; [vm_compute; reflexivity|].
  apply (normalize_idempotent toLowerCaseAscii zeroRng zeroRng samplePayload sampleScenario
                              (lit "Ana") (lit "Luis")).
  - vm_compute. reflexivity.
  - vm_compute. reflexivity.
  - vm_compute. reflexivity.
  - vm_compute. discriminate.
  - vm_compute. discriminate.
  - vm_compute. reflexivity.
  - vm_compute. reflexivity.
  - vm_compute. discriminate.
  - vm_compute. discriminate.
  - unfold rawScript.
    change (elements (field samplePayload (lit "script")))
      with [object [("speaker", str "Ana"); ("text", str "Salve.")];
            object [("speaker", str "Luis"); ("text", str "Salve, Ana.")];
            object [("speaker", str "Ana"); ("text", str "Vale.")]]%string.
    repeat (apply Forall_cons;
            [vm_compute; first [left; reflexivity | right; reflexivity]|]).
    apply Forall_nil.
Defined.




(** C9, the claim as stated fails on the empty text: [extractJSON]
    returns [null] instead of throwing. *)
Lemma extractJSON_empty_returns_null :
  noBracePair false [] = true
  /\ extractJSON (fun _ => None) [] = Normal VNull.
Proof. split; reflexivity. Qed.

Lemma extractJSON_no_brace_pair_witness :
  noBracePair false (lit "} Sorry, I cannot help with that. {") = true
  /\ extractJSON (fun _ => None) (lit "} Sorry, I cannot help with that. {")
     = Abrupt (newError (lit "No JSON object found in response."))
  /\ extractJSON (fun _ => None) [] = Normal VNull.
Proof.
  split; [vm_compute; reflexivity|]. split.
  - apply (proj1 (extractJSON_no_brace_pair (fun _ => None)
                    (lit "} Sorry, I cannot help with that. {")
                    ltac:(vm_compute; reflexivity))).
    vm_compute. discriminate.
  - apply (proj2 (extractJSON_no_brace_pair (fun _ => None) [] ltac:(reflexivity))).
    reflexivity.
Defined.

Lemma imagesStage_skips_undescribed_witness :
  characters forumScenario = [ana] ++ luis :: []
  /\ hasDescription luis = false
  /\ (let '(merged, w', requests) := imagesStage oneImage true forumScenario 0%nat in
      let '(cs1, w1, r1) := updateCharacters oneImage (context forumScenario) [ana] 0%nat in
      let '(cs2, w2, r2) := updateCharacters oneImage (context forumScenario) [] w1 in
      characters merged = cs1 ++ luis :: cs2
      /\ w' = w2
      /\ requests = r1 ++ r2
      /\ requests
         = map (fun c => (match visualDescription c with Some d => d | None => [] end,
                          context forumScenario))
               (filter hasDescription (characters forumScenario))).
Proof.
  split; [reflexivity|]. split; [reflexivity|].
  apply (imagesStage_skips_undescribed nat oneImage forumScenario [ana] luis [] 0%nat);
    reflexivity.
Defined.

(** The avatar stage on the sample scenario: one request, for Ana;
    Luis, whose description is empty, is returned as he was. *)
Lemma imagesStage_forumScenario :
  imagesStage oneImage true forumScenario 0%nat
  = ({| context := context forumScenario; accentProfile := accentProfile forumScenario;
        characters :=
          [ {| name := lit "Ana"; gender := lit "female"; voice := lit "Kore";
               visualDescription := Some (lit "A weaver in a blue stola."); bio := None;
               avatarUrl := Some (lit "data:image/png;base64,iVBORw0KGgo=") |};
            luis ];
        script := script forumScenario; sources := [] |},
     1%nat,
     [(lit "A weaver in a blue stola.", lit "The forum at dawn.")]).
Proof. vm_compute. reflexivity. Qed.

(* ================================================================== *)
(** * Further properties *)
(* ================================================================== *)

(** ** The retry executor: budget and schedule *)

Lemma backoff_S delay n : backoff delay (S n) = delay :: backoff (delay * 2) n.
Proof.
  unfold backoff. cbn [seq map]. f_equal; [cbn; lia|].
  rewrite <- seq_shift, map_map. apply map_ext. intros i.
  rewrite Nat2Z.inj_succ, Z.pow_succ_r by lia. lia.
Qed.

Section RetryBudget.

Variables World T : Type.
Variable operation : World -> completion T * World.


(** X2.  For delays on which doubling is exact, when each of the
    [retries + 1] calls of a run fails with the quota signature,
    [withRetry] uses its whole budget: the run is a call followed by
    [retries] rounds of a sleep and a call, with the sleeps [delay],
    [2 * delay], ... in that order, and it ends with the failure and
    the world of the last of these calls. *)
Theorem withRetry_exhausted retries : forall delay w,
  exactDelays delay retries ->
  (forall i, (i <= retries)%nat ->
     exists e, fst (operation (afterCalls operation i w)) = Abrupt e
               /\ quotaPattern e = true) ->
  withRetry operation retries delay w
  = (fst (operation (afterCalls operation retries w)),
     snd (operation (afterCalls operation retries w)),
     retryTrace delay retries).
Proof.
  induction retries as [|retries IH]; intros delay w Hd Hq.
  - destruct (Hq 0%nat (Nat.le_refl _)) as (e & He & Hp). cbn [afterCalls] in *.
    apply (proj1 (quotaPattern_isQuotaError e)) in Hp.
    cbn [withRetry]. destruct (operation w) as [r w']. cbn [fst snd] in *. subst r.
    rewrite Hp. reflexivity.
  - destruct (Hq 0%nat (Nat.le_0_l _)) as (e & He & Hp). cbn [afterCalls] in He.
    apply (proj1 (quotaPattern_isQuotaError e)) in Hp.
    cbn [withRetry afterCalls]. destruct (operation w) as [r w'] eqn:Eop.
    cbn [fst snd] in *. subst r. rewrite Hp.
    rewrite (IH (delay * 2)%Z w').
    + unfold retryTrace. rewrite backoff_S. reflexivity.
    + destruct Hd as [H0 Hmax]. split; [lia|].
      rewrite Nat2Z.inj_succ, Z.pow_succ_r in Hmax by lia. lia.
    + intros i Hi. specialize (Hq (S i) ltac:(lia)). cbn [afterCalls] in Hq.
      rewrite Eop in Hq. exact Hq.
Qed.


End RetryBudget.


Lemma withRetry_exhausted_witness :
  withRetry quotaAlways MAX_RETRIES INITIAL_DELAY_MS 0%nat
  = (fst (quotaAlways (afterCalls quotaAlways MAX_RETRIES 0%nat)),
     snd (quotaAlways (afterCalls quotaAlways MAX_RETRIES 0%nat)),
     retryTrace INITIAL_DELAY_MS MAX_RETRIES).
Proof.
  apply (withRetry_exhausted nat nat quotaAlways MAX_RETRIES INITIAL_DELAY_MS 0%nat).
  - unfold exactDelays, MAX_RETRIES, INITIAL_DELAY_MS. simpl. lia.
  - intros i Hi. exists (newError (lit "RESOURCE_EXHAUSTED")).
    split; [reflexivity | vm_compute; reflexivity].
Defined.

(** The run of [withRetry_exhausted_witness], written out. *)
Lemma withRetry_quotaAlways :
  withRetry quotaAlways MAX_RETRIES INITIAL_DELAY_MS 0%nat
  = (Abrupt (newError (lit "RESOURCE_EXHAUSTED")), 4%nat,
     [Called; Slept 2000; Called; Slept 4000; Called; Slept 8000; Called]).
Proof. vm_compute. reflexivity. Qed.


(* ------------------------------------------------------------------ *)
(** ** The transcript of the dialogue *)

Lemma trimStart_nil_white s : trimStart s = [] -> Forall (fun c => isWhiteSpace c = true) s.
Proof.
  induction s as [|c s IH]; cbn [trimStart]; intros H; [constructor|].
  destruct (isWhiteSpace c) eqn:E; [|discriminate]. constructor; auto.
Qed.

Lemma trim_nil_white s : trim s = [] -> Forall (fun c => isWhiteSpace c = true) s.
Proof.
  unfold trim, trimEnd. intros H.
  apply (f_equal (@rev N)) in H. rewrite rev_involutive in H. cbn [rev] in H.
  apply trimStart_nil_white in H. apply Forall_rev in H. rewrite rev_involutive in H.
  pose proof (trimStart_headOk s) as Hh.
  destruct (trimStart s) as [|c t] eqn:E; [now apply trimStart_nil_white|].
  cbn [headOk] in Hh. inversion H as [|? ? Hc _]; subst. rewrite Hc in Hh. discriminate.
Qed.

Lemma white_trim_nil s : Forall (fun c => isWhiteSpace c = true) s -> trim s = [].
Proof.
  intros H. unfold trim.
  assert (E : trimStart s = []).
  { induction H as [|c s Hc _ IH]; [reflexivity|]. cbn [trimStart]. now rewrite Hc. }
  rewrite E. reflexivity.
Qed.

Lemma trim_head_not_white s c t : trim s = c :: t -> isWhiteSpace c = false.
Proof.
  intros E. pose proof (trim_trimmed s) as H. rewrite E in H.
  unfold trimmed in H. apply andb_true_iff in H as [H _]. cbn [headOk] in H.
  now apply negb_true_iff in H.
Qed.

Lemma renderDialogue_from (m : list (jsstring * jsstring)) (b : bool)
      (lines : list DialogueLine) : forall acc,
  fold_left
    (fun dialogueText line =>
       let safeName :=
         match ownGet m (speaker line) with
         | Some n => if truthy (VStr n) then n else safeNameOf 0
         | None => safeNameOf 0
         end in
       let textContent := if b then translation line else text line in
       let cleanText := trim (stripActions None textContent) in
       if truthy (VStr cleanText)
       then dialogueText ++ safeName ++ lit ": " ++ cleanText ++ [10%N]
       else dialogueText)
    lines acc
  = acc ++ renderDialogue m b lines.
Proof.
  unfold renderDialogue.
  induction lines as [|line lines IH]; intros acc; cbn [fold_left].
  - now rewrite app_nil_r.
  - rewrite IH. symmetry. rewrite IH. cbn [app].
    destruct (truthy _); [|reflexivity]. now rewrite app_assoc.
Qed.

Lemma renderDialogue_cons m b line lines :
  renderDialogue m b (line :: lines)
  = (if truthy (VStr (cleanLine b line))
     then (match ownGet m (speaker line) with
           | Some n => if truthy (VStr n) then n else safeNameOf 0
           | None => safeNameOf 0
           end) ++ lit ": " ++ cleanLine b line ++ [10%N]
     else [])
    ++ renderDialogue m b lines.
Proof.
  unfold renderDialogue at 1. cbn [fold_left]. rewrite renderDialogue_from.
  unfold cleanLine. cbn [app]. destruct (truthy _); reflexivity.
Qed.

Lemma renderDialogue_blank m useTranslation lines :
  Forall (fun line => cleanLine useTranslation line = []) lines ->
  trim (renderDialogue m useTranslation lines) = [].
Proof.
  intros H. apply white_trim_nil.
  induction H as [|line lines Hl _ IH]; [constructor|].
  rewrite renderDialogue_cons, Hl. exact IH.
Qed.

(** X4.  The transcript is blank exactly when every line of the script
    is empty once its actions are removed and it is trimmed: lines that
    clean to nothing are left out, and any other line puts a
    non-blank character into the transcript. *)
Theorem renderDialogue_blank_iff m useTranslation lines :
  trim (renderDialogue m useTranslation lines) = []
  <-> Forall (fun line => cleanLine useTranslation line = []) lines.
Proof.
  split; [|apply renderDialogue_blank].
  intros H. apply trim_nil_white in H.
  induction lines as [|line lines IH]; [constructor|].
  rewrite renderDialogue_cons in H. apply Forall_app in H as [H1 H2].
  constructor; [|auto].
  destruct (cleanLine useTranslation line) as [|c t] eqn:E; [reflexivity|].
  exfalso. cbn [truthy str_eqb negb] in H1.
  apply Forall_app in H1 as [_ H1]. apply Forall_app in H1 as [_ H1].
  cbn [app] in H1. inversion H1 as [|? ? Hc _]; subst.
  unfold cleanLine in E. apply trim_head_not_white in E. congruence.
Qed.

Section Transcript.

Variables World AudioBuffer : Type.
Variable speechService :
  jsstring -> list (jsstring * jsstring) -> World -> completion SpeechResponse * World.
Variable decodeAudio : jsstring -> World -> completion AudioBuffer * World.

(** X5.  When every line of the script cleans to nothing in the
    original language and in translation, both attempts fail before
    any service is called: the world is unchanged and the error is
    [Audio generation failed: Dialogue text is empty.] *)
Theorem generateDialogueAudio_silent scenario w :
  Forall (fun line => cleanLine false line = [] /\ cleanLine true line = [])
         (script scenario) ->
  generateDialogueAudio speechService decodeAudio scenario w
  = (Abrupt (newError (lit "Audio generation failed: Dialogue text is empty.")), w,
     [false; true]).
Proof.
  intros H.
  assert (Hp : forall b, performGeneration speechService decodeAudio scenario b w
                         = (Abrupt (newError (lit "Dialogue text is empty.")), w)).
  { intros b. unfold performGeneration.
    assert (E : trim (renderDialogue (charToSafeNameFrom 0 (characters scenario) []) b
                        (script scenario)) = []).
    { apply renderDialogue_blank. eapply Forall_impl; [|exact H].
      intros line [H1 H2]. destruct b; assumption. }
    rewrite E. reflexivity. }
  unfold generateDialogueAudio. rewrite !Hp. reflexivity.
Qed.

End Transcript.

Lemma generateDialogueAudio_silent_witness :
  generateDialogueAudio muteSpeech identityDecoder silentScenario 0%nat
  = (Abrupt (newError (lit "Audio generation failed: Dialogue text is empty.")), 0%nat,
     [false; true]).
Proof.
  apply (generateDialogueAudio_silent nat jsstring muteSpeech identityDecoder silentScenario 0%nat).
  cbn [silentScenario script]. apply Forall_cons; [|apply Forall_nil].
  split; vm_compute; reflexivity.
Defined.

(** *** Speaker tags *)

Lemma charToSafeNameFrom_absent chars : forall index m n,
  (forall c, In c chars -> name c <> n) ->
  ownGet (charToSafeNameFrom index chars m) n = ownGet m n.
Proof.
  induction chars as [|c chars IH]; intros index m n H; cbn [charToSafeNameFrom]; [reflexivity|].
  rewrite IH by (intros c' Hc'; apply H; now right).
  apply ownGet_ownSet_neq. apply H. now left.
Qed.

Lemma charToSafeNameFrom_last chars : forall index m i c,
  nth_error chars i = Some c ->
  (forall j c', (i < j)%nat -> nth_error chars j = Some c' -> name c' <> name c) ->
  ownGet (charToSafeNameFrom index chars m) (name c) = Some (safeNameOf (index + i)).
Proof.
  induction chars as [|c0 chars IH]; intros index m i c Hi Hlast; [destruct i; discriminate|].
  cbn [charToSafeNameFrom]. destruct i as [|i]; cbn [nth_error] in Hi.
  - injection Hi as ->. rewrite charToSafeNameFrom_absent.
    + rewrite Nat.add_0_r. apply ownGet_ownSet_eq.
    + intros c' Hin. apply In_nth_error in Hin as [j Hj].
      apply (Hlast (S j)); [lia | exact Hj].
  - replace (index + S i)%nat with (S index + i)%nat by lia.
    apply IH; [exact Hi|].
    intros j c' Hlt Hj. apply (Hlast (S j)); [lia | exact Hj].
Qed.

Lemma speakerVoiceConfigsFrom_nth chars : forall index i c,
  nth_error chars i = Some c ->
  nth_error (speakerVoiceConfigsFrom index chars) i = Some (safeNameOf (index + i), voice c).
Proof.
  induction chars as [|c0 chars IH]; intros index i c Hi; [destruct i; discriminate|].
  cbn [speakerVoiceConfigsFrom]. destruct i as [|i]; cbn [nth_error] in *.
  - injection Hi as ->. now rewrite Nat.add_0_r.
  - replace (index + S i)%nat with (S index + i)%nat by lia. now apply IH.
Qed.

(** X6.  A line is tagged through the name of its speaker, and a name
    stands for the last character that bears it: the lines of the
    character at position [i] carry the tag of the [i]-th voice
    configuration, which holds that character's voice, provided no later
    character has the same name; a speaker that is no character's name
    is tagged [Speaker A]. *)
Theorem transcript_tags chars :
  (forall i c,
      nth_error chars i = Some c ->
      (forall j c', (i < j)%nat -> nth_error chars j = Some c' -> name c' <> name c) ->
      ownGet (charToSafeNameFrom 0 chars []) (name c) = Some (safeNameOf i)
      /\ nth_error (speakerVoiceConfigsFrom 0 chars) i = Some (safeNameOf i, voice c))
  /\ (forall n line lines useTranslation,
        (forall c, In c chars -> name c <> n) ->
        speaker line = n ->
        cleanLine useTranslation line <> [] ->
        renderDialogue (charToSafeNameFrom 0 chars []) useTranslation (line :: lines)
        = lit "Speaker A: " ++ cleanLine useTranslation line ++ [10%N]
          ++ renderDialogue (charToSafeNameFrom 0 chars []) useTranslation lines).
Proof.
  split.
  - intros i c Hi Hlast. split.
    + apply (charToSafeNameFrom_last chars 0 [] i c Hi Hlast).
    + apply (speakerVoiceConfigsFrom_nth chars 0 i c Hi).
  - intros n line lines b Habs Hs Hne.
    rewrite renderDialogue_cons, Hs, (charToSafeNameFrom_absent chars 0 [] n Habs).
    rewrite (truthy_name _ Hne). cbn [ownGet].
    change (lit "Speaker A: ") with (safeNameOf 0 ++ lit ": ").
    now rewrite <- !app_assoc.
Qed.

Lemma transcript_tags_witness :
  ownGet (charToSafeNameFrom 0 [ana; luis; anaTwin] []) (name anaTwin) = Some (safeNameOf 2)
  /\ nth_error (speakerVoiceConfigsFrom 0 [ana; luis; anaTwin]) 2
     = Some (safeNameOf 2, voice anaTwin).
Proof.
  apply (proj1 (transcript_tags [ana; luis; anaTwin]) 2%nat anaTwin).
  - reflexivity.
  - intros j c' Hlt Hj. destruct j as [|[|[|j]]]; try lia.
    destruct j; discriminate Hj.
Defined.

(** *** Stage directions *)

Lemma stripActions_pending_star_free run s : forall pending,
  starFree s -> pending = Some run ->
  stripActions pending s = star :: rev run ++ s.
Proof.
  revert run. induction s as [|c s IH]; intros run pending Hs ->; cbn [stripActions].
  - now rewrite app_nil_r.
  - inversion Hs as [|? ? Hc Hs']; subst.
    apply N.eqb_neq in Hc. rewrite Hc.
    rewrite (IH (c :: run) (Some (c :: run)) Hs' eq_refl). cbn [rev]. now rewrite <- app_assoc.
Qed.

Lemma stripActions_pending_subseq s : forall run,
  subseq (stripActions (Some run) s) (star :: rev run ++ s)
  /\ subseq (stripActions None s) s.
Proof.
  induction s as [|c s IH]; intros run; cbn [stripActions].
  - rewrite app_nil_r. split; [apply subseq_refl | apply subseq_nil].
  - split.
    + destruct (c =? star)%N eqn:E.
      * apply N.eqb_eq in E. subst c. destruct run as [|r run].
        -- cbn [rev app]. apply subseq_keep. apply (proj1 (IH [])).
        -- apply subseq_skip. eapply subseq_trans; [apply (proj2 (IH []))|].
           eapply subseq_trans; [apply subseq_skip, subseq_refl|]. apply subseq_app_l.
      * replace (rev run ++ c :: s) with (rev (c :: run) ++ s)
          by (cbn [rev]; now rewrite <- app_assoc).
        apply (proj1 (IH (c :: run))).
    + destruct (c =? star)%N eqn:E.
      * apply N.eqb_eq in E. subst c. apply (proj1 (IH [])).
      * apply subseq_keep. apply (proj2 (IH [])).
Qed.

(** X7.  Removing the actions only deletes characters, and a text
    without asterisk is left as it is. *)
Theorem stripActions_deletes_only s :
  subseq (stripActions None s) s
  /\ (starFree s -> stripActions None s = s).
Proof.
  split; [apply (proj2 (stripActions_pending_subseq s [])) |].
  induction 1 as [|c s Hc _ IH]; cbn [stripActions]; [reflexivity|].
  apply N.eqb_neq in Hc. rewrite Hc. now rewrite IH.
Qed.

(** X8.  An action, that is a non-empty run without asterisk between
    two asterisks, is removed together with its asterisks when the text
    before it has no asterisk; the text after it is cleaned on its own.
    Two asterisks with nothing between them are not an action: the
    first is kept and the second may open one. *)
Theorem stripActions_action before run after :
  starFree before -> starFree run -> run <> [] ->
  stripActions None (before ++ star :: run ++ star :: after)
  = before ++ stripActions None after
  /\ stripActions None (before ++ star :: star :: run ++ star :: after)
     = before ++ star :: stripActions None after.
Proof.
  intros Hb Hr Hne.
  assert (Hrun : forall pending acc,
             pending = Some acc -> (acc <> [] \/ run <> []) ->
             stripActions pending (run ++ star :: after) = stripActions None after).
  { clear Hne. induction Hr as [|c run Hc _ IH]; intros pending acc -> Hor; cbn [app stripActions].
    - rewrite N.eqb_refl. destruct acc; [destruct Hor; congruence | reflexivity].
    - apply N.eqb_neq in Hc. rewrite Hc. apply (IH _ (c :: acc) eq_refl). left. discriminate. }
  induction Hb as [|c before Hc _ IH]; cbn [app stripActions].
  - rewrite !N.eqb_refl. split.
    + apply (Hrun _ [] eq_refl). now right.
    + f_equal. apply (Hrun _ [] eq_refl). now right.
  - apply N.eqb_neq in Hc. rewrite Hc. destruct IH as [IH1 IH2]. split; f_equal; assumption.
Qed.

Lemma stripActions_action_witness :
  stripActions None (lit "Salve. " ++ star :: lit "ridet" ++ star :: lit " Vale.")
  = lit "Salve. " ++ stripActions None (lit " Vale.")
  /\ stripActions None (lit "Salve. " ++ star :: star :: lit "ridet" ++ star :: lit " Vale.")
     = lit "Salve. " ++ star :: stripActions None (lit " Vale.").
Proof.
  apply (stripActions_action (lit "Salve. ") (lit "ridet") (lit " Vale.")).
  - unfold starFree. vm_compute. repeat (apply Forall_cons; [discriminate|]). apply Forall_nil.
  - unfold starFree. vm_compute. repeat (apply Forall_cons; [discriminate|]). apply Forall_nil.
  - discriminate.
Defined.

(* ------------------------------------------------------------------ *)
(** ** What the avatar stage keeps and what it writes *)

Lemma firstImage_dataUrl ps u : firstImage ps = Some u -> isDataUrl u.
Proof.
  induction ps as [|[data|] ps IH]; cbn [firstImage]; [discriminate| |exact IH].
  intros H. injection H as <-. eexists. reflexivity.
Qed.

Section AvatarFrame.

Variable World : Type.
Variable imageService : jsstring -> World -> completion (list ImagePart) * World.

Lemma generateCharacterAvatar_dataUrl description context w :
  fst (generateCharacterAvatar imageService description context w) = None
  \/ exists u, fst (generateCharacterAvatar imageService description context w) = Some u
               /\ isDataUrl u /\ truthy (VStr u) = true.
Proof.
  unfold generateCharacterAvatar.
  destruct (withRetry _ _ _ _) as [[[ps|e] w'] events]; cbn [fst]; [|now left].
  destruct (firstImage ps) as [u|] eqn:E; [right | now left].
  exists u. split; [reflexivity|]. pose proof (firstImage_dataUrl _ _ E) as Hu.
  split; [exact Hu|]. destruct Hu as [data ->]. reflexivity.
Qed.

(** X9.  [generateCharacterAvatar] never fails: whatever the image
    service does, the result is [null] or a PNG data URL; it is [null]
    when the service call is rejected, and the URL of the first part
    with inline data otherwise. *)
Theorem generateCharacterAvatar_result description context w :
  (fst (generateCharacterAvatar imageService description context w) = None
   \/ exists u, fst (generateCharacterAvatar imageService description context w) = Some u
                /\ isDataUrl u /\ truthy (VStr u) = true)
  /\ (forall e w' events,
        withRetry (imageService (avatarPrompt description context)) 2 INITIAL_DELAY_MS w
        = (Abrupt e, w', events) ->
        generateCharacterAvatar imageService description context w = (None, w'))
  /\ (forall ps1 data ps2 w' events,
        withRetry (imageService (avatarPrompt description context)) 2 INITIAL_DELAY_MS w
        = (Normal (ps1 ++ Some data :: ps2), w', events) ->
        Forall (fun p => p = None) ps1 ->
        generateCharacterAvatar imageService description context w
        = (Some (lit "data:image/png;base64,"
                 ++ match data with Some d => d | None => lit "undefined" end), w')).
Proof.
  split; [apply generateCharacterAvatar_dataUrl|]. unfold generateCharacterAvatar. split.
  - intros e w' events ->. reflexivity.
  - intros ps1 data ps2 w' events -> Hnone. f_equal.
    induction Hnone as [|p ps1 -> _ IH]; cbn [app firstImage]; [reflexivity | exact IH].
Qed.

Lemma updateCharacter_identity context char w :
  sameIdentity char (fst (fst (updateCharacter imageService context char w)))
  /\ (hasDescription char = false
      -> fst (fst (updateCharacter imageService context char w)) = char)
  /\ (hasDescription char = true
      -> avatarUrl (fst (fst (updateCharacter imageService context char w))) = None
         \/ exists u, avatarUrl (fst (fst (updateCharacter imageService context char w))) = Some u
                      /\ isDataUrl u).
Proof.
  destruct (hasDescription char) eqn:Hd.
  - destruct (updateCharacter_with _ imageService context char w Hd)
      as (d & url & w' & Hv & Hg & Hu).
    rewrite Hu. cbn [fst avatarUrl]. split; [|split; [discriminate|]].
    + unfold sameIdentity. cbn. auto.
    + intros _. destruct (generateCharacterAvatar_dataUrl d context w) as [Hn|(u & Hs & Hdu & Ht)];
        rewrite Hg in *; cbn [fst] in *.
      * subst url. now left.
      * subst url. rewrite Ht. right. eauto.
  - rewrite (updateCharacter_without _ imageService context char w Hd). cbn [fst].
    split; [|split; [reflexivity | discriminate]].
    unfold sameIdentity. auto.
Qed.

(** X10.  The avatar stage changes nothing but [avatarUrl]: the
    context, accent profile, script and sources of the scenario are
    kept, and the characters are the same in number and order, each
    with its name, gender, voice, description and biography.  A
    character without non-empty description is kept whole; with image
    generation on, a character with one ends up with a PNG data URL or
    without avatar, whatever its [avatarUrl] was. *)
Theorem imagesStage_frame generateImages scenarioData w :
  let merged := fst (fst (imagesStage imageService generateImages scenarioData w)) in
  context merged = context scenarioData
  /\ accentProfile merged = accentProfile scenarioData
  /\ script merged = script scenarioData
  /\ sources merged = sources scenarioData
  /\ Forall2 (fun c c' =>
                sameIdentity c c'
                /\ (hasDescription c = false -> c' = c)
                /\ (generateImages = true -> hasDescription c = true ->
                    avatarUrl c' = None \/ exists u, avatarUrl c' = Some u /\ isDataUrl u))
             (characters scenarioData) (characters merged).
Proof.
  unfold imagesStage. destruct generateImages; cbn [negb].
  - destruct (updateCharacters imageService (context scenarioData)
                (characters scenarioData) w) as [[updated w'] requests] eqn:E.
    cbn [fst context accentProfile script sources characters].
    repeat (split; [reflexivity|]).
    revert w updated w' requests E.
    induction (characters scenarioData) as [|c cs IH]; intros w updated w' requests E;
      cbn [updateCharacters] in E.
    + injection E as <- _ _. constructor.
    + pose proof (updateCharacter_identity (context scenarioData) c w) as (Hi & Hk & Hu).
      destruct (updateCharacter imageService (context scenarioData) c w) as [[c' w1] r1].
      destruct (updateCharacters imageService (context scenarioData) cs w1)
        as [[rest' w2] r2] eqn:E2.
      injection E as <- _ _. cbn [fst] in *. constructor; [|eapply IH; exact E2].
      split; [exact Hi|]. split; [exact Hk|]. intros _. exact Hu.
  - cbn [fst]. repeat (split; [reflexivity|]).
    induction (characters scenarioData) as [|c cs IH]; constructor; [|exact IH].
    split; [unfold sameIdentity; auto|]. split; [reflexivity | discriminate].
Qed.

End AvatarFrame.

Lemma generateCharacterAvatar_result_witness :
  generateCharacterAvatar noImage (lit "A weaver in a blue stola.") (lit "The forum at dawn.")
                          0%nat
  = (None, 3%nat).
Proof.
  apply (proj1 (proj2 (generateCharacterAvatar_result nat noImage
                         (lit "A weaver in a blue stola.") (lit "The forum at dawn.") 0%nat))
           (newError (lit "429 Too Many Requests")) 3%nat
           [Called; Slept 2000; Called; Slept 4000; Called]).
  vm_compute. reflexivity.
Defined.

(* ------------------------------------------------------------------ *)
(** ** A JSON object inside prose and code fences *)

Lemma without_subseq c t s : subseq t s -> without c s -> without c t.
Proof.
  unfold without. induction 1 as [|x t s H IH|x t s H IH]; intros Hs.
  - constructor.
  - inversion Hs; subst. auto.
  - inversion Hs; subst. constructor; auto.
Qed.

Lemma skipn_length_app {A : Type} (a b : list A) : skipn (List.length a) (a ++ b) = b.
Proof. induction a as [|x a IH]; [reflexivity | exact IH]. Qed.

Lemma firstn_length_app {A : Type} (a b : list A) : firstn (List.length a) (a ++ b) = a.
Proof. induction a as [|x a IH]; cbn [List.length app firstn]; [now destruct b | now rewrite IH]. Qed.

Lemma indexOf_app_absent c a r :
  without c a -> indexOf c (a ++ c :: r) = Z.of_nat (List.length a).
Proof.
  induction 1 as [|x a Hx _ IH]; cbn [app indexOf List.length].
  - now rewrite N.eqb_refl.
  - apply N.eqb_neq in Hx. rewrite Hx, IH.
    destruct (Z.of_nat (List.length a) =? -1)%Z eqn:E; [apply Z.eqb_eq in E; lia | lia].
Qed.

Lemma lastIndexOf_absent c r : without c r -> lastIndexOf c r = (-1)%Z.
Proof.
  induction 1 as [|x r Hx _ IH]; cbn [lastIndexOf]; [reflexivity|].
  rewrite IH. apply N.eqb_neq in Hx. now rewrite Hx.
Qed.

Lemma lastIndexOf_app_absent c a r :
  without c r -> lastIndexOf c (a ++ c :: r) = Z.of_nat (List.length a).
Proof.
  intros Hr. induction a as [|x a IH]; cbn [app lastIndexOf List.length].
  - rewrite (lastIndexOf_absent c r Hr), N.eqb_refl. reflexivity.
  - rewrite IH.
    destruct (Z.of_nat (List.length a) =? -1)%Z eqn:E; [apply Z.eqb_eq in E; lia | lia].
Qed.

Lemma trimStart_app_head a c r :
  isWhiteSpace c = false -> trimStart (a ++ c :: r) = trimStart a ++ c :: r.
Proof.
  intros Hc. induction a as [|x a IH]; cbn [app trimStart].
  - now rewrite Hc.
  - destruct (isWhiteSpace x); [exact IH | reflexivity].
Qed.

Lemma trimEnd_app_last a c r :
  isWhiteSpace c = false -> trimEnd (a ++ c :: r) = a ++ c :: trimEnd r.
Proof.
  intros Hc. unfold trimEnd. rewrite rev_app_distr. cbn [rev]. rewrite <- app_assoc.
  cbn [app]. rewrite (trimStart_app_head _ _ _ Hc).
  rewrite rev_app_distr. cbn [rev]. rewrite rev_involutive, <- app_assoc. reflexivity.
Qed.

(** A pattern that no match of which reaches into [t] is removed from
    the text before [t] as if [t] were not there. *)
Lemma removeMatches_app_local isMatch len t :
  (forall s, isMatch (s ++ t) = isMatch s) ->
  (forall s, isMatch s = true -> (len <= List.length s)%nat) ->
  forall a skip, (skip <= List.length a)%nat ->
    removeMatches isMatch len skip (a ++ t)
    = removeMatches isMatch len skip a ++ removeMatches isMatch len 0 t.
Proof.
  intros Hloc Hlen. induction a as [|c a IH]; intros skip Hskip; cbn [List.length] in Hskip.
  - replace skip with 0%nat by lia. reflexivity.
  - cbn [app removeMatches]. destruct skip as [|k]; [|apply IH; lia].
    change (c :: a ++ t) with ((c :: a) ++ t). rewrite Hloc.
    destruct (isMatch (c :: a)) eqn:E.
    + apply IH. apply Hlen in E. cbn [List.length] in E. lia.
    + cbn [app]. f_equal. apply IH. lia.
Qed.

(** A pattern that starts with a backtick leaves a text without
    backtick alone. *)
Lemma removeMatches_app_nomatch isMatch len b t :
  (forall c s, isMatch (c :: s) = true -> c = backtick) ->
  without backtick b ->
  removeMatches isMatch len 0 (b ++ t) = b ++ removeMatches isMatch len 0 t.
Proof.
  intros Hhead. induction 1 as [|c b Hc _ IH]; [reflexivity|].
  cbn [app removeMatches]. destruct (isMatch (c :: b ++ t)) eqn:E.
  - apply Hhead in E. contradiction.
  - now rewrite IH.
Qed.

Lemma fenceJsonAt_head c s : fenceJsonAt (c :: s) = true -> c = backtick.
Proof.
  destruct s as [|b2 [|b3 [|j [|s' [|o [|n r]]]]]]; cbn [fenceJsonAt]; try discriminate.
  intros H. repeat (apply andb_true_iff in H as [H _]). now apply N.eqb_eq in H.
Qed.

Lemma fenceAt_head c s : fenceAt (c :: s) = true -> c = backtick.
Proof.
  unfold fenceAt. change (lit "```") with [96; 96; 96]%N. cbn [startsWith].
  intros H. apply andb_true_iff in H as [H _].
  apply N.eqb_eq in H. now subst.
Qed.

Lemma fenceJsonAt_length s : fenceJsonAt s = true -> (7 <= List.length s)%nat.
Proof.
  destruct s as [|b1 [|b2 [|b3 [|j [|s' [|o [|n r]]]]]]]; cbn [fenceJsonAt]; try discriminate.
  intros _. cbn [List.length]. lia.
Qed.

Lemma fenceAt_length s : fenceAt s = true -> (3 <= List.length s)%nat.
Proof.
  unfold fenceAt. change (lit "```") with [96; 96; 96]%N.
  destruct s as [|b1 [|b2 [|b3 r]]]; cbn [startsWith List.length]; try discriminate.
  - destruct (96 =? b1)%N; discriminate.
  - destruct (96 =? b1)%N, (96 =? b2)%N; discriminate.
  - intros _. lia.
Qed.

Lemma fenceJsonAt_local s r : fenceJsonAt (s ++ openBrace :: r) = fenceJsonAt s.
Proof.
  destruct s as [|b1 [|b2 [|b3 [|j [|s' [|o [|n t]]]]]]]; cbn [app fenceJsonAt];
    try reflexivity;
    destruct r as [|r1 [|r2 [|r3 [|r4 [|r5 [|r6 r]]]]]]; cbn [fenceJsonAt]; try reflexivity;
    unfold openBrace, eqIgnoreCase;
    repeat match goal with
           | |- context [(?x =? ?y)%N] =>
               is_var x; destruct (x =? y)%N; cbn [andb orb]; try reflexivity
           end.
Qed.

Lemma fenceAt_local s r : fenceAt (s ++ openBrace :: r) = fenceAt s.
Proof.
  unfold fenceAt. change (lit "```") with [96; 96; 96]%N.
  destruct s as [|b1 [|b2 [|b3 t]]]; cbn [app startsWith]; rewrite ?startsWith_nil;
    reflexivity.
Qed.

(** Each of the two fence removals leaves [a ++ openBrace :: b ++ t]
    with its middle part in place when [b] has no backtick. *)
Lemma removeFence_around isMatch len a b t :
  (forall s r, isMatch (s ++ openBrace :: r) = isMatch s) ->
  (forall s, isMatch s = true -> (len <= List.length s)%nat) ->
  (forall c s, isMatch (c :: s) = true -> c = backtick) ->
  without backtick b ->
  removeMatches isMatch len 0 (a ++ openBrace :: b ++ t)
  = removeMatches isMatch len 0 a ++ openBrace :: b ++ removeMatches isMatch len 0 t.
Proof.
  intros Hloc Hlen Hhead Hb.
  rewrite (removeMatches_app_local isMatch len (openBrace :: b ++ t)
             (fun s => Hloc s (b ++ t)) Hlen a 0%nat (Nat.le_0_l _)).
  f_equal.
  change (openBrace :: b ++ t) with ((openBrace :: b) ++ t).
  apply removeMatches_app_nomatch; [exact Hhead|].
  constructor; [discriminate | exact Hb].
Qed.

Ltac reassoc := repeat (rewrite <- app_assoc); cbn [app]; repeat (rewrite <- app_assoc); reflexivity.

Section ExtractWrapped.

Variable JSON_parse : jsstring -> option Value.

(** X11.  A JSON object surrounded by prose and code fences is found:
    when the text before the first opening brace has none, the text
    after the last closing brace has none, and there is no backtick
    between them, [extractJSON] hands exactly the text from brace to
    brace to the parser, and its result is the parser's result for
    that text, for the text without control characters if the first
    parse fails, and the error [Model returned invalid JSON format.] if
    both fail. *)
Theorem extractJSON_wrapped before inner after :
  without openBrace before -> without backtick inner -> without closeBrace after ->
  extractJSON JSON_parse (before ++ openBrace :: inner ++ closeBrace :: after)
  = parseCandidate JSON_parse (openBrace :: inner ++ [closeBrace]).
Proof.
  intros Hb Hi Ha. unfold extractJSON.
  rewrite truthy_name by (destruct before; discriminate). cbn [negb].
  assert (Ht : trim (before ++ openBrace :: inner ++ closeBrace :: after)
               = trimStart before ++ openBrace :: inner ++ closeBrace :: trimEnd after).
  { unfold trim. rewrite trimStart_app_head by reflexivity.
    replace (trimStart before ++ openBrace :: inner ++ closeBrace :: after)
      with ((trimStart before ++ openBrace :: inner) ++ closeBrace :: after)
      by reassoc.
    rewrite trimEnd_app_last by reflexivity. now rewrite <- app_assoc. }
  rewrite Ht.
  assert (Hi' : without backtick (inner ++ [closeBrace])).
  { apply Forall_app. split; [exact Hi|]. constructor; [discriminate | constructor]. }
  replace (inner ++ closeBrace :: trimEnd after)
    with ((inner ++ [closeBrace]) ++ trimEnd after) by reassoc.
  rewrite (removeFence_around fenceJsonAt 7 _ _ _
             fenceJsonAt_local fenceJsonAt_length fenceJsonAt_head Hi').
  rewrite (removeFence_around fenceAt 3 _ _ _
             fenceAt_local fenceAt_length fenceAt_head Hi').
  set (a := removeMatches fenceAt 3 0 (removeMatches fenceJsonAt 7 0 (trimStart before))).
  set (z := removeMatches fenceAt 3 0 (removeMatches fenceJsonAt 7 0 (trimEnd after))).
  assert (Hna : without openBrace a).
  { apply (without_subseq _ a before); [|exact Hb]. unfold a.
    eapply subseq_trans; [apply removeMatches_subseq|].
    eapply subseq_trans; [apply removeMatches_subseq | apply trimStart_subseq]. }
  assert (Hnz : without closeBrace z).
  { apply (without_subseq _ z after); [|exact Ha]. unfold z.
    eapply subseq_trans; [apply removeMatches_subseq|].
    eapply subseq_trans; [apply removeMatches_subseq | apply trimEnd_subseq]. }
  rewrite (indexOf_app_absent openBrace a _ Hna).
  replace (a ++ openBrace :: (inner ++ [closeBrace]) ++ z)
    with ((a ++ openBrace :: inner) ++ closeBrace :: z)
    by reassoc.
  rewrite (lastIndexOf_app_absent closeBrace _ z Hnz).
  rewrite length_app. cbn [List.length].
  destruct (negb (Z.of_nat (List.length a) =? -1)%Z
            && negb (Z.of_nat (List.length a + S (List.length inner)) =? -1)%Z
            && (Z.of_nat (List.length a) <? Z.of_nat (List.length a + S (List.length inner)))%Z)
    eqn:E.
  - unfold substring.
    replace (Z.to_nat (Z.of_nat (List.length a + S (List.length inner)) + 1
                       - Z.of_nat (List.length a)))
      with (List.length (openBrace :: inner ++ [closeBrace]))
      by (cbn [List.length]; rewrite length_app; cbn [List.length]; lia).
    rewrite Nat2Z.id, <- app_assoc, skipn_length_app.
    replace ((openBrace :: inner) ++ closeBrace :: z)
      with ((openBrace :: inner ++ [closeBrace]) ++ z)
      by reassoc.
    rewrite firstn_length_app. reflexivity.
  - exfalso. apply andb_false_iff in E as [E|E].
    + apply andb_false_iff in E as [E|E]; apply negb_false_iff, Z.eqb_eq in E; lia.
    + apply Z.ltb_ge in E. lia.
Qed.

End ExtractWrapped.

Lemma extractJSON_wrapped_witness :
  extractJSON emptyObjectParser
    (lit "Here it is: ```json " ++ openBrace :: [] ++ closeBrace :: lit " ``` Enjoy!")
  = parseCandidate emptyObjectParser (openBrace :: [] ++ [closeBrace]).
Proof.
  apply (extractJSON_wrapped emptyObjectParser (lit "Here it is: ```json ") []
           (lit " ``` Enjoy!")).
  - unfold without. vm_compute. repeat (apply Forall_cons; [discriminate|]). apply Forall_nil.
  - apply Forall_nil.
  - unfold without. vm_compute. repeat (apply Forall_cons; [discriminate|]). apply Forall_nil.
Defined.

Lemma substring_between (s : jsstring) a b x y :
  nth_error s a = Some x -> nth_error s b = Some y -> (a < b)%nat ->
  exists before inner after,
    s = before ++ x :: inner ++ y :: after
    /\ firstn (b + 1 - a) (skipn a s) = x :: inner ++ [y].
Proof.
  intros Ha Hb Hlt.
  destruct (nth_error_split s a Ha) as (l1 & l2 & Hs & Hl1).
  subst s. rewrite nth_error_app2 in Hb by lia.
  rewrite Hl1 in Hb. replace (b - a)%nat with (S (b - a - 1)) in Hb by lia.
  cbn [nth_error] in Hb.
  destruct (nth_error_split l2 (b - a - 1) Hb) as (m1 & m2 & Hl2 & Hm1).
  subst l2. exists l1, m1, m2. split; [reflexivity|].
  rewrite <- Hl1, skipn_length_app.
  replace (b + 1 - List.length l1)%nat with (S (List.length (m1 ++ [y])))
    by (rewrite length_app; cbn [List.length]; lia).
  cbn [firstn]. f_equal.
  replace (m1 ++ y :: m2) with ((m1 ++ [y]) ++ m2) by reassoc.
  apply firstn_length_app.
Qed.

Section ExtractCases.

Variable JSON_parse : jsstring -> option Value.

(** X12.  [extractJSON] has three outcomes.  On the empty text it
    returns [null].  Otherwise it throws [No JSON object found in
    response.], or it has cut out of the text a piece that starts with
    an opening brace and ends with a closing brace, and its result is
    the parser's result for that piece, for the piece without control
    characters if the first parse fails, and the error [Model returned
    invalid JSON format.] if both fail.  Nothing else is ever thrown,
    and nothing is returned that the parser did not produce from such a
    piece. *)
Theorem extractJSON_cases text :
  (text = [] /\ extractJSON JSON_parse text = Normal VNull)
  \/ (text <> []
      /\ extractJSON JSON_parse text
         = Abrupt (newError (lit "No JSON object found in response.")))
  \/ (exists inner,
        subseq (openBrace :: inner ++ [closeBrace]) text
        /\ extractJSON JSON_parse text
           = parseCandidate JSON_parse (openBrace :: inner ++ [closeBrace])).
Proof.
  destruct text as [|c0 text0]; [left; split; reflexivity|]. right.
  set (text := c0 :: text0).
  unfold extractJSON. rewrite truthy_name by discriminate. cbn [negb].
  set (js := removeMatches fenceAt 3 0 (removeMatches fenceJsonAt 7 0 (trim text))).
  assert (Hsub : subseq js text).
  { unfold js. eapply subseq_trans; [apply removeMatches_subseq|].
    eapply subseq_trans; [apply removeMatches_subseq | apply trim_subseq]. }
  destruct (negb (indexOf openBrace js =? -1)%Z
            && negb (lastIndexOf closeBrace js =? -1)%Z
            && (indexOf openBrace js <? lastIndexOf closeBrace js)%Z) eqn:E;
    [right | left; split; [discriminate | reflexivity]].
  apply andb_true_iff in E as [E Hlt]. apply andb_true_iff in E as [Ho Hc].
  apply negb_true_iff, Z.eqb_neq in Ho. apply negb_true_iff, Z.eqb_neq in Hc.
  apply Z.ltb_lt in Hlt.
  destruct (indexOf_nth _ _ Ho) as [Ho0 Hon].
  destruct (lastIndexOf_nth _ _ Hc) as [Hc0 Hcn].
  destruct (substring_between js _ _ _ _ Hon Hcn ltac:(lia))
    as (before & inner & after & Hjs & Hcut).
  exists inner. split.
  - eapply subseq_trans; [|exact Hsub]. rewrite Hjs.
    eapply subseq_trans; [|apply subseq_app_l].
    replace (openBrace :: inner ++ closeBrace :: after)
      with ((openBrace :: inner ++ [closeBrace]) ++ after) by reassoc.
    apply subseq_app_r.
  - unfold substring.
    replace (Z.to_nat (lastIndexOf closeBrace js + 1 - indexOf openBrace js))
      with (Z.to_nat (lastIndexOf closeBrace js) + 1 - Z.to_nat (indexOf openBrace js))%nat
      by lia.
    rewrite Hcut. reflexivity.
Qed.

End ExtractCases.

(* ------------------------------------------------------------------ *)
(** ** What the normaliser keeps *)

Lemma sanitizeCharacter_wf c :
  wfCharacter c = true ->
  exists c',
    sanitizeCharacter c = Returns c'
    /\ isObject c' = true
    /\ field c' (lit "name") = VStr (trimmedNameOf c)
    /\ field c' (lit "gender") = normalGender (field c (lit "gender"))
    /\ forall k, k <> lit "name" -> k <> lit "gender" -> field c' k = field c k.
Proof.
  intros Hwf. destruct (wfCharacter_trimmedName _ Hwf) as (Hobj & s & Hs & Ht).
  unfold sanitizeCharacter.
  rewrite (getField_object _ _ Hobj). cbn [bind]. rewrite Hs. cbn [bind].
  rewrite (setField_object _ _ _ Hobj). cbn [bind].
  set (c1 := update c (lit "name") (VStr (trim s))).
  assert (Hobj1 : isObject c1 = true) by (unfold c1; now rewrite isObject_update).
  assert (Hg1 : field c1 (lit "gender") = field c (lit "gender"))
    by (unfold c1; apply field_update_neq; key_neq).
  rewrite (getField_object _ _ Hobj1). cbn [bind]. rewrite Hg1.
  unfold normalGender.
  destruct (negb (strictEq (field c (lit "gender")) (VStr (lit "male")))
            && negb (strictEq (field c (lit "gender")) (VStr (lit "female")))).
  - rewrite (setField_object _ _ _ Hobj1). eexists. split; [reflexivity|].
    split; [now rewrite isObject_update|].
    split; [rewrite field_update_neq by key_neq; unfold c1;
            rewrite (field_update_eq _ _ _ Hobj); now rewrite Ht|].
    split; [now apply field_update_eq|].
    intros k Hn Hg. rewrite field_update_neq by congruence.
    unfold c1. apply field_update_neq. congruence.
  - exists c1. split; [reflexivity|]. split; [exact Hobj1|].
    split; [unfold c1; rewrite (field_update_eq _ _ _ Hobj); now rewrite Ht|].
    split; [exact Hg1|].
    intros k Hn Hg. unfold c1. apply field_update_neq. congruence.
Qed.

(** The two characters keep what is already right: a gender that is
    [male] or [female], a voice of the gender's list (for the second
    character: unless the first one has it), and every field other than
    [name], [gender] and [voice]. *)
Lemma normalizeCharacters_keeps rng a b :
  wfCharacter a = true -> wfCharacter b = true ->
  exists char1 char2,
    normalizeCharacters rng [a; b] = Returns (char1, char2)
    /\ field char1 (lit "gender") = normalGender (field a (lit "gender"))
    /\ field char2 (lit "gender") = normalGender (field b (lit "gender"))
    /\ (forall v, field a (lit "voice") = VStr v ->
                  In v (voicesOf (normalGender (field a (lit "gender")))) ->
                  field char1 (lit "voice") = VStr v)
    /\ (forall v, field b (lit "voice") = VStr v ->
                  In v (voicesOf (normalGender (field b (lit "gender")))) ->
                  field char1 (lit "voice") <> VStr v ->
                  field char2 (lit "voice") = VStr v)
    /\ (forall k, ~ characterKey k ->
                  field char1 k = field a k /\ field char2 k = field b k).
Proof.
  intros Ha Hb.
  destruct (sanitizeCharacter_wf _ Ha) as (c1 & Hc1 & Ho1 & Hn1 & Hg1 & Hf1).
  destruct (sanitizeCharacter_wf _ Hb) as (c2 & Hc2 & Ho2 & Hn2 & Hg2 & Hf2).
  destruct (distinctNames_spec _ _ _ _ Ho1 Ho2 Hn1 Hn2) as (n1 & n2 & Hd & _).
  set (d1 := update c1 (lit "name") (VStr n1)) in *.
  set (d2 := update c2 (lit "name") (VStr n2)) in *.
  assert (Hod1 : isObject d1 = true) by (unfold d1; now rewrite isObject_update).
  assert (Hod2 : isObject d2 = true) by (unfold d2; now rewrite isObject_update).
  assert (Hd1 : forall k, k <> lit "name" -> field d1 k = field c1 k)
    by (intros k Hk; unfold d1; apply field_update_neq; congruence).
  assert (Hd2 : forall k, k <> lit "name" -> field d2 k = field c2 k)
    by (intros k Hk; unfold d2; apply field_update_neq; congruence).
  destruct (getValidVoice_spec _ VUndefined rng Hod1) as (v1 & rng1 & Hv1 & _ & _ & Hk1).
  set (char1 := update d1 (lit "voice") (VStr v1)).
  destruct (getValidVoice_spec _ (VStr v1) rng1 Hod2) as (v2 & rng2 & Hv2 & _ & _ & Hk2).
  set (char2 := update d2 (lit "voice") (VStr v2)).
  assert (Hvc1 : field char1 (lit "voice") = VStr v1)
    by (unfold char1; now apply field_update_eq).
  assert (Hvc2 : field char2 (lit "voice") = VStr v2)
    by (unfold char2; now apply field_update_eq).
  assert (Hgd1 : field d1 (lit "gender") = normalGender (field a (lit "gender")))
    by (rewrite Hd1 by key_neq; exact Hg1).
  assert (Hgd2 : field d2 (lit "gender") = normalGender (field b (lit "gender")))
    by (rewrite Hd2 by key_neq; exact Hg2).
  exists char1, char2.
  split.
  { unfold normalizeCharacters. simpl mapM. rewrite Hc1, Hc2. cbn [bind].
    rewrite Hd. cbn [bind]. rewrite Hv1. cbn [bind].
    rewrite (setField_object _ _ _ Hod1). cbn [bind]. fold char1.
    assert (Hoc1 : isObject char1 = true) by (unfold char1; now rewrite isObject_update).
    rewrite (getField_object _ _ Hoc1). cbn [bind].
    rewrite Hvc1, Hv2. cbn [bind].
    rewrite (setField_object _ _ _ Hod2). reflexivity. }
  split; [unfold char1; rewrite field_update_neq by key_neq; exact Hgd1|].
  split; [unfold char2; rewrite field_update_neq by key_neq; exact Hgd2|].
  split; [|split].
  - intros v Hv Hin. rewrite Hvc1.
    assert (Hdv : field d1 (lit "voice") = VStr v).
    { rewrite Hd1 by key_neq. rewrite Hf1 by key_neq. exact Hv. }
    rewrite <- Hgd1 in Hin.
    destruct (Hk1 v Hdv Hin eq_refl) as [-> _]. reflexivity.
  - intros v Hv Hin Hne. rewrite Hvc2.
    assert (Hdv : field d2 (lit "voice") = VStr v).
    { rewrite Hd2 by key_neq. rewrite Hf2 by key_neq. exact Hv. }
    rewrite <- Hgd2 in Hin.
    assert (Hv1v : strictEq (VStr v) (VStr v1) = false).
    { cbn [strictEq]. apply str_eqb_neq. rewrite Hvc1 in Hne. congruence. }
    destruct (Hk2 v Hdv Hin Hv1v) as [-> _]. reflexivity.
  - intros k Hk. unfold characterKey in Hk.
    assert (Kn : k <> lit "name") by tauto.
    assert (Kg : k <> lit "gender") by tauto.
    assert (Kv : lit "voice" <> k) by (intro E; symmetry in E; tauto).
    unfold char1, char2. rewrite !field_update_neq by exact Kv.
    rewrite Hd1, Hd2 by exact Kn. split; [apply Hf1 | apply Hf2]; assumption.
Qed.

Lemma field_assemble_other data char1 char2 lines k :
  k <> lit "characters" -> k <> lit "script" ->
  field (assemble data char1 char2 lines) k = field data k.
Proof.
  intros Hc Hs. unfold assemble.
  rewrite field_update_neq by congruence.
  rewrite field_update_neq by congruence.
  rewrite field_ensured_neq by congruence.
  rewrite field_update_neq by congruence.
  apply field_ensured_neq. congruence.
Qed.

Section NormalizerFrame.

Variable toLowerCase : jsstring -> jsstring.

(** X13.  The normaliser throws exactly on the payloads that are not
    well formed: it returns when the payload is an object whose
    first two character entries and whose lines are objects with
    convertible names and speakers, and it throws a [TypeError] in every
    other case, whatever the random draws. *)
Theorem normalize_throws_iff rng data :
  wfPayload data = false <-> exists e, normalize toLowerCase rng data = Throws e.
Proof.
  split.
  - intros Hwf. destruct (normalize toLowerCase rng data) as [out|e] eqn:E; [|eauto].
    apply normalize_Returns_wf in E. congruence.
  - intros [e He]. destruct (wfPayload data) eqn:Hwf; [|reflexivity].
    destruct (normalize_wf toLowerCase rng data Hwf)
      as (a & b & c1 & c2 & n1 & n2 & v1 & v2 & _ & _ & _ & _ & _ & _ & _ & _ & _ & _ & Hn).
    congruence.
Qed.

(** X14.  The normaliser writes nothing but the characters' names,
    genders and voices and the lines' speakers: every other field of
    the payload, of the two characters it keeps and of the lines is
    returned as it was, and the script keeps its lines in number and
    order. *)
Theorem normalize_frame rng data :
  wfPayload data = true ->
  exists out,
    normalize toLowerCase rng data = Returns out
    /\ (forall k, k <> lit "characters" -> k <> lit "script" -> field out k = field data k)
    /\ Forall2 (fun c c' => forall k, ~ characterKey k -> field c' k = field c k)
               (paddedCharacters data) (elements (field out (lit "characters")))
    /\ Forall2 (fun line line' => forall k, k <> lit "speaker" -> field line' k = field line k)
               (rawScript data) (rawScript out).
Proof.
  intros Hwf.
  destruct (normalize_wf toLowerCase rng data Hwf)
    as (a & b & c1 & c2 & n1 & n2 & v1 & v2 & Hp & Ha & Hb & Hc & _ & _ & _ & _ & _ & _ & Hn).
  destruct (normalizeCharacters_keeps rng a b Ha Hb) as (c1' & c2' & Hc' & _ & _ & _ & _ & Hf).
  rewrite Hc in Hc'. injection Hc' as <- <-.
  assert (Hobj : isObject data = true).
  { unfold wfPayload in Hwf. apply andb_true_iff in Hwf as [Hwf _].
    now apply andb_true_iff in Hwf as [Hwf _]. }
  eexists. split; [exact Hn|]. split; [|split].
  - intros k Hkc Hks. now apply field_assemble_other.
  - rewrite (assemble_characters _ _ _ _ Hobj), Hp. cbn [elements].
    constructor; [|constructor; [|constructor]]; intros k Hk; now apply Hf.
  - unfold rawScript at 2.
    destruct (assemble_script data c1 c2
                (map (fun line =>
                        update line (lit "speaker")
                          (rewrittenSpeaker
                             (speakerMapOf toLowerCase n1 n2 (rawScript data)) n1
                             (rawSpeakerOf line)))
                     (rawScript data)) Hobj) as [props ->].
    cbn [elements].
    generalize (speakerMapOf toLowerCase n1 n2 (rawScript data)). intros m.
    clear. induction (rawScript data) as [|line lines IH]; cbn [map]; constructor;
      [|exact IH].
    intros k Hk. apply field_update_neq. congruence.
Qed.

(** X15.  The normaliser keeps what is already right in the two
    characters: a gender that is [male] or [female] is kept and any
    other becomes [male]; the first character keeps a voice that
    belongs to the list of its gender; the second keeps such a voice
    unless the first character has it. *)
Theorem normalize_keeps_valid rng data :
  wfPayload data = true ->
  exists out a b char1 char2,
    normalize toLowerCase rng data = Returns out
    /\ paddedCharacters data = [a; b]
    /\ field out (lit "characters") = VArr [char1; char2] []
    /\ field char1 (lit "gender") = normalGender (field a (lit "gender"))
    /\ field char2 (lit "gender") = normalGender (field b (lit "gender"))
    /\ (forall v, field a (lit "voice") = VStr v ->
                  In v (voicesOf (normalGender (field a (lit "gender")))) ->
                  field char1 (lit "voice") = VStr v)
    /\ (forall v, field b (lit "voice") = VStr v ->
                  In v (voicesOf (normalGender (field b (lit "gender")))) ->
                  field char1 (lit "voice") <> VStr v ->
                  field char2 (lit "voice") = VStr v).
Proof.
  intros Hwf.
  destruct (normalize_wf toLowerCase rng data Hwf)
    as (a & b & c1 & c2 & n1 & n2 & v1 & v2 & Hp & Ha & Hb & Hc & _ & _ & _ & _ & _ & _ & Hn).
  destruct (normalizeCharacters_keeps rng a b Ha Hb)
    as (c1' & c2' & Hc' & Hg1 & Hg2 & Hv1 & Hv2 & _).
  rewrite Hc in Hc'. injection Hc' as <- <-.
  assert (Hobj : isObject data = true).
  { unfold wfPayload in Hwf. apply andb_true_iff in Hwf as [Hwf _].
    now apply andb_true_iff in Hwf as [Hwf _]. }
  eexists. exists a, b, c1, c2. split; [exact Hn|]. split; [exact Hp|].
  split; [now apply assemble_characters|]. auto.
Qed.

End NormalizerFrame.

Lemma normalize_throws_iff_witness :
  exists e, normalize toLowerCaseAscii zeroRng nullCharacterPayload = Throws e.
Proof.
  apply (proj1 (normalize_throws_iff toLowerCaseAscii zeroRng nullCharacterPayload)).
  vm_compute. reflexivity.
Defined.

Lemma normalize_frame_witness :
  exists out,
    normalize toLowerCaseAscii zeroRng samplePayload = Returns out
    /\ (forall k, k <> lit "characters" -> k <> lit "script" ->
                  field out k = field samplePayload k)
    /\ Forall2 (fun c c' => forall k, ~ characterKey k -> field c' k = field c k)
               (paddedCharacters samplePayload) (elements (field out (lit "characters")))
    /\ Forall2 (fun line line' => forall k, k <> lit "speaker" -> field line' k = field line k)
               (rawScript samplePayload) (rawScript out).
Proof.
  apply (normalize_frame toLowerCaseAscii zeroRng samplePayload).
  vm_compute. reflexivity.
Defined.

Lemma normalize_keeps_valid_witness :
  exists out a b char1 char2,
    normalize toLowerCaseAscii zeroRng samplePayload = Returns out
    /\ paddedCharacters samplePayload = [a; b]
    /\ field out (lit "characters") = VArr [char1; char2] []
    /\ field char1 (lit "gender") = normalGender (field a (lit "gender"))
    /\ field char2 (lit "gender") = normalGender (field b (lit "gender"))
    /\ (forall v, field a (lit "voice") = VStr v ->
                  In v (voicesOf (normalGender (field a (lit "gender")))) ->
                  field char1 (lit "voice") = VStr v)
    /\ (forall v, field b (lit "voice") = VStr v ->
                  In v (voicesOf (normalGender (field b (lit "gender")))) ->
                  field char1 (lit "voice") <> VStr v ->
                  field char2 (lit "voice") = VStr v).
Proof.
  apply (normalize_keeps_valid toLowerCaseAscii zeroRng samplePayload).
  vm_compute. reflexivity.
Defined.

(* ------------------------------------------------------------------ *)
(** ** Speakers that match a name *)

Section MatchedSpeakers.

Variable toLowerCase : jsstring -> jsstring.
Variables n1 n2 : jsstring.

Lemma assignIfUnused_get name unmapped st k :
  ~ In k unmapped ->
  ownGet (fst (assignIfUnused name unmapped st)) k = ownGet (fst st) k.
Proof.
  intros Hk. unfold assignIfUnused. destruct st as [m i].
  destruct (isCharUsed m name); [reflexivity|].
  unfold unmappedAt. destruct (nth_error unmapped i) as [s|] eqn:E; [|reflexivity].
  destruct (truthy (VStr s)); [|reflexivity]. cbn [fst].
  unfold recordSet. destruct (str_eqb s (lit "__proto__")); [reflexivity|].
  apply ownGet_ownSet_neq. intros ->. apply Hk. eapply nth_error_In. exact E.
Qed.

(** X16.  A speaker that fuzzy-matches a non-empty character name is
    mapped by the matching loop and never touched by the handling of
    unmapped speakers: its lines go to character 1 if it matches the
    first name, even when it is equal to the second name, and to
    character 2 otherwise. *)
Theorem speakerMap_matched ks s :
  n1 <> [] -> n2 <> [] ->
  In s ks -> s <> lit "__proto__" ->
  fuzzyMatch toLowerCase s n1 || fuzzyMatch toLowerCase s n2 = true ->
  recordGet (buildSpeakerMap toLowerCase n1 n2 (fold_left countSpeaker ks [])) s
  = VStr (if fuzzyMatch toLowerCase s n1 then n1 else n2)
  /\ rewrittenSpeaker (buildSpeakerMap toLowerCase n1 n2 (fold_left countSpeaker ks [])) n1 s
     = VStr (if fuzzyMatch toLowerCase s n1 then n1 else n2).
Proof.
  intros Hn1 Hn2 Hs Hp Hm.
  assert (Hne : (if fuzzyMatch toLowerCase s n1 then n1 else n2) <> [])
    by (destruct (fuzzyMatch toLowerCase s n1); assumption).
  assert (Hget : ownGet (buildSpeakerMap toLowerCase n1 n2 (fold_left countSpeaker ks [])) s
                 = Some (if fuzzyMatch toLowerCase s n1 then n1 else n2)).
  { unfold buildSpeakerMap.
    set (keys := scriptSpeakersOf (fold_left countSpeaker ks [])).
    set (m0 := fold_left (matchSpeaker toLowerCase n1 n2) keys []).
    set (unmapped := filter (fun x => negb (truthy (recordGet m0 x))) keys).
    assert (H0 : ownGet m0 s = Some (if fuzzyMatch toLowerCase s n1 then n1 else n2)).
    { unfold m0. rewrite matchSpeakers_get.
      assert (E1 : existsb (str_eqb s) keys = true).
      { apply existsb_str_eqb_In. apply scriptSpeakers_in. auto. }
      apply str_eqb_neq in Hp. rewrite E1, Hp, Hm. reflexivity. }
    assert (Hout : ~ In s unmapped).
    { unfold unmapped. intros Hin. apply filter_In in Hin as [_ Hin].
      unfold recordGet in Hin. rewrite H0 in Hin. rewrite (truthy_name _ Hne) in Hin.
      discriminate. }
    rewrite assignRest_get.
    assert (E2 : existsb (str_eqb s)
                   (skipn (snd (assignIfUnused n2 unmapped
                                  (assignIfUnused n1 unmapped (m0, 0%nat)))) unmapped)
                 = false).
    { destruct (existsb _ _) eqn:E; [|reflexivity].
      apply existsb_str_eqb_In in E. exfalso. apply Hout.
      rewrite <- (firstn_skipn (snd (assignIfUnused n2 unmapped
                                       (assignIfUnused n1 unmapped (m0, 0%nat)))) unmapped).
      apply in_or_app. now right. }
    rewrite E2. cbn [andb].
    rewrite !assignIfUnused_get by exact Hout. exact H0. }
  unfold rewrittenSpeaker, recordGet. rewrite Hget, (truthy_name _ Hne). auto.
Qed.

End MatchedSpeakers.

Lemma speakerMap_matched_witness :
  recordGet (buildSpeakerMap toLowerCaseAscii (lit "Ana") (lit "Ana Maria")
               (fold_left countSpeaker [lit "Ana Maria"] [])) (lit "Ana Maria")
  = VStr (if fuzzyMatch toLowerCaseAscii (lit "Ana Maria") (lit "Ana")
          then lit "Ana" else lit "Ana Maria")
  /\ rewrittenSpeaker (buildSpeakerMap toLowerCaseAscii (lit "Ana") (lit "Ana Maria")
                         (fold_left countSpeaker [lit "Ana Maria"] []))
                      (lit "Ana") (lit "Ana Maria")
     = VStr (if fuzzyMatch toLowerCaseAscii (lit "Ana Maria") (lit "Ana")
             then lit "Ana" else lit "Ana Maria").
Proof.
  apply (speakerMap_matched toLowerCaseAscii (lit "Ana") (lit "Ana Maria")
           [lit "Ana Maria"] (lit "Ana Maria")).
  - discriminate.
  - discriminate.
  - left. reflexivity.
  - key_neq.
  - vm_compute. reflexivity.
Defined.

(** The script of [nestedNamesPayload] is spoken by the second
    character under her exact name, and is given to the first. *)
Lemma nestedNames_first_wins :
  exists out line,
    normalize toLowerCaseAscii zeroRng nestedNamesPayload = Returns out
    /\ characterName out 0 = str "Ana" /\ characterName out 1 = str "Ana Maria"
    /\ map rawSpeakerOf (rawScript nestedNamesPayload) = [lit "Ana Maria"]
    /\ rawScript out = [line]
    /\ field line (lit "speaker") = str "Ana".
Proof.
  eexists. eexists. split; [vm_compute; reflexivity|].
  repeat split; vm_compute; reflexivity.
Qed.

(* ------------------------------------------------------------------ *)
(** ** The order of the script speakers *)

(** X17.  When no speaker string names a member of [Object.prototype],
    the script speakers are the distinct speaker strings of the lines,
    each listed once, in descending order of their number of lines. *)
Theorem scriptSpeakers_by_frequency ks :
  (forall s, In s ks -> isProtoKey s = false) ->
  (forall s, In s (scriptSpeakersOf (fold_left countSpeaker ks [])) <-> In s ks)
  /\ NoDup (scriptSpeakersOf (fold_left countSpeaker ks []))
  /\ StronglySorted (fun a b => (occurrences b ks <= occurrences a ks)%N)
                    (scriptSpeakersOf (fold_left countSpeaker ks [])).
Proof.
  intros Hks. split; [|split].
  - intros s. rewrite scriptSpeakers_in. split; [tauto|].
    intros Hs. split; [exact Hs|]. intros ->. specialize (Hks _ Hs).
    rewrite isProtoKey_proto in Hks. discriminate.
  - apply scriptSpeakers_NoDup.
  - apply arraySort_descending. intros x y Hx Hy.
    apply objectKeys_in, countSpeaker_keys_in in Hx as [[]|[Hx _]].
    apply objectKeys_in, countSpeaker_keys_in in Hy as [[]|[Hy _]].
    assert (Hocc : forall k, In k ks ->
              ownGet (fold_left countSpeaker ks []) k = Some (CNum (occurrences k ks))).
    { intros k Hk. rewrite countSpeaker_counts; [|exact Hks|intros ? ? [=]].
      cbn [ownGet].
      destruct (occurrences k ks =? 0)%N eqn:E; [|reflexivity].
      apply N.eqb_eq in E. unfold occurrences in E.
      assert (Hin : In k (filter (str_eqb k) ks))
        by (apply filter_In; split; [exact Hk | apply str_eqb_refl]).
      destruct (filter (str_eqb k) ks); [contradiction | cbn in E; lia]. }
    unfold compareCounts. rewrite (Hocc x Hx), (Hocc y Hy). cbn [positive].
    destruct (occurrences x ks <? occurrences y ks)%N eqn:E.
    + apply N.ltb_lt in E. apply Z.ltb_lt. lia.
    + apply N.ltb_ge in E. apply Z.ltb_ge. lia.
Qed.

Lemma scriptSpeakers_by_frequency_witness :
  (forall s, In s (scriptSpeakersOf
                     (fold_left countSpeaker [lit "Luis"; lit "Ana"; lit "Ana"] []))
             <-> In s [lit "Luis"; lit "Ana"; lit "Ana"])
  /\ NoDup (scriptSpeakersOf (fold_left countSpeaker [lit "Luis"; lit "Ana"; lit "Ana"] []))
  /\ StronglySorted
       (fun a b => (occurrences b [lit "Luis"; lit "Ana"; lit "Ana"]
                    <= occurrences a [lit "Luis"; lit "Ana"; lit "Ana"])%N)
       (scriptSpeakersOf (fold_left countSpeaker [lit "Luis"; lit "Ana"; lit "Ana"] [])).
Proof.
  apply (scriptSpeakers_by_frequency [lit "Luis"; lit "Ana"; lit "Ana"]).
  intros s [<-|[<-|[<-|[]]]]; vm_compute; reflexivity.
Defined.

Lemma normalize_speakers_are_names_witness :
  exists n1 n2,
    characterName sampleScenario 0 = VStr n1 /\ characterName sampleScenario 1 = VStr n2
    /\ Forall (fun line => field line (lit "speaker") = VStr n1
                           \/ field line (lit "speaker") = VStr n2)
              (rawScript sampleScenario).
Proof.
  apply (normalize_speakers_are_names toLowerCaseAscii zeroRng samplePayload sampleScenario).
  - vm_compute. reflexivity.
  - intros line Hin. vm_compute in Hin.
    destruct Hin as [<-|[<-|[<-|[]]]]; vm_compute; reflexivity.
Defined.

Lemma speakerMap_unmatched_priority_witness :
  exists s0 s1 rest,
    scriptSpeakersOf (fold_left countSpeaker [lit "Bob"; lit "Eve"; lit "Bob"] [])
    = s0 :: s1 :: rest
    /\ let m := buildSpeakerMap toLowerCaseAscii (lit "Ana") (lit "Luis")
                  (fold_left countSpeaker [lit "Bob"; lit "Eve"; lit "Bob"] []) in
       recordGet m s0 = VStr (lit "Ana")
       /\ recordGet m s1 = VStr (lit "Luis")
       /\ forall s, In s rest -> recordGet m s = VStr (lit "Ana").
Proof.
  apply (speakerMap_unmatched_priority toLowerCaseAscii eq_refl (lit "Ana") (lit "Luis")
           [lit "Bob"; lit "Eve"; lit "Bob"] (lit "Bob") (lit "Eve")).
  - key_neq.
  - intros s [<-|[<-|[<-|[]]]]; split; vm_compute; reflexivity.
  - left. reflexivity.
  - right. left. reflexivity.
  - key_neq.
Defined.

(* ------------------------------------------------------------------ *)
(** ** The sources of a research response *)

Lemma ownSet_absent {A : Type} (m : list (jsstring * A)) k x :
  ownGet m k = None -> ownSet m k x = m ++ [(k, x)].
Proof.
  induction m as [|[k' v] m IH]; cbn [ownGet ownSet app]; [reflexivity|].
  destruct (str_eqb k' k); [discriminate|]. intros H. now rewrite IH.
Qed.

Lemma hasOwn_existsb {A : Type} (m : list (jsstring * A)) k :
  hasOwn m k = existsb (str_eqb k) (map fst m).
Proof.
  unfold hasOwn. induction m as [|[k' v] m IH]; cbn [ownGet map fst existsb]; [reflexivity|].
  rewrite (str_eqb_sym k k'). destruct (str_eqb k' k); [reflexivity | exact IH].
Qed.

Lemma firstOccurrences_NoDup l : forall seen,
  NoDup (firstOccurrences seen l)
  /\ forall x, In x (firstOccurrences seen l) -> ~ In x seen.
Proof.
  induction l as [|x l IH]; intros seen; cbn [firstOccurrences].
  - split; [constructor | intros ? []].
  - destruct (existsb (str_eqb x) seen) eqn:E; [apply IH|].
    destruct (IH (seen ++ [x])) as [Hnd Hout]. split.
    + constructor; [|exact Hnd]. intros Hin. apply (Hout x Hin).
      apply in_or_app. right. now left.
    + intros y [<-|Hy].
      * intros Hin. apply existsb_str_eqb_In in Hin. congruence.
      * intros Hin. apply (Hout y Hy). apply in_or_app. now left.
Qed.

Section Sources.

Variable hostname : jsstring -> completion jsstring.

Local Abbreviation collect := (collectSources hostname).

Lemma collectSources_step chunk rest m :
  collect (chunk :: rest) m
  = match webUri chunk with
    | Some u =>
        if truthy (VStr u) then
          match chunkTitle hostname chunk u with
          | Normal t =>
              collect rest (if hasOwn m u then m
                            else ownSet m u {| title := t; uri := u |})
          | Abrupt e => Abrupt e
          end
        else collect rest m
    | None => collect rest m
    end.
Proof. reflexivity. Qed.

Lemma collectSources_order chunks : forall m m',
  collect chunks m = Normal m' ->
  map fst m' = map fst m ++ firstOccurrences (map fst m) (citedUris chunks).
Proof.
  induction chunks as [|chunk rest IH]; intros m m' H.
  - injection H as <-. cbn. now rewrite app_nil_r.
  - rewrite collectSources_step in H. unfold citedUris. cbn [flat_map].
    fold (citedUris rest).
    destruct (webUri chunk) as [u|]; [|now apply IH].
    destruct (truthy (VStr u)); [|now apply IH].
    destruct (chunkTitle hostname chunk u) as [t|e]; [|discriminate].
    cbn [app firstOccurrences]. rewrite <- hasOwn_existsb.
    destruct (hasOwn m u) eqn:E; [now apply IH|].
    apply IH in H. rewrite H.
    assert (Hnone : ownGet m u = None)
      by (unfold hasOwn in E; destruct (ownGet m u); [discriminate | reflexivity]).
    rewrite (ownSet_absent _ _ _ Hnone), map_app. cbn [map fst].
    now rewrite <- app_assoc.
Qed.

Lemma collectSources_keys chunks : forall m m',
  collect chunks m = Normal m' ->
  Forall (fun kv => uri (snd kv) = fst kv) m ->
  Forall (fun kv => uri (snd kv) = fst kv) m'.
Proof.
  induction chunks as [|chunk rest IH]; intros m m' H Hm.
  - now injection H as <-.
  - rewrite collectSources_step in H.
    destruct (webUri chunk) as [u|]; [|now apply (IH m)].
    destruct (truthy (VStr u)); [|now apply (IH m)].
    destruct (chunkTitle hostname chunk u) as [t|e]; [|discriminate].
    destruct (hasOwn m u) eqn:E; [now apply (IH m)|].
    apply (IH _ _ H).
    assert (Hnone : ownGet m u = None)
      by (unfold hasOwn in E; destruct (ownGet m u); [discriminate | reflexivity]).
    rewrite (ownSet_absent _ _ _ Hnone). apply Forall_app. split; [exact Hm|].
    constructor; [reflexivity | constructor].
Qed.

Lemma collectSources_first chunks : forall m m',
  collect chunks m = Normal m' ->
  forall u s, In (u, s) m' ->
    In (u, s) m
    \/ (ownGet m u = None
        /\ exists chunk t,
             find (hasUri u) chunks = Some chunk
             /\ chunkTitle hostname chunk u = Normal t
             /\ s = {| title := t; uri := u |}).
Proof.
  induction chunks as [|chunk rest IH]; intros m m' H u s Hin.
  - injection H as <-. now left.
  - rewrite collectSources_step in H. cbn [find]. unfold hasUri at 1.
    destruct (webUri chunk) as [u0|] eqn:Eu; [|now apply (IH m m' H)].
    destruct (truthy (VStr u0)) eqn:Et; [|now apply (IH m m' H)].
    destruct (chunkTitle hostname chunk u0) as [t0|e] eqn:Ec; [|discriminate].
    cbn [andb].
    destruct (hasOwn m u0) eqn:E.
    + destruct (IH m m' H u s Hin) as [Hm|(Hnone & chunk' & t & Hf & Ht & Hs)]; [now left|].
      right. split; [exact Hnone|].
      destruct (str_eqb u0 u) eqn:E0.
      * apply str_eqb_eq in E0. subst u0. unfold hasOwn in E. rewrite Hnone in E. discriminate.
      * exists chunk', t. auto.
    + assert (Hnone0 : ownGet m u0 = None)
        by (unfold hasOwn in E; destruct (ownGet m u0); [discriminate | reflexivity]).
      rewrite (ownSet_absent _ _ _ Hnone0) in H.
      destruct (IH _ m' H u s Hin) as [Hm|(Hnone & chunk' & t & Hf & Ht & Hs)].
      * apply in_app_or in Hm as [Hm|[Hm|[]]]; [now left|].
        injection Hm as <- <-. right. split; [exact Hnone0|].
        rewrite str_eqb_refl. exists chunk, t0. auto.
      * assert (Hne : u0 <> u).
        { intros ->. rewrite <- (ownSet_absent _ _ {| title := t0; uri := u |} Hnone0) in Hnone.
          rewrite ownGet_ownSet_eq in Hnone. discriminate. }
        right. split.
        -- rewrite <- (ownSet_absent _ _ {| title := t0; uri := u0 |} Hnone0) in Hnone.
           now rewrite ownGet_ownSet_neq in Hnone.
        -- apply str_eqb_neq in Hne. rewrite Hne. exists chunk', t. auto.
Qed.

(** X18.  The sources of a response are the URIs its grounding chunks
    cite, each once, in the order of their first citation; the title of
    a source is the one of the first chunk that cites its URI, that
    chunk's own title if it has one and the host name of the URI
    otherwise. *)
Theorem collectSources_first_citation chunks m :
  collect chunks [] = Normal m ->
  map uri (map snd m) = firstOccurrences [] (citedUris chunks)
  /\ NoDup (map uri (map snd m))
  /\ Forall (fun s => exists chunk,
                 find (hasUri (uri s)) chunks = Some chunk
                 /\ chunkTitle hostname chunk (uri s) = Normal (title s))
            (map snd m).
Proof.
  intros H.
  assert (Hkeys : map uri (map snd m) = map fst m).
  { pose proof (collectSources_keys chunks [] m H (Forall_nil _)) as Hk.
    clear H. induction Hk as [|kv l Hkv _ IH]; cbn [map]; [reflexivity | now rewrite Hkv, IH]. }
  assert (Horder : map fst m = firstOccurrences [] (citedUris chunks))
    by apply (collectSources_order chunks [] m H).
  split; [now rewrite Hkeys|]. split.
  - rewrite Hkeys, Horder. apply firstOccurrences_NoDup.
  - apply Forall_forall. intros s Hs. apply in_map_iff in Hs as [[u s'] [Hsnd Hin]].
    cbn [snd] in Hsnd. subst s'.
    destruct (collectSources_first chunks [] m H u s Hin)
      as [[]|(_ & chunk & t & Hf & Ht & ->)].
    cbn [uri title]. eauto.
Qed.

(** X19.  The title of a chunk is computed before the map of sources is
    consulted: a chunk without title whose URI is not a URL aborts the
    collection even when its URI is already listed and the chunk would
    be dropped. *)
Theorem collectSources_title_first before chunk after u e m :
  collect before [] = Normal m ->
  webUri chunk = Some u -> u <> [] ->
  chunkTitle hostname chunk u = Abrupt e ->
  collect (before ++ chunk :: after) [] = Abrupt e.
Proof.
  intros H Hu Hne Ht. revert H. generalize (@nil (jsstring * Source)) as m0.
  induction before as [|c before IH]; intros m0 H.
  - cbn [app]. rewrite collectSources_step, Hu, (truthy_name _ Hne), Ht. reflexivity.
  - cbn [app]. rewrite collectSources_step in H |- *.
    destruct (webUri c) as [u0|]; [|now apply IH].
    destruct (truthy (VStr u0)); [|now apply IH].
    destruct (chunkTitle hostname c u0); [now apply (IH _ H) | discriminate].
Qed.

End Sources.

Lemma collectSources_first_citation_witness :
  map uri (map snd [ (lit "https://example.org/forum",
                      {| title := lit "The Forum"; uri := lit "https://example.org/forum" |});
                     (lit "https://history.example/rome",
                      {| title := lit "history.example";
                         uri := lit "https://history.example/rome" |}) ])
  = firstOccurrences [] (citedUris forumChunks)
  /\ NoDup (map uri (map snd
       [ (lit "https://example.org/forum",
          {| title := lit "The Forum"; uri := lit "https://example.org/forum" |});
         (lit "https://history.example/rome",
          {| title := lit "history.example"; uri := lit "https://history.example/rome" |}) ]))
  /\ Forall (fun s => exists chunk,
                 find (hasUri (uri s)) forumChunks = Some chunk
                 /\ chunkTitle httpsHostname chunk (uri s) = Normal (title s))
            (map snd
               [ (lit "https://example.org/forum",
                  {| title := lit "The Forum"; uri := lit "https://example.org/forum" |});
                 (lit "https://history.example/rome",
                  {| title := lit "history.example";
                     uri := lit "https://history.example/rome" |}) ]).
Proof.
  apply (collectSources_first_citation httpsHostname forumChunks).
  vm_compute. reflexivity.
Defined.

Lemma collectSources_title_first_witness :
  collectSources httpsHostname
    ([ {| webUri := Some (lit "forum"); webTitle := Some (lit "The Forum") |} ]
     ++ {| webUri := Some (lit "forum"); webTitle := None |} :: [])
    []
  = Abrupt (newError (lit "Invalid URL")).
Proof.
  apply (collectSources_title_first httpsHostname
           [ {| webUri := Some (lit "forum"); webTitle := Some (lit "The Forum") |} ]
           {| webUri := Some (lit "forum"); webTitle := None |} [] (lit "forum")
           (newError (lit "Invalid URL"))
           [ (lit "forum", {| title := lit "The Forum"; uri := lit "forum" |}) ]).
  - vm_compute. reflexivity.
  - reflexivity.
  - discriminate.
  - vm_compute. reflexivity.
Defined.

(* ------------------------------------------------------------------ *)
(** ** The research request *)

Lemma includes_prefix (s b : jsstring) : includes (s ++ b) s = true.
Proof.
  assert (H : startsWith (s ++ b) s = true).
  { induction s as [|c s IH]; cbn [app startsWith]; [apply startsWith_nil|].
    now rewrite N.eqb_refl, IH. }
  destruct (s ++ b); cbn [includes]; now rewrite H.
Qed.

Lemma includes_app_l (a r s : jsstring) : includes r s = true -> includes (a ++ r) s = true.
Proof.
  intros H. induction a as [|c a IH]; cbn [app includes]; [exact H|].
  rewrite IH. apply orb_true_r.
Qed.

(** X20.  The prompt sent to the research service names the place and
    the day asked for: it contains the location between double quotes
    and the date. *)
Theorem researchPrompt_mentions location date :
  includes (researchPrompt location date) ([34%N] ++ location ++ [34%N]) = true
  /\ includes (researchPrompt location date) date = true.
Proof.
  unfold researchPrompt. cbn [List.concat]. split.
  - do 4 apply includes_app_l.
    match goal with
    | |- includes (?a ++ ?b ++ ?c ++ ?rest) _ = true =>
        replace (a ++ b ++ c ++ rest) with ((a ++ b ++ c) ++ rest)
          by (now rewrite <- !app_assoc)
    end.
    apply includes_prefix.
  - do 8 apply includes_app_l. apply includes_prefix.
Qed.

Lemma quotaMessage_text m : quotaMessage (VStr m) = Some (quotaText m).
Proof.
  unfold quotaMessage, quotaText. cbn [messageIncludes].
  destruct (includes m (lit "429")); [reflexivity|].
  destruct (includes m (lit "quota")); reflexivity.
Qed.

(** The [catch] clause on an [Error] whose message is a string, and on
    a thrown string. *)
Lemma researchFailure_message typeErrorMessage m :
  (forall props, ownGet props (lit "message") = Some (VStr m) ->
     researchFailure typeErrorMessage (ErrorObject props)
     = newError (if quotaText m then busyMessage else lit "Research failed: " ++ m))
  /\ researchFailure typeErrorMessage (NonError (VStr m))
     = newError (if quotaText m then busyMessage else lit "Research failed: " ++ m).
Proof.
  split.
  - intros props Hm. unfold researchFailure, errorField. rewrite Hm, quotaMessage_text.
    destruct (quotaText m); reflexivity.
  - unfold researchFailure. cbn [toStr bind]. rewrite quotaMessage_text.
    destruct (quotaText m); reflexivity.
Qed.

Lemma researchFailure_newError typeErrorMessage m :
  researchFailure typeErrorMessage (newError m)
  = newError (if quotaText m then busyMessage else lit "Research failed: " ++ m).
Proof.
  apply (proj1 (researchFailure_message typeErrorMessage m)).
  unfold newError. cbn [ownGet]. now rewrite str_eqb_refl.
Qed.

Section ResearchProperties.

Variable World : Type.
Variable toLowerCase : jsstring -> jsstring.
Variable JSON_parse : jsstring -> option Value.
Variable hostname : jsstring -> completion jsstring.
Variable typeErrorMessage : TypeError -> jsstring.
Variable researchService : jsstring -> World -> completion ResearchResponse * World.

Local Abbreviation research :=
  (researchLocationAndDate toLowerCase JSON_parse hostname typeErrorMessage researchService).

Local Abbreviation call location date :=
  (withRetry (researchService (researchPrompt location date)) MAX_RETRIES INITIAL_DELAY_MS).

(** X21.  When the service call finally fails with an [Error] whose
    message is a string, the research fails with the busy message if
    the message contains [429], [quota] or [RESOURCE_EXHAUSTED], and
    with [Research failed: ] followed by the message otherwise.  The
    status and the code of the error play no part: an error the retry
    executor treats as a quota error by its status alone is reported as
    a plain failure. *)
Theorem researchLocationAndDate_service_error location date rng w w' events props m :
  call location date w = (Abrupt (ErrorObject props), w', events) ->
  ownGet props (lit "message") = Some (VStr m) ->
  research location date rng w
  = (Abrupt (newError (if quotaText m then busyMessage else lit "Research failed: " ++ m)),
     w', events).
Proof.
  intros Hcall Hm. unfold researchLocationAndDate. rewrite Hcall.
  now rewrite (proj1 (researchFailure_message typeErrorMessage m) props Hm).
Qed.

(** X22.  What the research reports when the service answers and the
    answer cannot be used: an answer blocked for safety, an answer
    without text or whose JSON value is falsy, an answer in which no
    JSON is found or parsed, and a payload on which the normaliser
    throws.  Every one of these errors passes through the [catch]
    clause, which puts [Research failed: ] before its message. *)
Theorem researchLocationAndDate_failures location date rng w w' events response :
  call location date w = (Normal response, w', events) ->
  (researchFinishReason response = Some (lit "SAFETY") ->
   research location date rng w
   = (Abrupt (newError (lit "Research failed: The request was blocked by safety filters. Please try a different location or topic.")),
      w', events))
  /\ (forall sourcesMap,
        researchFinishReason response <> Some (lit "SAFETY") ->
        collectSources hostname (groundingChunks response) [] = Normal sourcesMap ->
        (responseText response = None
         \/ (exists text data, responseText response = Some text
                               /\ extractJSON JSON_parse text = Normal data
                               /\ truthy data = false) ->
         research location date rng w
         = (Abrupt (newError (lit "Research failed: Empty response from model.")), w', events))
        /\ (forall text message,
              responseText response = Some text ->
              extractJSON JSON_parse text = Abrupt (newError message) ->
              research location date rng w
              = (Abrupt (newError (if quotaText message then busyMessage
                                   else lit "Research failed: " ++ message)), w', events))
        /\ (forall text data e,
              responseText response = Some text ->
              extractJSON JSON_parse text = Normal data ->
              truthy data = true ->
              normalize toLowerCase rng data = Throws e ->
              research location date rng w
              = (Abrupt (newError (if quotaText (typeErrorMessage e) then busyMessage
                                   else lit "Research failed: " ++ typeErrorMessage e)),
                 w', events))).
Proof.
  intros Hcall. unfold researchLocationAndDate. rewrite Hcall. split.
  - intros Hs. unfold researchBody. rewrite Hs, str_eqb_refl.
    now rewrite researchFailure_newError.
  - intros sourcesMap Hs Hc.
    assert (Hsafe : match researchFinishReason response with
                    | Some reason => str_eqb reason (lit "SAFETY")
                    | None => false
                    end = false).
    { destruct (researchFinishReason response) as [r|]; [|reflexivity].
      apply str_eqb_neq. congruence. }
    unfold researchBody. rewrite Hsafe, Hc. split; [|split].
    + intros [Ht|(text & data & Ht & He & Hd)]; rewrite Ht.
      * cbn [truthy negb]. now rewrite researchFailure_newError.
      * rewrite He, Hd. cbn [negb]. now rewrite researchFailure_newError.
    + intros text message Ht He. rewrite Ht, He. now rewrite researchFailure_newError.
    + intros text data e Ht He Hd Hn. rewrite Ht, He, Hd, Hn. cbn [negb].
      now rewrite researchFailure_newError.
Qed.

(** X23.  When the service answers with a JSON payload the normaliser
    accepts, the research returns after the calls of the retry
    executor alone; the scenario is the normalised payload with its
    fields as they are, and its [sources] are the sources collected from
    the grounding chunks, in place of any [sources] of the payload. *)
Theorem researchLocationAndDate_success location date rng w w' events response
        sourcesMap text data out :
  call location date w = (Normal response, w', events) ->
  researchFinishReason response <> Some (lit "SAFETY") ->
  collectSources hostname (groundingChunks response) [] = Normal sourcesMap ->
  responseText response = Some text ->
  extractJSON JSON_parse text = Normal data ->
  normalize toLowerCase rng data = Returns out ->
  exists scenario,
    research location date rng w = (Normal scenario, w', events)
    /\ field scenario (lit "sources") = VArr (map sourceValue (map snd sourcesMap)) []
    /\ (isArray out = false ->
        forall k, k <> lit "sources" -> field scenario k = field out k).
Proof.
  intros Hcall Hs Hc Ht He Hn.
  assert (Hsafe : match researchFinishReason response with
                  | Some reason => str_eqb reason (lit "SAFETY")
                  | None => false
                  end = false).
  { destruct (researchFinishReason response) as [r|]; [|reflexivity].
    apply str_eqb_neq. congruence. }
  assert (Hobj : isObject data = true) by (eapply normalize_Returns_object; exact Hn).
  assert (Htruthy : truthy data = true) by (destruct data; try discriminate; reflexivity).
  assert (Hout : isObject out = true).
  { rewrite (normalize_stages toLowerCase rng data Hobj) in Hn.
    inv_bind Hn. destruct a as [c1 c2]. inv_bind Hn. injection Hn as <-.
    now apply assemble_object. }
  eexists. split.
  { unfold researchLocationAndDate. rewrite Hcall. unfold researchBody.
    rewrite Hsafe, Hc, Ht, He, Htruthy, Hn. reflexivity. }
  split.
  - cbn [field]. now rewrite ownGet_ownSet_eq.
  - intros Harr k Hk. destruct out as [| | | | |elems props|props|]; try discriminate.
    cbn [spread field]. rewrite ownGet_ownSet_neq by congruence. reflexivity.
Qed.

End ResearchProperties.

Lemma researchLocationAndDate_service_error_witness :
  isQuotaError (ErrorObject [(lit "status", VNum (lit "429"));
                             (lit "message", VStr (lit "Too Many Requests"))]) = Some true
  /\ researchLocationAndDate toLowerCaseAscii emptyObjectParser httpsHostname sampleMessage
       throttledResearch (lit "Forum Romanum") (lit "15 March 44 BC") zeroRng 0%nat
     = (Abrupt (newError (if quotaText (lit "Too Many Requests") then busyMessage
                          else lit "Research failed: " ++ lit "Too Many Requests")),
        4%nat,
        [Called; Slept 2000; Called; Slept 4000; Called; Slept 8000; Called]).
Proof.
  split; [vm_compute; reflexivity|].
  apply (researchLocationAndDate_service_error nat toLowerCaseAscii emptyObjectParser
           httpsHostname sampleMessage throttledResearch
           (lit "Forum Romanum") (lit "15 March 44 BC") zeroRng 0%nat 4%nat
           [Called; Slept 2000; Called; Slept 4000; Called; Slept 8000; Called]
           [(lit "status", VNum (lit "429")); (lit "message", VStr (lit "Too Many Requests"))]
           (lit "Too Many Requests")).
  - vm_compute. reflexivity.
  - vm_compute. reflexivity.
Defined.

Lemma researchLocationAndDate_failures_witness :
  researchLocationAndDate toLowerCaseAscii emptyObjectParser httpsHostname sampleMessage
    blockedResearch (lit "Forum Romanum") (lit "15 March 44 BC") zeroRng 0%nat
  = (Abrupt (newError (lit "Research failed: The request was blocked by safety filters. Please try a different location or topic.")),
     1%nat, [Called]).
Proof.
  apply (proj1 (researchLocationAndDate_failures nat toLowerCaseAscii emptyObjectParser
                  httpsHostname sampleMessage blockedResearch
                  (lit "Forum Romanum") (lit "15 March 44 BC") zeroRng 0%nat 1%nat [Called]
                  {| researchFinishReason := Some (lit "SAFETY"); responseText := None;
                     groundingChunks := [] |} eq_refl)).
  reflexivity.
Defined.

Lemma researchLocationAndDate_success_witness :
  exists scenario,
    researchLocationAndDate toLowerCaseAscii emptyObjectParser httpsHostname sampleMessage
      fencedResearch (lit "Forum Romanum") (lit "15 March 44 BC") zeroRng 0%nat
    = (Normal scenario, 1%nat, [Called])
    /\ field scenario (lit "sources")
       = VArr (map sourceValue
                 [ {| title := lit "The Forum"; uri := lit "https://example.org/forum" |};
                   {| title := lit "history.example";
                      uri := lit "https://history.example/rome" |} ]) []
    /\ (isArray (VObj [(lit "characters", VArr [defaultCharacter 1; defaultCharacter 2] []);
                       (lit "script", VArr [] [])]) = false ->
        forall k, k <> lit "sources" ->
          field scenario k
          = field (VObj [(lit "characters", VArr [defaultCharacter 1; defaultCharacter 2] []);
                         (lit "script", VArr [] [])]) k).
Proof.
  apply (researchLocationAndDate_success nat toLowerCaseAscii emptyObjectParser
           httpsHostname sampleMessage fencedResearch
           (lit "Forum Romanum") (lit "15 March 44 BC") zeroRng 0%nat 1%nat [Called]
           {| researchFinishReason := Some (lit "STOP");
              responseText :=
                Some (lit "```json" ++ [10%N] ++ lit "{}" ++ [10%N] ++ lit "```");
              groundingChunks := forumChunks |}
           [ (lit "https://example.org/forum",
              {| title := lit "The Forum"; uri := lit "https://example.org/forum" |});
             (lit "https://history.example/rome",
              {| title := lit "history.example"; uri := lit "https://history.example/rome" |}) ]
           (lit "```json" ++ [10%N] ++ lit "{}" ++ [10%N] ++ lit "```")
           (VObj [])).
  - reflexivity.
  - discriminate.
  - vm_compute. reflexivity.
  - reflexivity.
  - vm_compute. reflexivity.
  - vm_compute. reflexivity.
Defined.

(* ------------------------------------------------------------------ *)
(** ** The submit handler *)

Lemma errMessage_ErrorObject props :
  exists m, errMessage (ErrorObject props) = Returns m.
Proof. eexists. reflexivity. Qed.

Section SubmitProperties.

Variables ResearchWorld SpeechWorld ImageWorld AudioBuffer : Type.
Variable research :
  jsstring -> jsstring -> ResearchWorld -> completion HistoricalScenario * ResearchWorld.
Variable speechService :
  jsstring -> list (jsstring * jsstring) -> SpeechWorld -> completion SpeechResponse * SpeechWorld.
Variable decodeAudio : jsstring -> SpeechWorld -> completion AudioBuffer * SpeechWorld.
Variable imageService : jsstring -> ImageWorld -> completion (list ImagePart) * ImageWorld.

Local Abbreviation submit := (handleSubmit research speechService decodeAudio imageService).

Lemma handleError_shows (st : @AppState AudioBuffer) err m :
  scenario st = None -> audioBuffer st = None ->
  errMessage err = Returns m ->
  exists st', handleError st err = Some st' /\ showsError st'
              /\ error st' = Some (if truthy m then m
                                   else VStr (lit "An unexpected error occurred.")).
Proof.
  intros Hs Ha Hm. unfold handleError. rewrite Hm. eexists. split; [reflexivity|].
  split; [|reflexivity].
  unfold showsError. cbn [loadingStep scenario audioBuffer error].
  split; [reflexivity|]. split; [exact Hs|]. split; [exact Ha|].
  eexists. split; [reflexivity|]. destruct (truthy m) eqn:E; [exact E | reflexivity].
Qed.

(** Whatever the audio stage throws is an [Error] with a message. *)
Lemma generateDialogueAudio_rejects_Error scenarioData ws err ws' attempts :
  generateDialogueAudio speechService decodeAudio scenarioData ws = (Abrupt err, ws', attempts) ->
  exists m, err = newError m /\ m <> [].
Proof.
  unfold generateDialogueAudio.
  destruct (performGeneration speechService decodeAudio scenarioData false ws) as [[b|e1] w1];
    [discriminate|].
  destruct (performGeneration speechService decodeAudio scenarioData true w1) as [[b|e2] w2];
    [discriminate|].
  destruct (messageOf e2) as [m|]; intros H; injection H as <- _ _;
    eexists; (split; [reflexivity | discriminate]).
Qed.

(** X24.  When the research rejects with instances of [Error] only, as
    [researchLocationAndDate] does, every submission ends, and it ends
    in one of two ways: with a scenario, its audio and no error, or
    with an error message that is not empty and neither scenario nor
    audio.  The loading step then is [idle]; the state before it is
    [researching] or [generating_media] with nothing to show. *)
Theorem handleSubmit_settles location date generateImages w :
  (forall wr err wr', research location date wr = (Abrupt err, wr') ->
                      exists props, err = ErrorObject props) ->
  exists before final,
    fst (submit location date generateImages w) = before ++ [final]
    /\ (showsResult final \/ showsError final)
    /\ Forall (fun st => loadingStep st <> idle /\ scenario st = None
                         /\ audioBuffer st = None /\ error st = None) before.
Proof.
  intros Herr. destruct w as [[wr ws] wi]. unfold handleSubmit.
  destruct (research location date wr) as [[scenarioData|err] wr'] eqn:Er.
  - destruct (generateDialogueAudio speechService decodeAudio scenarioData ws)
      as [[[buffer|err] ws'] attempts] eqn:Ea;
      destruct (imagesStage imageService generateImages scenarioData wi)
        as [[merged wi'] requests].
    + eexists [_; _], _. cbn [fst app]. split; [reflexivity|]. split.
      * left. unfold showsResult. cbn. split; [reflexivity|]. split; [eauto | reflexivity].
      * repeat constructor; cbn; discriminate.
    + destruct (generateDialogueAudio_rejects_Error _ _ _ _ _ Ea) as (m & -> & Hm).
      destruct (handleError_shows
                  {| loadingStep := generating_media; scenario := None;
                     audioBuffer := None; error := None |}
                  (newError m) (VStr m) eq_refl eq_refl) as (st' & Hst & Hshow & _).
      { unfold errMessage, errorField, newError. cbn [ownGet]. now rewrite str_eqb_refl. }
      cbn [scenario audioBuffer error]. rewrite Hst.
      eexists [_; _], st'. cbn [fst app]. split; [reflexivity|]. split; [now right|].
      repeat constructor; cbn; discriminate.
  - destruct (Herr _ _ _ Er) as [props ->].
    destruct (errMessage_ErrorObject props) as [m Hm].
    destruct (handleError_shows
                {| loadingStep := researching; scenario := None;
                   audioBuffer := None; error := None |}
                (ErrorObject props) m eq_refl eq_refl Hm) as (st' & Hst & Hshow & _).
    rewrite Hst. eexists [_], st'. cbn [fst app]. split; [reflexivity|].
    split; [now right|]. repeat constructor; cbn; discriminate.
Qed.

(** X25.  When the research fails, neither the speech service nor the
    image service is called, and the error shown is the message of the
    failure, or [An unexpected error occurred.] when that message is
    empty or missing. *)
Theorem handleSubmit_research_failure location date generateImages wr ws wi props wr' :
  research location date wr = (Abrupt (ErrorObject props), wr') ->
  exists final,
    submit location date generateImages (wr, ws, wi)
    = ([ {| loadingStep := researching; scenario := None; audioBuffer := None;
            error := None |}; final ], (wr', ws, wi))
    /\ showsError final
    /\ error final
       = Some (if truthy (errorField (ErrorObject props) (lit "message"))
               then errorField (ErrorObject props) (lit "message")
               else VStr (lit "An unexpected error occurred.")).
Proof.
  intros Er. unfold handleSubmit. rewrite Er.
  destruct (handleError_shows
              {| loadingStep := researching; scenario := None;
                 audioBuffer := None; error := None |}
              (ErrorObject props) _ eq_refl eq_refl eq_refl) as (st' & Hst & Hshow & He).
  rewrite Hst. exists st'. auto.
Qed.

(** X26.  When the audio fails, the avatars are requested all the same
    and then thrown away with the scenario: the image service ends in
    the state the avatar stage leaves it in, and the component shows
    the error of the audio stage alone. *)
Theorem handleSubmit_audio_failure location date generateImages wr ws wi
        scenarioData wr' err ws' attempts :
  research location date wr = (Normal scenarioData, wr') ->
  generateDialogueAudio speechService decodeAudio scenarioData ws = (Abrupt err, ws', attempts) ->
  exists final m,
    submit location date generateImages (wr, ws, wi)
    = ([ {| loadingStep := researching; scenario := None; audioBuffer := None;
            error := None |};
         {| loadingStep := generating_media; scenario := None; audioBuffer := None;
            error := None |};
         final ],
       (wr', ws', snd (fst (imagesStage imageService generateImages scenarioData wi))))
    /\ showsError final
    /\ err = newError m /\ error final = Some (VStr m).
Proof.
  intros Er Ea. unfold handleSubmit. rewrite Er, Ea.
  destruct (imagesStage imageService generateImages scenarioData wi)
    as [[merged wi'] requests].
  destruct (generateDialogueAudio_rejects_Error _ _ _ _ _ Ea) as (m & -> & Hm).
  destruct (handleError_shows
              {| loadingStep := generating_media; scenario := None;
                 audioBuffer := None; error := None |}
              (newError m) (VStr m) eq_refl eq_refl) as (st' & Hst & Hshow & He).
  { unfold errMessage, errorField, newError. cbn [ownGet]. now rewrite str_eqb_refl. }
  cbn [scenario audioBuffer error]. rewrite Hst. exists st', m.
  split; [reflexivity|]. split; [exact Hshow|]. split; [reflexivity|].
  rewrite He. now rewrite (truthy_name _ Hm).
Qed.

End SubmitProperties.

Lemma handleSubmit_settles_witness :
  exists before final,
    fst (handleSubmit silentFailure englishOnlySpeech identityDecoder oneImage
           (lit "Forum Romanum") (lit "15 March 44 BC") true (0%nat, 0%nat, 0%nat))
    = before ++ [final]
    /\ (showsResult final \/ showsError final)
    /\ Forall (fun st => loadingStep st <> idle /\ scenario st = None
                         /\ audioBuffer st = None /\ error st = None) before.
Proof.
  apply (handleSubmit_settles nat nat nat jsstring silentFailure englishOnlySpeech
           identityDecoder oneImage (lit "Forum Romanum") (lit "15 March 44 BC") true
           (0%nat, 0%nat, 0%nat)).
  intros wr err wr' H. exists []. unfold silentFailure in H. congruence.
Defined.

Lemma handleSubmit_research_failure_witness :
  exists final,
    handleSubmit silentFailure englishOnlySpeech identityDecoder oneImage
      (lit "Forum Romanum") (lit "15 March 44 BC") true (0%nat, 0%nat, 0%nat)
    = ([ {| loadingStep := researching; scenario := None; audioBuffer := None;
            error := None |}; final ], (1%nat, 0%nat, 0%nat))
    /\ showsError final
    /\ error final
       = Some (if truthy (errorField (ErrorObject []) (lit "message"))
               then errorField (ErrorObject []) (lit "message")
               else VStr (lit "An unexpected error occurred.")).
Proof.
  apply (handleSubmit_research_failure nat nat nat jsstring silentFailure englishOnlySpeech
           identityDecoder oneImage (lit "Forum Romanum") (lit "15 March 44 BC") true
           0%nat 0%nat 0%nat [] 1%nat).
  reflexivity.
Defined.

Lemma handleSubmit_audio_failure_witness :
  exists final m,
    handleSubmit forumResearch muteSpeech identityDecoder oneImage
      (lit "Forum Romanum") (lit "15 March 44 BC") true (0%nat, 0%nat, 0%nat)
    = ([ {| loadingStep := researching; scenario := None; audioBuffer := None;
            error := None |};
         {| loadingStep := generating_media; scenario := None; audioBuffer := None;
            error := None |};
         final ],
       (1%nat, 2%nat, snd (fst (imagesStage oneImage true forumScenario 0%nat))))
    /\ showsError final
    /\ newError (lit "Audio generation failed: No audio data returned from the model (Finish Reason: OTHER).")
       = newError m
    /\ error final = Some (VStr m).
Proof.
  apply (handleSubmit_audio_failure nat nat nat jsstring forumResearch muteSpeech
           identityDecoder oneImage (lit "Forum Romanum") (lit "15 March 44 BC") true
           0%nat 0%nat 0%nat forumScenario 1%nat
           (newError (lit "Audio generation failed: No audio data returned from the model (Finish Reason: OTHER)."))
           2%nat [false; true]).
  - reflexivity.
  - vm_compute. reflexivity.
Defined.
